(** * kafka-order-service: the order lifecycle engine

    A shallow embedding of the order aggregate (package [entities]), of the
    use cases that orchestrate it (package [usecase]) and of the PostgreSQL
    repository (package [postgres]), followed by the properties of the
    specification stated and settled against them.

    Conventions of the embedding:
    - [float64] is Rocq's primitive binary64 float, so every product, sum and
      comparison below is the IEEE 754 operation the Go code performs;
    - Go [int] is the 64-bit two's complement integer, held as the [Z] it
      stands for; the one sum of ints the code forms without a bound, the
      count of [GetItemCount], wraps around as it does in Go ([int_wrap]);
    - Go [string] is [string] (a sequence of bytes, [len] is [String.length]);
    - [uuid.UUID] is the 128-bit value of its 16 bytes, [uuid.Nil] is 0;
    - [time.Time] is an instant on an integer time line;
    - [map[string]interface{}] is a [gmap string Any];
    - a call that leaves the package ([time.Now], [uuid.New], a method of an
      injected interface) is a node of a program tree [Prog]; the tree is
      run against every possible environment ([runs]) or against a concrete
      one ([exec]). *)

From Stdlib Require Import Floats ZArith QArith List String Ascii Lia Permutation
  DecimalString.
From stdpp Require Import gmap strings list sorting.

Set Warnings "-inexact-float,-register-all".
Local Open Scope Z_scope.
Local Open Scope string_scope.
Local Open Scope list_scope.

(* ===================================================================== *)
(** ** Primitive types of the Go runtime and its libraries               *)
(* ===================================================================== *)

Definition UUID : Type := N.
Definition uuid_Nil : UUID := 0%N.
Definition Time : Type := Z.

(** [float64(n)] for an [int] n: the nearest binary64 value, ties to even. *)
Definition float64_of_int (n : Z) : float :=
  SF2Prim (binary_normalize 53 1024 n 0 false).

(** The rational number a finite float stands for ([None] for NaN and the
    infinities). *)
Definition float_exact (f : float) : option Q :=
  match Prim2SF f with
  | S754_zero _ => Some (0 # 1)%Q
  | S754_finite s m e =>
      Some (Qmult (inject_Z (if s then Z.neg m else Z.pos m)) (Qpower (2 # 1) e))
  | S754_infinity _ => None
  | S754_nan => None
  end.

(** [strings.Contains(s, substr)]. *)
Fixpoint Contains (s substr : string) : bool :=
  String.prefix substr s ||
  match s with
  | EmptyString => false
  | String _ s' => Contains s' substr
  end.

(** [strings.Split(s, sep)] for a separator of one byte, the only way the
    code calls it ([strings.Split(email, "@")]). *)
Fixpoint Split (s : string) (sep : ascii) : list string :=
  match s with
  | EmptyString => [EmptyString]
  | String c s' =>
      if Ascii.eqb c sep then EmptyString :: Split s' sep
      else match Split s' sep with
           | [] => [String c EmptyString]
           | p :: ps => String c p :: ps
           end
  end.

(** A value of type [interface{}] as the code stores it in metadata and in
    event data: what JSON decoding and the code itself put there. *)
Inductive Any : Type :=
| ANil
| ABool (b : bool)
| AInt (n : Z)
| AFloat (f : float)
| AString (s : string)
| AList (l : list Any)
| AMap (m : list (string * Any)).

(* ===================================================================== *)
(** ** package entities: data model (order-entity.go, errors.go)         *)
(* ===================================================================== *)

Definition OrderStatus : Type := string.

Definition OrderStatusPending : OrderStatus := "pending".
Definition OrderStatusConfirmed : OrderStatus := "confirmed".
Definition OrderStatusProcessing : OrderStatus := "processing".
Definition OrderStatusShipped : OrderStatus := "shipped".
Definition OrderStatusDelivered : OrderStatus := "delivered".
Definition OrderStatusCancelled : OrderStatus := "cancelled".
Definition OrderStatusRefunded : OrderStatus := "refunded".

Record OrderItem : Type := mkOrderItem {
  item_ID : UUID;
  item_OrderID : UUID;
  item_ProductID : UUID;
  item_Name : string;
  item_Price : float;
  item_Quantity : Z;
  item_Total : float
}.

Record Address : Type := mkAddress {
  addr_ID : UUID;
  addr_OrderID : UUID;
  addr_Type : string;
  addr_Street : string;
  addr_City : string;
  addr_State : string;
  addr_Country : string;
  addr_ZipCode : string
}.

Record Order : Type := mkOrder {
  ID : UUID;
  CustomerID : UUID;
  Email : string;
  Status : OrderStatus;
  TotalAmount : float;
  Currency : string;
  Items : list OrderItem;
  CreatedAt : Time;
  UpdatedAt : Time;
  ShippingAddress : option Address;
  BillingAddress : option Address;
  Metadata : gmap string Any
}.

Record OrderEvent : Type := mkOrderEvent {
  ev_EventType : string;
  ev_EventID : UUID;
  ev_OrderID : UUID;
  ev_CustomerID : UUID;
  ev_Status : OrderStatus;
  ev_TotalAmount : float;
  ev_Currency : string;
  ev_Timestamp : Time;
  ev_Data : gmap string Any
}.

Definition EventOrderCreated : string := "order.created".
Definition EventOrderConfirmed : string := "order.confirmed".
Definition EventOrderCancelled : string := "order.cancelled".
Definition EventOrderShipped : string := "order.shipped".
Definition EventOrderDelivered : string := "order.delivered".
Definition EventOrderRefunded : string := "order.refunded".

(** [fmt.Sprintf(format, args...)] kept as the term it is applied to: no
    property below depends on the rendered text of a message. *)
Inductive Msg : Type :=
| Sprintf (format : string) (args : list FmtArg)
with FmtArg : Type :=
| FInt (n : Z)
| FFloat (f : float)
| FString (s : string)
| FUUID (u : UUID)
| FMsg (m : Msg).

(** The error values of errors.go, an error of the database driver or of the
    broker client, and [fmt.Errorf] wrapping an error with [%w]. The
    not-found error keeps the id itself where the code keeps its text
    ([id.String()]). *)
Inductive error : Type :=
| ValidationError (Message : Msg)
| InvalidStatusTransitionError (FromStatus ToStatus : OrderStatus)
| OrderNotFoundError (OrderID : UUID)
| DriverError (text : string)
| Errorf (format : string) (err : error).

(** [err.Error()]: a domain error prints its type and its message, a wrapped
    error prints its format with the text of the error it wraps. *)
Fixpoint Error (e : error) : Msg :=
  match e with
  | ValidationError m =>
      Sprintf "%s: %s" [FString "VALIDATION_ERROR"; FMsg m]
  | InvalidStatusTransitionError from to =>
      Sprintf "%s: %s"
        [FString "INVALID_STATUS_TRANSITION";
         FMsg (Sprintf "cannot transition from %s to %s"
                 [FString from; FString to])]
  | OrderNotFoundError id =>
      Sprintf "%s: %s"
        [FString "ORDER_NOT_FOUND";
         FMsg (Sprintf "order with ID %s not found" [FUUID id])]
  | DriverError t => Sprintf t []
  | Errorf f e' => Sprintf f [FMsg (Error e')]
  end.

Definition NewValidationError (format : string) (args : list FmtArg) : error :=
  ValidationError (Sprintf format args).

Definition NewInvalidStatusTransitionError (from to : OrderStatus) : error :=
  InvalidStatusTransitionError from to.

Definition NewOrderNotFoundError (orderID : UUID) : error :=
  OrderNotFoundError orderID.

(* ===================================================================== *)
(** ** package repositories: filters of the repository interface         *)
(* ===================================================================== *)

Record OrderFilters : Type := mkOrderFilters {
  f_CustomerID : option UUID;
  f_Status : option OrderStatus;
  f_Email : option string;
  f_MinAmount : option float;
  f_MaxAmount : option float;
  f_DateFrom : option string;
  f_DateTo : option string;
  f_Currency : option string;
  f_Limit : Z;
  f_Offset : Z;
  f_SortBy : string;
  f_SortOrder : string
}.

(* ===================================================================== *)
(** ** Programs over the outside world                                   *)
(* ===================================================================== *)

Inductive Level : Type := LInfo | LError | LWarn.

(** A computation that may call [time.Now], [uuid.New], the injected
    [OrderRepository], [EventPublisher] and [Logger]. Every node carries the
    arguments of the call and the continuation that receives its result.
    The order is passed by value: the repository is taken not to write
    through the pointer it receives (the PostgreSQL one does not). The
    key/value fields of a log line are left out. *)
Inductive Prog (A : Type) : Type :=
| Ret (a : A)
| TimeNow (k : Time -> Prog A)
| UuidNew (k : UUID -> Prog A)
| RepoCreate (o : Order) (k : option error -> Prog A)
| RepoGetByID (id : UUID) (k : Order + error -> Prog A)
| RepoUpdate (o : Order) (k : option error -> Prog A)
| RepoList (f : OrderFilters) (k : list Order + error -> Prog A)
| RepoCount (f : OrderFilters) (k : Z + error -> Prog A)
| PublishOrderEvent (ev : OrderEvent) (k : option error -> Prog A)
| Log (lvl : Level) (msg : string) (k : Prog A).

Arguments Ret {A} a.
Arguments TimeNow {A} k.
Arguments UuidNew {A} k.
Arguments RepoCreate {A} o k.
Arguments RepoGetByID {A} id k.
Arguments RepoUpdate {A} o k.
Arguments RepoList {A} f k.
Arguments RepoCount {A} f k.
Arguments PublishOrderEvent {A} ev k.
Arguments Log {A} lvl msg k.

Fixpoint bind {A B : Type} (p : Prog A) (f : A -> Prog B) : Prog B :=
  match p with
  | Ret a => f a
  | TimeNow k => TimeNow (fun t => bind (k t) f)
  | UuidNew k => UuidNew (fun u => bind (k u) f)
  | RepoCreate o k => RepoCreate o (fun r => bind (k r) f)
  | RepoGetByID id k => RepoGetByID id (fun r => bind (k r) f)
  | RepoUpdate o k => RepoUpdate o (fun r => bind (k r) f)
  | RepoList fl k => RepoList fl (fun r => bind (k r) f)
  | RepoCount fl k => RepoCount fl (fun r => bind (k r) f)
  | PublishOrderEvent ev k => PublishOrderEvent ev (fun r => bind (k r) f)
  | Log lvl msg k => Log lvl msg (bind k f)
  end.

Declare Scope prog_scope.
Delimit Scope prog_scope with prog.
Notation "x <- p ;; q" := (bind p (fun x => q))
  (at level 100, p at next level, right associativity) : prog_scope.
Notation "p ;;; q" := (bind p (fun _ => q))
  (at level 100, right associativity) : prog_scope.
Local Open Scope prog_scope.

Definition time_Now : Prog Time := TimeNow Ret.
Definition uuid_New : Prog UUID := UuidNew Ret.
Definition log (lvl : Level) (msg : string) : Prog unit := Log lvl msg (Ret tt).

(** One call on the outside world together with the answer it received. *)
Inductive Call : Type :=
| CTimeNow (t : Time)
| CUuidNew (u : UUID)
| CRepoCreate (o : Order) (r : option error)
| CRepoGetByID (id : UUID) (r : Order + error)
| CRepoUpdate (o : Order) (r : option error)
| CRepoList (f : OrderFilters) (r : list Order + error)
| CRepoCount (f : OrderFilters) (r : Z + error)
| CPublish (ev : OrderEvent) (r : option error)
| CLog (lvl : Level) (msg : string).

(** [runs p tr a]: against some environment, p performs exactly the calls of
    tr, in that order, and returns a. The environment is unconstrained: every
    answer of the right type is possible. *)
Inductive runs {A : Type} : Prog A -> list Call -> A -> Prop :=
| runs_Ret a : runs (Ret a) [] a
| runs_TimeNow k t tr a :
    runs (k t) tr a -> runs (TimeNow k) (CTimeNow t :: tr) a
| runs_UuidNew k u tr a :
    runs (k u) tr a -> runs (UuidNew k) (CUuidNew u :: tr) a
| runs_RepoCreate o k r tr a :
    runs (k r) tr a -> runs (RepoCreate o k) (CRepoCreate o r :: tr) a
| runs_RepoGetByID id k r tr a :
    runs (k r) tr a -> runs (RepoGetByID id k) (CRepoGetByID id r :: tr) a
| runs_RepoUpdate o k r tr a :
    runs (k r) tr a -> runs (RepoUpdate o k) (CRepoUpdate o r :: tr) a
| runs_RepoList f k r tr a :
    runs (k r) tr a -> runs (RepoList f k) (CRepoList f r :: tr) a
| runs_RepoCount f k r tr a :
    runs (k r) tr a -> runs (RepoCount f k) (CRepoCount f r :: tr) a
| runs_Publish ev k r tr a :
    runs (k r) tr a -> runs (PublishOrderEvent ev k) (CPublish ev r :: tr) a
| runs_Log lvl msg k tr a :
    runs k tr a -> runs (Log lvl msg k) (CLog lvl msg :: tr) a.

(** A concrete environment over a state S: one handler per call. *)
Record Env (S : Type) : Type := mkEnv {
  on_TimeNow : S -> Time * S;
  on_UuidNew : S -> UUID * S;
  on_RepoCreate : Order -> S -> option error * S;
  on_RepoGetByID : UUID -> S -> (Order + error) * S;
  on_RepoUpdate : Order -> S -> option error * S;
  on_RepoList : OrderFilters -> S -> (list Order + error) * S;
  on_RepoCount : OrderFilters -> S -> (Z + error) * S;
  on_Publish : OrderEvent -> S -> option error * S;
  on_Log : Level -> string -> S -> S
}.

Arguments on_TimeNow {S} e.
Arguments on_UuidNew {S} e.
Arguments on_RepoCreate {S} e.
Arguments on_RepoGetByID {S} e.
Arguments on_RepoUpdate {S} e.
Arguments on_RepoList {S} e.
Arguments on_RepoCount {S} e.
Arguments on_Publish {S} e.
Arguments on_Log {S} e.

(** [exec env p s]: the result of p, the final state of the environment and
    the calls performed. *)
Fixpoint exec {S A : Type} (env : Env S) (p : Prog A) (s : S)
  : A * S * list Call :=
  match p with
  | Ret a => (a, s, [])
  | TimeNow k =>
      let '(t, s1) := on_TimeNow env s in
      let '(a, s2, tr) := exec env (k t) s1 in (a, s2, CTimeNow t :: tr)
  | UuidNew k =>
      let '(u, s1) := on_UuidNew env s in
      let '(a, s2, tr) := exec env (k u) s1 in (a, s2, CUuidNew u :: tr)
  | RepoCreate o k =>
      let '(r, s1) := on_RepoCreate env o s in
      let '(a, s2, tr) := exec env (k r) s1 in (a, s2, CRepoCreate o r :: tr)
  | RepoGetByID id k =>
      let '(r, s1) := on_RepoGetByID env id s in
      let '(a, s2, tr) := exec env (k r) s1 in (a, s2, CRepoGetByID id r :: tr)
  | RepoUpdate o k =>
      let '(r, s1) := on_RepoUpdate env o s in
      let '(a, s2, tr) := exec env (k r) s1 in (a, s2, CRepoUpdate o r :: tr)
  | RepoList f k =>
      let '(r, s1) := on_RepoList env f s in
      let '(a, s2, tr) := exec env (k r) s1 in (a, s2, CRepoList f r :: tr)
  | RepoCount f k =>
      let '(r, s1) := on_RepoCount env f s in
      let '(a, s2, tr) := exec env (k r) s1 in (a, s2, CRepoCount f r :: tr)
  | PublishOrderEvent ev k =>
      let '(r, s1) := on_Publish env ev s in
      let '(a, s2, tr) := exec env (k r) s1 in (a, s2, CPublish ev r :: tr)
  | Log lvl msg k =>
      let s1 := on_Log env lvl msg s in
      let '(a, s2, tr) := exec env k s1 in (a, s2, CLog lvl msg :: tr)
  end.

(* ===================================================================== *)
(** ** package entities: the methods of the aggregate (order-entity.go)  *)
(* ===================================================================== *)

(** Assignments to the fields of an [Order] through its pointer. *)
Definition set_Status (v : OrderStatus) (o : Order) : Order :=
  mkOrder (ID o) (CustomerID o) (Email o) v (TotalAmount o) (Currency o)
    (Items o) (CreatedAt o) (UpdatedAt o) (ShippingAddress o)
    (BillingAddress o) (Metadata o).
Definition set_TotalAmount (v : float) (o : Order) : Order :=
  mkOrder (ID o) (CustomerID o) (Email o) (Status o) v (Currency o)
    (Items o) (CreatedAt o) (UpdatedAt o) (ShippingAddress o)
    (BillingAddress o) (Metadata o).
Definition set_Currency (v : string) (o : Order) : Order :=
  mkOrder (ID o) (CustomerID o) (Email o) (Status o) (TotalAmount o) v
    (Items o) (CreatedAt o) (UpdatedAt o) (ShippingAddress o)
    (BillingAddress o) (Metadata o).
Definition set_Items (v : list OrderItem) (o : Order) : Order :=
  mkOrder (ID o) (CustomerID o) (Email o) (Status o) (TotalAmount o)
    (Currency o) v (CreatedAt o) (UpdatedAt o) (ShippingAddress o)
    (BillingAddress o) (Metadata o).
Definition set_UpdatedAt (v : Time) (o : Order) : Order :=
  mkOrder (ID o) (CustomerID o) (Email o) (Status o) (TotalAmount o)
    (Currency o) (Items o) (CreatedAt o) v (ShippingAddress o)
    (BillingAddress o) (Metadata o).
Definition set_ShippingAddress (v : option Address) (o : Order) : Order :=
  mkOrder (ID o) (CustomerID o) (Email o) (Status o) (TotalAmount o)
    (Currency o) (Items o) (CreatedAt o) (UpdatedAt o) v
    (BillingAddress o) (Metadata o).
Definition set_BillingAddress (v : option Address) (o : Order) : Order :=
  mkOrder (ID o) (CustomerID o) (Email o) (Status o) (TotalAmount o)
    (Currency o) (Items o) (CreatedAt o) (UpdatedAt o) (ShippingAddress o)
    v (Metadata o).
Definition set_Metadata (v : gmap string Any) (o : Order) : Order :=
  mkOrder (ID o) (CustomerID o) (Email o) (Status o) (TotalAmount o)
    (Currency o) (Items o) (CreatedAt o) (UpdatedAt o) (ShippingAddress o)
    (BillingAddress o) v.

(** [NewOrder]: [TotalAmount] and the addresses keep their zero values. *)
Definition NewOrder (customerID : UUID) (email : string) : Prog Order :=
  now <- time_Now;;
  id <- uuid_New;;
  Ret {| ID := id;
         CustomerID := customerID;
         Email := email;
         Status := OrderStatusPending;
         TotalAmount := 0%float;
         Currency := "USD";
         Items := [];
         CreatedAt := now;
         UpdatedAt := now;
         ShippingAddress := None;
         BillingAddress := None;
         Metadata := ∅ |}.

(** [calculateTotal]: the running float sum of the stored line totals, from
    0.0, in the order of the slice. *)
Definition calculateTotal (o : Order) : Order :=
  set_TotalAmount
    (fold_left (fun total item => (total + item_Total item)%float)
       (Items o) 0%float)
    o.

Definition AddItem (o : Order) (productID : UUID) (name : string)
    (price : float) (quantity : Z) : Prog Order :=
  id <- uuid_New;;
  let item := {| item_ID := id;
                 item_OrderID := ID o;
                 item_ProductID := productID;
                 item_Name := name;
                 item_Price := price;
                 item_Quantity := quantity;
                 item_Total := (price * float64_of_int quantity)%float |} in
  let o := set_Items (Items o ++ [item]) o in
  let o := calculateTotal o in
  now <- time_Now;;
  Ret (set_UpdatedAt now o).

(** The index at which the loop of [RemoveItem] finds [itemID]. *)
Fixpoint RemoveItem_index (itemID : UUID) (items : list OrderItem)
  : option nat :=
  match items with
  | [] => None
  | item :: rest =>
      if N.eqb (item_ID item) itemID then Some O
      else option_map S (RemoveItem_index itemID rest)
  end.

Definition RemoveItem (o : Order) (itemID : UUID) : Prog (Order * bool) :=
  match RemoveItem_index itemID (Items o) with
  | Some i =>
      let o := set_Items (firstn i (Items o) ++ skipn (S i) (Items o)) o in
      let o := calculateTotal o in
      now <- time_Now;;
      Ret (set_UpdatedAt now o, true)
  | None => Ret (o, false)
  end.

Definition validTransitions : gmap OrderStatus (list OrderStatus) :=
  list_to_map
    [ (OrderStatusPending, [OrderStatusConfirmed; OrderStatusCancelled]);
      (OrderStatusConfirmed, [OrderStatusProcessing; OrderStatusCancelled]);
      (OrderStatusProcessing, [OrderStatusShipped; OrderStatusCancelled]);
      (OrderStatusShipped, [OrderStatusDelivered]);
      (OrderStatusDelivered, [OrderStatusRefunded]);
      (OrderStatusCancelled, []);
      (OrderStatusRefunded, []) ].

Definition canTransitionTo (o : Order) (newStatus : OrderStatus) : bool :=
  match validTransitions !! Status o with
  | None => false
  | Some allowedStatuses =>
      existsb (fun status => String.eqb status newStatus) allowedStatuses
  end.

(** [UpdateStatus]: the order after the call and the error returned. *)
Definition UpdateStatus (o : Order) (newStatus : OrderStatus)
  : Prog (Order * option error) :=
  if negb (canTransitionTo o newStatus) then
    Ret (o, Some (NewInvalidStatusTransitionError (Status o) newStatus))
  else
    let o := set_Status newStatus o in
    now <- time_Now;;
    Ret (set_UpdatedAt now o, None).

Definition IsActive (o : Order) : bool :=
  negb (String.eqb (Status o) OrderStatusCancelled) &&
  negb (String.eqb (Status o) OrderStatusRefunded) &&
  negb (String.eqb (Status o) OrderStatusDelivered).

Definition IsFinal (o : Order) : bool :=
  String.eqb (Status o) OrderStatusCancelled ||
  String.eqb (Status o) OrderStatusRefunded ||
  String.eqb (Status o) OrderStatusDelivered.

(** The value an [int] takes for the result z of an addition: z modulo
    2^64, between -2^63 and 2^63 - 1. *)
Definition int_wrap (z : Z) : Z := (z + 2 ^ 63) mod 2 ^ 64 - 2 ^ 63.

(** [GetItemCount]: [count += item.Quantity] over the lines, in an [int]. *)
Definition GetItemCount (o : Order) : Z :=
  fold_left (fun count item => int_wrap (count + item_Quantity item))
    (Items o) 0.

Definition SetShippingAddress (o : Order) (address : Address) : Prog Order :=
  id <- uuid_New;;
  let address :=
    mkAddress id (ID o) "shipping" (addr_Street address) (addr_City address)
      (addr_State address) (addr_Country address) (addr_ZipCode address) in
  let o := set_ShippingAddress (Some address) o in
  now <- time_Now;;
  Ret (set_UpdatedAt now o).

Definition SetBillingAddress (o : Order) (address : Address) : Prog Order :=
  id <- uuid_New;;
  let address :=
    mkAddress id (ID o) "billing" (addr_Street address) (addr_City address)
      (addr_State address) (addr_Country address) (addr_ZipCode address) in
  let o := set_BillingAddress (Some address) o in
  now <- time_Now;;
  Ret (set_UpdatedAt now o).

Definition ToEvent (o : Order) (eventType : string) : Prog OrderEvent :=
  id <- uuid_New;;
  now <- time_Now;;
  Ret {| ev_EventType := eventType;
         ev_EventID := id;
         ev_OrderID := ID o;
         ev_CustomerID := CustomerID o;
         ev_Status := Status o;
         ev_TotalAmount := TotalAmount o;
         ev_Currency := Currency o;
         ev_Timestamp := now;
         ev_Data := <["email" := AString (Email o)]>
                      (<["item_count" := AInt (GetItemCount o)]> ∅) |}.

Definition OrderItem_Validate (item : OrderItem) : option error :=
  if N.eqb (item_ID item) uuid_Nil then
    Some (NewValidationError "item ID cannot be empty" [])
  else if N.eqb (item_ProductID item) uuid_Nil then
    Some (NewValidationError "product ID cannot be empty" [])
  else if String.eqb (item_Name item) "" then
    Some (NewValidationError "item name cannot be empty" [])
  else if (item_Price item <=? 0)%float then
    Some (NewValidationError "item price must be greater than zero" [])
  else if (item_Quantity item <=? 0)%Z then
    Some (NewValidationError "item quantity must be greater than zero" [])
  else
    let expectedTotal :=
      (item_Price item * float64_of_int (item_Quantity item))%float in
    if negb (item_Total item =? expectedTotal)%float then
      Some (NewValidationError
              "item total (%f) doesn't match price * quantity (%f)"
              [FFloat (item_Total item); FFloat expectedTotal])
    else None.

(** The loop of [Order.Validate] over the items, from index i. *)
Fixpoint Validate_items (i : Z) (items : list OrderItem) : option error :=
  match items with
  | [] => None
  | item :: rest =>
      match OrderItem_Validate item with
      | Some err =>
          Some (NewValidationError "item %d: %s" [FInt i; FMsg (Error err)])
      | None => Validate_items (i + 1) rest
      end
  end.

Definition Validate (o : Order) : option error :=
  if N.eqb (ID o) uuid_Nil then
    Some (NewValidationError "order ID cannot be empty" [])
  else if N.eqb (CustomerID o) uuid_Nil then
    Some (NewValidationError "customer ID cannot be empty" [])
  else if String.eqb (Email o) "" then
    Some (NewValidationError "email cannot be empty" [])
  else if (length (Items o) =? 0)%nat then
    Some (NewValidationError "order must have at least one item" [])
  else if (TotalAmount o <=? 0)%float then
    Some (NewValidationError "total amount must be greater than zero" [])
  else Validate_items 0 (Items o).

(* ===================================================================== *)
(** ** package usecase                                                   *)
(* ===================================================================== *)

(** The methods of the injected interfaces, as programs. *)
Definition orderRepo_Create (o : Order) : Prog (option error) :=
  RepoCreate o Ret.
Definition orderRepo_GetByID (id : UUID) : Prog (Order + error) :=
  RepoGetByID id Ret.
Definition orderRepo_Update (o : Order) : Prog (option error) :=
  RepoUpdate o Ret.
Definition orderRepo_List (f : OrderFilters) : Prog (list Order + error) :=
  RepoList f Ret.
Definition orderRepo_Count (f : OrderFilters) : Prog (Z + error) :=
  RepoCount f Ret.
Definition publisher_PublishOrderEvent (ev : OrderEvent)
  : Prog (option error) :=
  PublishOrderEvent ev Ret.

(** Requests and responses. A request is the struct behind the pointer the
    HTTP handlers pass, which is never nil. *)
Record CreateOrderItemRequest : Type := mkCreateOrderItemRequest {
  ci_ProductID : UUID;
  ci_Name : string;
  ci_Price : float;
  ci_Quantity : Z
}.

Record CreateAddressRequest : Type := mkCreateAddressRequest {
  ca_Street : string;
  ca_City : string;
  ca_State : string;
  ca_Country : string;
  ca_ZipCode : string
}.

Record CreateOrderRequest : Type := mkCreateOrderRequest {
  cr_CustomerID : UUID;
  cr_Email : string;
  cr_Items : list CreateOrderItemRequest;
  cr_Currency : string;
  cr_Metadata : option (gmap string Any);
  cr_ShippingAddress : option CreateAddressRequest;
  cr_BillingAddress : option CreateAddressRequest
}.

Record CreateOrderResponse : Type := mkCreateOrderResponse {
  cresp_Order : Order;
  cresp_Message : string
}.

Record UpdateOrderStatusRequest : Type := mkUpdateOrderStatusRequest {
  us_OrderID : UUID;
  us_NewStatus : OrderStatus;
  us_Reason : string
}.

Record UpdateOrderStatusResponse : Type := mkUpdateOrderStatusResponse {
  usresp_Order : Order;
  usresp_Message : Msg;
  usresp_OldStatus : OrderStatus;
  usresp_NewStatus : OrderStatus
}.

Record GetOrderRequest : Type := mkGetOrderRequest {
  gr_OrderID : UUID
}.

Record GetOrderResponse : Type := mkGetOrderResponse {
  gresp_Order : Order
}.

Record ListOrdersRequest : Type := mkListOrdersRequest {
  lr_CustomerID : option UUID;
  lr_Status : option OrderStatus;
  lr_Email : option string;
  lr_MinAmount : option float;
  lr_MaxAmount : option float;
  lr_DateFrom : option string;
  lr_DateTo : option string;
  lr_Currency : option string;
  lr_Limit : Z;
  lr_Offset : Z;
  lr_SortBy : string;
  lr_SortOrder : string
}.

Record ListOrdersResponse : Type := mkListOrdersResponse {
  lresp_Orders : list Order;
  lresp_TotalCount : Z;
  lresp_Limit : Z;
  lresp_Offset : Z
}.

(** [validateEmail] (create-order use case). *)
Definition validateEmail (email : string) : bool :=
  if (String.length email <? 5)%nat then false
  else if negb (Contains email "@") then false
  else
    let parts := Split email "@"%char in
    (length parts =? 2)%nat &&
    (3 <=? String.length (nth 1 parts ""))%nat &&
    Contains (nth 1 parts "") ".".

Module CreateOrderUseCase.

(** The loop of [validateRequest] over the items, from index i. *)
Fixpoint validateRequest_items (i : Z) (items : list CreateOrderItemRequest)
  : option error :=
  match items with
  | [] => None
  | item :: rest =>
      if N.eqb (ci_ProductID item) uuid_Nil then
        Some (NewValidationError "item %d: product_id is required" [FInt i])
      else if String.eqb (ci_Name item) "" then
        Some (NewValidationError "item %d: name is required" [FInt i])
      else if (ci_Price item <=? 0)%float then
        Some (NewValidationError "item %d: price must be greater than 0"
                [FInt i])
      else if (ci_Quantity item <=? 0)%Z then
        Some (NewValidationError "item %d: quantity must be greater than 0"
                [FInt i])
      else validateRequest_items (i + 1) rest
  end.

Definition validateRequest (req : CreateOrderRequest) : option error :=
  if N.eqb (cr_CustomerID req) uuid_Nil then
    Some (NewValidationError "customer_id is required" [])
  else if String.eqb (cr_Email req) "" then
    Some (NewValidationError "email is required" [])
  else if negb (validateEmail (cr_Email req)) then
    Some (NewValidationError "invalid email format" [])
  else if (length (cr_Items req) =? 0)%nat then
    Some (NewValidationError "at least one item is required" [])
  else validateRequest_items 0 (cr_Items req).

(** The loop of [Execute] that adds the requested items one by one. *)
Fixpoint addItems (order : Order) (items : list CreateOrderItemRequest)
  : Prog Order :=
  match items with
  | [] => Ret order
  | item :: rest =>
      order <- AddItem order (ci_ProductID item) (ci_Name item)
                 (ci_Price item) (ci_Quantity item);;
      addItems order rest
  end.

(** The [entities.Address] literal built from an address request. *)
Definition newAddress (a : CreateAddressRequest) : Address :=
  mkAddress uuid_Nil uuid_Nil "" (ca_Street a) (ca_City a) (ca_State a)
    (ca_Country a) (ca_ZipCode a).

(** The construction of the aggregate: lines 92 to 132 of [Execute]. The
    loop over the request metadata stores each of its keys in the (empty)
    metadata of the new order. *)
Definition buildOrder (req : CreateOrderRequest) : Prog Order :=
  order <- NewOrder (cr_CustomerID req) (cr_Email req);;
  let order :=
    if negb (String.eqb (cr_Currency req) "")
    then set_Currency (cr_Currency req) order else order in
  let order :=
    match cr_Metadata req with
    | Some m => set_Metadata (m ∪ Metadata order) order
    | None => order
    end in
  order <- addItems order (cr_Items req);;
  order <- match cr_ShippingAddress req with
           | Some a => SetShippingAddress order (newAddress a)
           | None => Ret order
           end;;
  match cr_BillingAddress req with
  | Some a => SetBillingAddress order (newAddress a)
  | None => Ret order
  end.

(** Persistence and publication: lines 140 to 169 of [Execute]. *)
Definition saveAndPublish (order : Order)
  : Prog (CreateOrderResponse + error) :=
  r <- orderRepo_Create order;;
  match r with
  | Some err =>
      log LError "Failed to create order in database";;;
      Ret (inr (Errorf "failed to save order: %w" err))
  | None =>
      log LInfo "Order created successfully";;;
      event <- ToEvent order EventOrderCreated;;
      r <- publisher_PublishOrderEvent event;;
      match r with
      | Some _ => log LError "Failed to publish order created event"
      | None => log LInfo "Order created event published"
      end;;;
      Ret (inl {| cresp_Order := order;
                  cresp_Message := "Order created successfully" |})
  end.

Definition Execute (req : CreateOrderRequest)
  : Prog (CreateOrderResponse + error) :=
  match validateRequest req with
  | Some err =>
      log LError "Invalid create order request";;;
      Ret (inr (Errorf "validation failed: %w" err))
  | None =>
      order <- buildOrder req;;
      match Validate order with
      | Some err =>
          log LError "Order validation failed";;;
          Ret (inr (Errorf "order validation failed: %w" err))
      | None => saveAndPublish order
      end
  end.

End CreateOrderUseCase.

Module UpdateOrderStatusUseCase.

Definition validStatuses : list OrderStatus :=
  [OrderStatusPending; OrderStatusConfirmed; OrderStatusProcessing;
   OrderStatusShipped; OrderStatusDelivered; OrderStatusCancelled;
   OrderStatusRefunded].

Definition validateRequest (req : UpdateOrderStatusRequest) : option error :=
  if N.eqb (us_OrderID req) uuid_Nil then
    Some (NewValidationError "order_id is required" [])
  else if String.eqb (us_NewStatus req) "" then
    Some (NewValidationError "new_status is required" [])
  else
    let isValid :=
      existsb (fun validStatus => String.eqb (us_NewStatus req) validStatus)
        validStatuses in
    if negb isValid then
      Some (NewValidationError "invalid status: %s"
              [FString (us_NewStatus req)])
    else None.

(** The switch of [Execute] on the new status. *)
Definition eventType (newStatus : OrderStatus) : string :=
  if String.eqb newStatus OrderStatusConfirmed then EventOrderConfirmed
  else if String.eqb newStatus OrderStatusCancelled then EventOrderCancelled
  else if String.eqb newStatus OrderStatusShipped then EventOrderShipped
  else if String.eqb newStatus OrderStatusDelivered then EventOrderDelivered
  else if String.eqb newStatus OrderStatusRefunded then EventOrderRefunded
  else "order.status_changed".

(** [event.Data[key] = value]. *)
Definition set_Data (key : string) (value : Any) (ev : OrderEvent)
  : OrderEvent :=
  mkOrderEvent (ev_EventType ev) (ev_EventID ev) (ev_OrderID ev)
    (ev_CustomerID ev) (ev_Status ev) (ev_TotalAmount ev) (ev_Currency ev)
    (ev_Timestamp ev) (<[key := value]> (ev_Data ev)).

(** Publication: lines 95 to 135 of [Execute], after the update is saved. *)
Definition publishAndRespond (req : UpdateOrderStatusRequest)
    (oldStatus : OrderStatus) (order : Order)
  : Prog (UpdateOrderStatusResponse + error) :=
  event <- ToEvent order (eventType (us_NewStatus req));;
  let event := set_Data "old_status" (AString oldStatus) event in
  let event := set_Data "change_reason" (AString (us_Reason req)) event in
  r <- publisher_PublishOrderEvent event;;
  match r with
  | Some _ => log LError "Failed to publish order status event"
  | None => log LInfo "Order status event published"
  end;;;
  Ret (inl {| usresp_Order := order;
              usresp_Message :=
                Sprintf "Order status updated from %s to %s"
                  [FString oldStatus; FString (us_NewStatus req)];
              usresp_OldStatus := oldStatus;
              usresp_NewStatus := us_NewStatus req |}).

Definition Execute (req : UpdateOrderStatusRequest)
  : Prog (UpdateOrderStatusResponse + error) :=
  match validateRequest req with
  | Some err =>
      log LError "Invalid update status request";;;
      Ret (inr (Errorf "validation failed: %w" err))
  | None =>
      r <- orderRepo_GetByID (us_OrderID req);;
      match r with
      | inr err =>
          log LError "Failed to get order";;;
          Ret (inr (Errorf "failed to get order: %w" err))
      | inl order =>
          let oldStatus := Status order in
          r <- UpdateStatus order (us_NewStatus req);;
          let order := fst r in
          match snd r with
          | Some err =>
              log LError "Failed to update order status";;;
              Ret (inr (Errorf "status update failed: %w" err))
          | None =>
              let order :=
                if negb (String.eqb (us_Reason req) "")
                then set_Metadata
                       (<["status_change_reason" := AString (us_Reason req)]>
                          (Metadata order)) order
                else order in
              r <- orderRepo_Update order;;
              match r with
              | Some err =>
                  log LError "Failed to update order in database";;;
                  Ret (inr (Errorf "failed to save order: %w" err))
              | None =>
                  log LInfo "Order status updated successfully";;;
                  publishAndRespond req oldStatus order
              end
          end
      end
  end.

End UpdateOrderStatusUseCase.

Module GetOrderUseCase.

Definition validateRequest (req : GetOrderRequest) : option error :=
  if N.eqb (gr_OrderID req) uuid_Nil then
    Some (NewValidationError "order_id is required" [])
  else None.

Definition Execute (req : GetOrderRequest) : Prog (GetOrderResponse + error) :=
  match validateRequest req with
  | Some err =>
      log LError "Invalid get order request";;;
      Ret (inr (Errorf "validation failed: %w" err))
  | None =>
      r <- orderRepo_GetByID (gr_OrderID req);;
      match r with
      | inr err =>
          log LError "Failed to get order";;;
          Ret (inr (Errorf "failed to get order: %w" err))
      | inl order =>
          log LInfo "Order retrieved successfully";;;
          Ret (inl {| gresp_Order := order |})
      end
  end.

End GetOrderUseCase.

Module ListOrdersUseCase.

Definition set_Limit (v : Z) (r : ListOrdersRequest) : ListOrdersRequest :=
  mkListOrdersRequest (lr_CustomerID r) (lr_Status r) (lr_Email r)
    (lr_MinAmount r) (lr_MaxAmount r) (lr_DateFrom r) (lr_DateTo r)
    (lr_Currency r) v (lr_Offset r) (lr_SortBy r) (lr_SortOrder r).
Definition set_Offset (v : Z) (r : ListOrdersRequest) : ListOrdersRequest :=
  mkListOrdersRequest (lr_CustomerID r) (lr_Status r) (lr_Email r)
    (lr_MinAmount r) (lr_MaxAmount r) (lr_DateFrom r) (lr_DateTo r)
    (lr_Currency r) (lr_Limit r) v (lr_SortBy r) (lr_SortOrder r).
Definition set_SortBy (v : string) (r : ListOrdersRequest)
  : ListOrdersRequest :=
  mkListOrdersRequest (lr_CustomerID r) (lr_Status r) (lr_Email r)
    (lr_MinAmount r) (lr_MaxAmount r) (lr_DateFrom r) (lr_DateTo r)
    (lr_Currency r) (lr_Limit r) (lr_Offset r) v (lr_SortOrder r).
Definition set_SortOrder (v : string) (r : ListOrdersRequest)
  : ListOrdersRequest :=
  mkListOrdersRequest (lr_CustomerID r) (lr_Status r) (lr_Email r)
    (lr_MinAmount r) (lr_MaxAmount r) (lr_DateFrom r) (lr_DateTo r)
    (lr_Currency r) (lr_Limit r) (lr_Offset r) (lr_SortBy r) v.

Definition validSortFields : list string :=
  ["created_at"; "updated_at"; "total_amount"; "status"].

(** The first half of [validateAndSetDefaults]: the defaults and bounds it
    writes into the request. *)
Definition setDefaults (req : ListOrdersRequest) : ListOrdersRequest :=
  let req := if (lr_Limit req <=? 0)%Z then set_Limit 20 req else req in
  let req := if (100 <? lr_Limit req)%Z then set_Limit 100 req else req in
  let req := if (lr_Offset req <? 0)%Z then set_Offset 0 req else req in
  let req := if String.eqb (lr_SortBy req) ""
             then set_SortBy "created_at" req else req in
  let req := if String.eqb (lr_SortOrder req) ""
             then set_SortOrder "desc" req else req in
  req.

(** The second half: the checks, on the request with its defaults set. *)
Definition validate (req : ListOrdersRequest) : option error :=
  let isValidSortBy :=
    existsb (fun field => String.eqb (lr_SortBy req) field) validSortFields in
  if negb isValidSortBy then
    Some (NewValidationError "invalid sort_by field: %s"
            [FString (lr_SortBy req)])
  else if negb (String.eqb (lr_SortOrder req) "asc") &&
          negb (String.eqb (lr_SortOrder req) "desc") then
    Some (NewValidationError "sort_order must be 'asc' or 'desc'" [])
  else if match lr_MinAmount req with
          | Some m => (m <? 0)%float
          | None => false
          end then
    Some (NewValidationError "min_amount cannot be negative" [])
  else if match lr_MaxAmount req with
          | Some m => (m <? 0)%float
          | None => false
          end then
    Some (NewValidationError "max_amount cannot be negative" [])
  else if match lr_MinAmount req, lr_MaxAmount req with
          | Some mn, Some mx => (mx <? mn)%float
          | _, _ => false
          end then
    Some (NewValidationError
            "min_amount cannot be greater than max_amount" [])
  else None.

(** [validateAndSetDefaults]: the request as the call leaves it behind the
    pointer, and the error it returns. *)
Definition validateAndSetDefaults (req : ListOrdersRequest)
  : ListOrdersRequest * option error :=
  let req := setDefaults req in
  (req, validate req).

Definition Execute (req : ListOrdersRequest)
  : Prog (ListOrdersResponse + error) :=
  let '(req, err) := validateAndSetDefaults req in
  match err with
  | Some err =>
      log LError "Invalid list orders request";;;
      Ret (inr (Errorf "validation failed: %w" err))
  | None =>
      let filters :=
        {| f_CustomerID := lr_CustomerID req;
           f_Status := lr_Status req;
           f_Email := lr_Email req;
           f_MinAmount := lr_MinAmount req;
           f_MaxAmount := lr_MaxAmount req;
           f_DateFrom := lr_DateFrom req;
           f_DateTo := lr_DateTo req;
           f_Currency := lr_Currency req;
           f_Limit := lr_Limit req;
           f_Offset := lr_Offset req;
           f_SortBy := lr_SortBy req;
           f_SortOrder := lr_SortOrder req |} in
      r <- orderRepo_List filters;;
      match r with
      | inr err =>
          log LError "Failed to list orders";;;
          Ret (inr (Errorf "failed to list orders: %w" err))
      | inl orders =>
          r <- orderRepo_Count filters;;
          match r with
          | inr err =>
              log LError "Failed to count orders";;;
              Ret (inr (Errorf "failed to count orders: %w" err))
          | inl totalCount =>
              log LInfo "Orders listed successfully";;;
              Ret (inl {| lresp_Orders := orders;
                          lresp_TotalCount := totalCount;
                          lresp_Limit := lr_Limit req;
                          lresp_Offset := lr_Offset req |})
          end
      end
  end.

End ListOrdersUseCase.

(* ===================================================================== *)
(** ** package postgres: the repository over the schema of the migration *)
(* ===================================================================== *)

Module postgres.

(** A row of table [orders]. *)
Record OrderRow : Type := mkOrderRow {
row_id : UUID;
row_customer_id : UUID;
row_email : string;
row_status : OrderStatus;
row_total_amount : float;
row_currency : string;
row_created_at : Time;
row_updated_at : Time
}.

(** The three tables. A row of [order_items] or of [order_addresses] holds
    the values of the struct it is scanned into. *)
Record Database : Type := mkDatabase {
orders : list OrderRow;
order_items : list OrderItem;
order_addresses : list Address
}.

(** A text of k spaces. *)
Fixpoint spaces (k : nat) : string :=
  match k with
  | O => ""
  | S k' => String " "%char (spaces k')
  end.

(** What the SQL engine and the driver do to the values, which the code
    leaves to them: the float64 read back from a DECIMAL(10,2) column that
    was given a float64, the instant read back from a TIMESTAMPTZ column,
    SUM over DECIMAL(10,2) values, the row order of ORDER BY name and of a
    query without ORDER BY (both return every selected row once), the
    rows the list and count queries select for given filters, and what a
    VARCHAR(n) column does with a text: whether it takes it ([varchar_ok];
    it refuses a text with more than n characters unless the excess is
    spaces, and a text that is not valid in the encoding of the database)
    and the text it then holds ([varchar]), which is the text given when
    that has at most n bytes, and the text given without some trailing
    spaces otherwise; and the message of the error it raises for a text it
    refuses ([varchar_error]). *)
Record Engine : Type := mkEngine {
numeric_10_2 : float -> float;
timestamptz : Time -> Time;
sum_numeric : list float -> float;
order_by_name : list OrderItem -> list OrderItem;
order_by_name_perm : forall l, Permutation (order_by_name l) l;
unordered : list Address -> list Address;
unordered_perm : forall l, Permutation (unordered l) l;
select_orders : OrderFilters -> list OrderRow -> list OrderRow;
count_orders : OrderFilters -> list OrderRow -> Z;
varchar_ok : nat -> string -> bool;
varchar : nat -> string -> string;
varchar_short :
  forall n s, (String.length s <= n)%nat -> varchar n s = s;
varchar_cut :
  forall n s, varchar_ok n s = true ->
              exists k, s = String.append (varchar n s) (spaces k);
varchar_error : nat -> string -> string
}.

(** The world the service runs in: the readings of [time.Now] and the ids
    of [uuid.New] still to come; the outcome of each call on the database or
    on the broker still to come ([Some] text when the call fails: lost
    connection, violated CHECK constraint, exception raised by a trigger)
    and the reading of the database clock (NOW()) during it; the database,
    the events published and the lines logged; and, for each call that is
    a query over several rows, whether the iteration over its rows breaks
    off ([w_cuts]: [Some] k when [rows.Next] reports the end after k rows
    because of an error, which the code never asks for). *)
Record World : Type := mkWorld {
w_clock : nat -> Time;
w_ticks : nat;
w_ids : nat -> UUID;
w_draws : nat;
w_faults : nat -> option string;
w_calls : nat;
w_db_clock : nat -> Time;
w_db : Database;
w_published : list OrderEvent;
w_log : list (Level * string);
w_cuts : nat -> option nat
}.

Definition set_ticks (v : nat) (w : World) : World :=
  mkWorld (w_clock w) v (w_ids w) (w_draws w) (w_faults w) (w_calls w)
    (w_db_clock w) (w_db w) (w_published w) (w_log w) (w_cuts w).
Definition set_draws (v : nat) (w : World) : World :=
  mkWorld (w_clock w) (w_ticks w) (w_ids w) v (w_faults w) (w_calls w)
    (w_db_clock w) (w_db w) (w_published w) (w_log w) (w_cuts w).
Definition set_calls (v : nat) (w : World) : World :=
  mkWorld (w_clock w) (w_ticks w) (w_ids w) (w_draws w) (w_faults w) v
    (w_db_clock w) (w_db w) (w_published w) (w_log w) (w_cuts w).
Definition set_db (v : Database) (w : World) : World :=
  mkWorld (w_clock w) (w_ticks w) (w_ids w) (w_draws w) (w_faults w)
    (w_calls w) (w_db_clock w) v (w_published w)
    (w_log w) (w_cuts w).
Definition set_published (v : list OrderEvent) (w : World) : World :=
  mkWorld (w_clock w) (w_ticks w) (w_ids w) (w_draws w) (w_faults w)
    (w_calls w) (w_db_clock w) (w_db w) v (w_log w) (w_cuts w).
Definition set_log (v : list (Level * string)) (w : World) : World :=
  mkWorld (w_clock w) (w_ticks w) (w_ids w) (w_draws w) (w_faults w)
    (w_calls w) (w_db_clock w) (w_db w) (w_published w)
    v (w_cuts w).

(** [time.Now()] and [uuid.New()] in this world. *)
Definition now (w : World) : Time * World :=
  (w_clock w (w_ticks w), set_ticks (S (w_ticks w)) w).
Definition new_uuid (w : World) : UUID * World :=
  (w_ids w (w_draws w), set_draws (S (w_draws w)) w).

(** One call on the database or on the broker: whether it fails, NOW()
    during it, and the world after it. *)
Definition remote_call (w : World) : option string * Time * World :=
  (w_faults w (w_calls w), w_db_clock w (w_calls w),
   set_calls (S (w_calls w)) w).

(** [db.QueryContext] of a query over several rows: whether it fails,
    where the iteration over its rows breaks off, and the world after it. *)
Definition query_call (w : World) : option string * option nat * World :=
  (w_faults w (w_calls w), w_cuts w (w_calls w),
   set_calls (S (w_calls w)) w).

(** The rows a loop [for rows.Next()] sees of the rows a query selects:
    all of them, or the first k when the iteration breaks off there. The
    loops of the repository end without calling [rows.Err], so a broken
    iteration is not told from the end of the rows. *)
Definition rows_read {A : Type} (cut : option nat) (rows : list A) : list A :=
  match cut with
  | Some k => firstn k rows
  | None => rows
  end.

(** The statements of the repository on a database. Each returns the error
    the engine raises for a violated key, or the database after it. *)

(** Trigger [update_orders_updated_at] (BEFORE UPDATE ON orders). *)
Definition update_updated_at_column (db_now : Time) (r : OrderRow) : OrderRow :=
  mkOrderRow (row_id r) (row_customer_id r) (row_email r) (row_status r)
    (row_total_amount r) (row_currency r) (row_created_at r) db_now.

(** Function [calculate_order_total]. *)
Definition calculate_order_total (eng : Engine) (d : Database)
    (order_id : UUID) : float :=
  sum_numeric eng
    (map item_Total
       (filter (fun it => N.eqb (item_OrderID it) order_id) (order_items d))).

(** Trigger [update_order_total_on_item_change] (AFTER INSERT ON
    order_items): the UPDATE of the order's row, through the BEFORE UPDATE
    trigger. *)
Definition update_order_total_on_item_change (eng : Engine) (db_now : Time)
    (order_id : UUID) (d : Database) : Database :=
  let new_total := calculate_order_total eng d order_id in
  mkDatabase
    (map (fun r =>
            if N.eqb (row_id r) order_id then
              update_updated_at_column db_now
                (mkOrderRow (row_id r) (row_customer_id r) (row_email r)
                   (row_status r) new_total (row_currency r)
                   (row_created_at r) db_now)
            else r)
       (orders d))
    (order_items d) (order_addresses d).

Definition duplicate_key : error :=
  DriverError "pq: duplicate key value violates unique constraint".
Definition foreign_key : error :=
  DriverError "pq: insert violates foreign key constraint".

Definition has_order (d : Database) (id : UUID) : bool :=
  existsb (fun r => N.eqb (row_id r) id) (orders d).

(** The error of a statement that gives texts to VARCHAR columns of which
    one is refused: the error the engine raises for the first text, in the
    order of the statement, that its column refuses. *)
Fixpoint refused (eng : Engine) (n : nat) (s : string)
    (rest : list (nat * string)) : error :=
  match rest with
  | [] => DriverError (varchar_error eng n s)
  | (n', s') :: rest' =>
      if varchar_ok eng n s then refused eng n' s' rest'
      else DriverError (varchar_error eng n s)
  end.

(** The rows the INSERT statements store: the texts are those the
    VARCHAR(n) columns hold for the texts given (email VARCHAR(255),
    currency VARCHAR(3), name VARCHAR(255), street VARCHAR(255), city,
    state and country VARCHAR(100), zip_code VARCHAR(20)). The status and
    the type of an address are checked against the values of their CHECK
    constraint, which a text altered by its column never passes: a stored
    status or type is the one given. *)
Definition stored_row (eng : Engine) (o : Order) : OrderRow :=
  mkOrderRow (ID o) (CustomerID o) (varchar eng 255 (Email o)) (Status o)
    (numeric_10_2 eng (TotalAmount o)) (varchar eng 3 (Currency o))
    (timestamptz eng (CreatedAt o)) (timestamptz eng (UpdatedAt o)).

Definition stored_item (eng : Engine) (item : OrderItem) : OrderItem :=
  mkOrderItem (item_ID item) (item_OrderID item) (item_ProductID item)
    (varchar eng 255 (item_Name item)) (numeric_10_2 eng (item_Price item))
    (item_Quantity item) (numeric_10_2 eng (item_Total item)).

Definition stored_address (eng : Engine) (a : Address) : Address :=
  mkAddress (addr_ID a) (addr_OrderID a) (addr_Type a)
    (varchar eng 255 (addr_Street a)) (varchar eng 100 (addr_City a))
    (varchar eng 100 (addr_State a)) (varchar eng 100 (addr_Country a))
    (varchar eng 20 (addr_ZipCode a)).

(** Whether the columns take the texts of an order, of an item, of an
    address. *)
Definition row_ok (eng : Engine) (o : Order) : bool :=
  varchar_ok eng 255 (Email o) && varchar_ok eng 3 (Currency o).

Definition item_ok (eng : Engine) (item : OrderItem) : bool :=
  varchar_ok eng 255 (item_Name item).

Definition address_ok (eng : Engine) (a : Address) : bool :=
  varchar_ok eng 255 (addr_Street a) && varchar_ok eng 100 (addr_City a) &&
  varchar_ok eng 100 (addr_State a) && varchar_ok eng 100 (addr_Country a) &&
  varchar_ok eng 20 (addr_ZipCode a).

(** INSERT INTO orders. *)
Definition insert_order (eng : Engine) (o : Order) (d : Database)
  : Database + error :=
  if negb (row_ok eng o)
  then inr (refused eng 255 (Email o) [(3%nat, Currency o)])
  else if has_order d (ID o) then inr duplicate_key
  else
    inl (mkDatabase (orders d ++ [stored_row eng o]) (order_items d)
           (order_addresses d)).

(** INSERT INTO order_items, and the trigger it fires. *)
Definition insert_item (eng : Engine) (db_now : Time) (item : OrderItem)
    (d : Database) : Database + error :=
  if negb (item_ok eng item) then inr (refused eng 255 (item_Name item) [])
  else if existsb (fun it => N.eqb (item_ID it) (item_ID item)) (order_items d)
  then inr duplicate_key
  else if negb (has_order d (item_OrderID item)) then inr foreign_key
  else
    inl (update_order_total_on_item_change eng db_now (item_OrderID item)
           (mkDatabase (orders d) (order_items d ++ [stored_item eng item])
              (order_addresses d))).

(** INSERT INTO order_addresses. *)
Definition insert_address (eng : Engine) (address : Address) (d : Database)
  : Database + error :=
  if negb (address_ok eng address)
  then inr (refused eng 255 (addr_Street address)
              [(100%nat, addr_City address); (100%nat, addr_State address);
               (100%nat, addr_Country address);
               (20%nat, addr_ZipCode address)])
  else if existsb (fun a => N.eqb (addr_ID a) (addr_ID address))
            (order_addresses d)
  then inr duplicate_key
  else if negb (has_order d (addr_OrderID address)) then inr foreign_key
  else
    inl (mkDatabase (orders d) (order_items d)
           (order_addresses d ++ [stored_address eng address])).

(** [tx.ExecContext] or [db.ExecContext] of one statement: the call may fail
    as the world decides, or for the statement's own reason. *)
Definition exec_statement (stmt : Time -> Database -> Database + error)
    (w : World) (d : Database) : (Database + error) * World :=
  let '(fault, db_now, w) := remote_call w in
  match fault with
  | Some text => (inr (DriverError text), w)
  | None => (stmt db_now d, w)
  end.

(** [insertOrderItems]: the transaction's database after the loop, or the
    first error. *)
Fixpoint insertOrderItems (eng : Engine) (items : list OrderItem) (w : World)
    (tx : Database) : (Database + error) * World :=
  match items with
  | [] => (inl tx, w)
  | item :: rest =>
      let '(r, w) :=
        exec_statement (fun db_now => insert_item eng db_now item) w tx in
      match r with
      | inr err => (inr err, w)
      | inl tx => insertOrderItems eng rest w tx
      end
  end.

Definition insertAddress (eng : Engine) (address : Address) (w : World)
    (tx : Database) : (Database + error) * World :=
  exec_statement (fun _ => insert_address eng address) w tx.

(** The calls of [Create] between BeginTx and Commit. *)
Definition Create_statements (eng : Engine) (order : Order) (w : World)
    (tx : Database) : (Database + error) * World :=
  let '(r, w) := exec_statement (fun _ => insert_order eng order) w tx in
  match r with
  | inr err => (inr (Errorf "failed to insert order: %w" err), w)
  | inl tx =>
      let '(r, w) :=
        if (0 <? length (Items order))%nat
        then insertOrderItems eng (Items order) w tx
        else (inl tx, w) in
      match r with
      | inr err => (inr (Errorf "failed to insert order items: %w" err), w)
      | inl tx =>
          let '(r, w) :=
            match ShippingAddress order with
            | Some a => insertAddress eng a w tx
            | None => (inl tx, w)
            end in
          match r with
          | inr err =>
              (inr (Errorf "failed to insert shipping address: %w" err), w)
          | inl tx =>
              let '(r, w) :=
                match BillingAddress order with
                | Some a => insertAddress eng a w tx
                | None => (inl tx, w)
                end in
              match r with
              | inr err =>
                  (inr (Errorf "failed to insert billing address: %w" err),
                   w)
              | inl tx => (inl tx, w)
              end
          end
      end
  end.

(** [Create]: one transaction; the database changes only when Commit
    succeeds ([defer tx.Rollback()]). *)
Definition Create (eng : Engine) (order : Order) (w : World)
  : option error * World :=
  let '(fault, _, w) := remote_call w in
  match fault with
  | Some text =>
      (Some (Errorf "failed to begin transaction: %w" (DriverError text)), w)
  | None =>
      let '(r, w) := Create_statements eng order w (w_db w) in
      match r with
      | inr err => (Some err, w)
      | inl tx =>
          let '(fault, _, w) := remote_call w in
          match fault with
          | Some text =>
              (Some (Errorf "failed to commit transaction: %w"
                       (DriverError text)), w)
          | None => (None, set_db tx w)
          end
      end
  end.

(** The loop of [GetByID] over the address rows. *)
Fixpoint attach_addresses (addresses : list Address) (order : Order) : Order :=
  match addresses with
  | [] => order
  | addr :: rest =>
      let order :=
        if String.eqb (addr_Type addr) "shipping"
        then set_ShippingAddress (Some addr) order
        else if String.eqb (addr_Type addr) "billing"
        then set_BillingAddress (Some addr) order
        else order in
      attach_addresses rest order
  end.

(** The rows the queries of [getOrderItems] and [getOrderAddresses]
    select, in the order the engine returns them. *)
Definition order_items_of (eng : Engine) (orderID : UUID) (d : Database)
  : list OrderItem :=
  order_by_name eng
    (filter (fun it => N.eqb (item_OrderID it) orderID) (order_items d)).

Definition order_addresses_of (eng : Engine) (orderID : UUID) (d : Database)
  : list Address :=
  unordered eng
    (filter (fun a => N.eqb (addr_OrderID a) orderID) (order_addresses d)).

(** [getOrderItems] and [getOrderAddresses]: the query, then the loop over
    its rows, which returns the rows it has seen. *)
Definition getOrderItems (eng : Engine) (orderID : UUID) (w : World)
  : (list OrderItem + error) * World :=
  let '(fault, cut, w) := query_call w in
  match fault with
  | Some text => (inr (DriverError text), w)
  | None => (inl (rows_read cut (order_items_of eng orderID (w_db w))), w)
  end.

Definition getOrderAddresses (eng : Engine) (orderID : UUID) (w : World)
  : (list Address + error) * World :=
  let '(fault, cut, w) := query_call w in
  match fault with
  | Some text => (inr (DriverError text), w)
  | None => (inl (rows_read cut (order_addresses_of eng orderID (w_db w))), w)
  end.

Definition GetByID (eng : Engine) (id : UUID) (w : World)
  : (Order + error) * World :=
  let '(fault, _, w) := remote_call w in
  match fault with
  | Some text =>
      (inr (Errorf "failed to get order: %w" (DriverError text)), w)
  | None =>
      match find (fun r => N.eqb (row_id r) id) (orders (w_db w)) with
      | None => (inr (NewOrderNotFoundError id), w)
      | Some r =>
          let '(items, w) := getOrderItems eng id w in
          match items with
          | inr err => (inr (Errorf "failed to get order items: %w" err), w)
          | inl items =>
              let '(addresses, w) := getOrderAddresses eng id w in
              match addresses with
              | inr err =>
                  (inr (Errorf "failed to get order addresses: %w" err), w)
              | inl addresses =>
                  let order :=
                    mkOrder (row_id r) (row_customer_id r) (row_email r)
                      (row_status r) (row_total_amount r) (row_currency r)
                      items (row_created_at r) (row_updated_at r) None None
                      ∅ in
                  (inl (attach_addresses addresses order), w)
              end
          end
      end
  end.

(** An UPDATE of table [orders] that sets the rows selected by [guard] to
    what [change] makes of them, through the BEFORE UPDATE trigger; with the
    database after it, the number of rows affected. *)
Definition update_orders (guard : OrderRow -> bool)
    (change : OrderRow -> OrderRow) (db_now : Time) (d : Database)
  : Database * nat :=
  (mkDatabase
     (map (fun r =>
             if guard r then update_updated_at_column db_now (change r)
             else r)
        (orders d))
     (order_items d) (order_addresses d),
   length (filter guard (orders d))).

(** [db.ExecContext] of such an UPDATE followed by [result.RowsAffected]. *)
Definition exec_update (guard : OrderRow -> bool)
    (change : OrderRow -> OrderRow) (w : World) : (nat + error) * World :=
  let '(fault, db_now, w) := remote_call w in
  match fault with
  | Some text => (inr (DriverError text), w)
  | None =>
      let '(d, rowsAffected) := update_orders guard change db_now (w_db w) in
      (inl rowsAffected, set_db d w)
  end.

(** [db.ExecContext] of a statement with a parameter its column refuses:
    the statement fails, whatever rows it selects. *)
Definition exec_refused (err : error) (w : World) : (nat + error) * World :=
  let '(fault, _, w) := remote_call w in
  match fault with
  | Some text => (inr (DriverError text), w)
  | None => (inr err, w)
  end.

Definition Update (eng : Engine) (order : Order) (w : World)
  : option error * World :=
  let '(r, w) :=
    if row_ok eng order then
      exec_update
        (fun r => N.eqb (row_id r) (ID order))
        (fun r =>
           mkOrderRow (row_id r) (CustomerID order)
             (varchar eng 255 (Email order))
             (Status order) (numeric_10_2 eng (TotalAmount order))
             (varchar eng 3 (Currency order)) (row_created_at r)
             (timestamptz eng (UpdatedAt order)))
        w
    else exec_refused (refused eng 255 (Email order) [(3%nat, Currency order)]) w in
  match r with
  | inr err => (Some (Errorf "failed to update order: %w" err), w)
  | inl rowsAffected =>
      if (rowsAffected =? 0)%nat
      then (Some (NewOrderNotFoundError (ID order)), w)
      else (None, w)
  end.

Definition UpdateStatus (eng : Engine) (id : UUID) (status : OrderStatus)
    (w : World) : option error * World :=
  let '(t, w) := now w in
  let '(r, w) :=
    exec_update
      (fun r => N.eqb (row_id r) id)
      (fun r =>
         mkOrderRow (row_id r) (row_customer_id r) (row_email r) status
           (row_total_amount r) (row_currency r) (row_created_at r)
           (timestamptz eng t))
      w in
  match r with
  | inr err => (Some (Errorf "failed to update order status: %w" err), w)
  | inl rowsAffected =>
      if (rowsAffected =? 0)%nat
      then (Some (NewOrderNotFoundError id), w)
      else (None, w)
  end.

(** The guard of [Delete]:
    [WHERE id = $1 AND status NOT IN ('delivered', 'refunded', 'cancelled')]. *)
Definition Delete_guard (id : UUID) (r : OrderRow) : bool :=
  N.eqb (row_id r) id &&
  negb (existsb (String.eqb (row_status r))
          ["delivered"; "refunded"; "cancelled"]).

Definition Delete (eng : Engine) (id : UUID) (w : World)
  : option error * World :=
  let '(t, w) := now w in
  let '(r, w) :=
    exec_update
      (Delete_guard id)
      (fun r =>
         mkOrderRow (row_id r) (row_customer_id r) (row_email r) "cancelled"
           (row_total_amount r) (row_currency r) (row_created_at r)
           (timestamptz eng t))
      w in
  match r with
  | inr err => (Some (Errorf "failed to delete order: %w" err), w)
  | inl rowsAffected =>
      if (rowsAffected =? 0)%nat
      then (Some (NewOrderNotFoundError id), w)
      else (None, w)
  end.

(** [List] and [Count]: the rows are those the engine selects, for [List]
    those of them its loop has seen; an order of the list has no items, no
    addresses and empty metadata. *)
Definition List (eng : Engine) (filters : OrderFilters) (w : World)
  : (list Order + error) * World :=
  let '(fault, cut, w) := query_call w in
  match fault with
  | Some text =>
      (inr (Errorf "failed to execute list query: %w" (DriverError text)), w)
  | None =>
      (inl (map (fun r =>
                   mkOrder (row_id r) (row_customer_id r) (row_email r)
                     (row_status r) (row_total_amount r) (row_currency r) []
                     (row_created_at r) (row_updated_at r) None None ∅)
              (rows_read cut (select_orders eng filters (orders (w_db w))))),
       w)
  end.

Definition Count (eng : Engine) (filters : OrderFilters) (w : World)
  : (Z + error) * World :=
  let '(fault, _, w) := remote_call w in
  match fault with
  | Some text =>
      (inr (Errorf "failed to count orders: %w" (DriverError text)), w)
  | None => (inl (count_orders eng filters (orders (w_db w))), w)
  end.

(** The publisher of this world: the event is recorded when the call
    succeeds. *)
Definition publish (ev : OrderEvent) (w : World) : option error * World :=
  let '(fault, _, w) := remote_call w in
  match fault with
  | Some text => (Some (DriverError text), w)
  | None => (None, set_published (w_published w ++ [ev]) w)
  end.

(** The service wired as in main: the use cases run against the PostgreSQL
    repository, the publisher and the logger of the world. *)
Definition env (eng : Engine) : Env World :=
  mkEnv World now new_uuid (Create eng) (GetByID eng) (Update eng)
    (List eng) (Count eng) publish
    (fun lvl msg w => set_log (w_log w ++ [(lvl, msg)]) w).

End postgres.

(* ===================================================================== *)
(** ** package postgres: the other methods of the repository, and the    *)
(**    queries of List and Count                                         *)
(* ===================================================================== *)

(** [strconv.Itoa]: the decimal text of an int, which is how [fmt.Sprintf]
    renders it under %d. *)
Definition Itoa (n : Z) : string := NilZero.string_of_int (Z.to_int n).

(** [fmt.Sprintf] for a format whose verbs are %d and %s, applied to
    arguments already rendered as text ([Itoa] for an int). The formats of
    the code have no other verb and as many arguments as verbs; the text of
    an argument is copied, not read as a format. *)
Fixpoint fmt_Sprintf (format : string) (arguments : list string) : string :=
  match format with
  | EmptyString => EmptyString
  | String c rest =>
      if Ascii.eqb c "%" then
        match rest, arguments with
        | String v rest', a :: arguments' =>
            if Ascii.eqb v "d" || Ascii.eqb v "s"
            then a +:+ fmt_Sprintf rest' arguments'
            else String c (fmt_Sprintf rest arguments)
        | _, _ => String c (fmt_Sprintf rest arguments)
        end
      else String c (fmt_Sprintf rest arguments)
  end.

(** [strings.Join]. *)
Fixpoint Join (elems : list string) (sep : string) : string :=
  match elems with
  | [] => ""
  | [first] => first
  | first :: rest => first +:+ sep +:+ Join rest sep
  end.

(** A value handed to the driver as a query argument, by its Go type. *)
Inductive SqlArg : Type :=
| ArgUUID (u : UUID)
| ArgStatus (s : OrderStatus)
| ArgString (s : string)
| ArgFloat (f : float)
| ArgInt (n : Z).

(** The three variables the query builders thread through their filters:
    [conditions], [args] and [argIndex]. *)
Record QueryVars : Type := mkQueryVars {
  conditions : list string;
  args : list SqlArg;
  argIndex : Z
}.

(** [conditions = append(conditions, fmt.Sprintf(format, argIndex))]. *)
Definition append_condition (format : string) (q : QueryVars) : QueryVars :=
  mkQueryVars (conditions q ++ [fmt_Sprintf format [Itoa (argIndex q)]])
    (args q) (argIndex q).

(** [args = append(args, value)]. *)
Definition append_arg (value : SqlArg) (q : QueryVars) : QueryVars :=
  mkQueryVars (conditions q) (args q ++ [value]) (argIndex q).

(** [argIndex++]. *)
Definition incr (q : QueryVars) : QueryVars :=
  mkQueryVars (conditions q) (args q) (argIndex q + 1).

Definition LF : string := String (ascii_of_nat 10) "".
Definition TAB : string := String (ascii_of_nat 9) "".

Module OrderRepository.

(** [Exists]: the boolean the query returns, or the wrapped error. *)
Definition Exists (id : UUID) (w : postgres.World)
  : (bool + error) * postgres.World :=
  let '(fault, _, w) := postgres.remote_call w in
  match fault with
  | Some text =>
      (inr (Errorf "failed to check order existence: %w" (DriverError text)),
       w)
  | None => (inl (postgres.has_order (postgres.w_db w) id), w)
  end.

(** [GetByCustomerID] and [GetByStatus]: [List] with one filter, newest
    first. *)
Definition GetByCustomerID (eng : postgres.Engine) (customerID : UUID)
    (limit offset : Z) (w : postgres.World)
  : (list Order + error) * postgres.World :=
  let filters :=
    {| f_CustomerID := Some customerID; f_Status := None; f_Email := None;
       f_MinAmount := None; f_MaxAmount := None; f_DateFrom := None;
       f_DateTo := None; f_Currency := None;
       f_Limit := limit; f_Offset := offset;
       f_SortBy := "created_at"; f_SortOrder := "desc" |} in
  postgres.List eng filters w.

Definition GetByStatus (eng : postgres.Engine) (status : OrderStatus)
    (limit offset : Z) (w : postgres.World)
  : (list Order + error) * postgres.World :=
  let filters :=
    {| f_CustomerID := None; f_Status := Some status; f_Email := None;
       f_MinAmount := None; f_MaxAmount := None; f_DateFrom := None;
       f_DateTo := None; f_Currency := None;
       f_Limit := limit; f_Offset := offset;
       f_SortBy := "created_at"; f_SortOrder := "desc" |} in
  postgres.List eng filters w.

(** The text the list query starts with (a raw string literal: a line
    feed and two tabs before SELECT and before FROM). *)
Definition list_select : string :=
  LF +:+ TAB +:+ TAB +:+
  "SELECT id, customer_id, email, status, total_amount, currency, created_at, updated_at"
  +:+ LF +:+ TAB +:+ TAB +:+ "FROM orders".

(** [buildListQuery]: the text of the query and its arguments. *)
Definition buildListQuery (filters : OrderFilters) : string * list SqlArg :=
  let query := list_select in
  let q := mkQueryVars [] [] 1 in
  let q := match f_CustomerID filters with
           | Some v => incr (append_arg (ArgUUID v)
                               (append_condition "customer_id = $%d" q))
           | None => q
           end in
  let q := match f_Status filters with
           | Some v => incr (append_arg (ArgStatus v)
                               (append_condition "status = $%d" q))
           | None => q
           end in
  let q := match f_Email filters with
           | Some v => incr (append_arg (ArgString ("%" +:+ v +:+ "%"))
                               (append_condition "email ILIKE $%d" q))
           | None => q
           end in
  let q := match f_MinAmount filters with
           | Some v => incr (append_arg (ArgFloat v)
                               (append_condition "total_amount >= $%d" q))
           | None => q
           end in
  let q := match f_MaxAmount filters with
           | Some v => incr (append_arg (ArgFloat v)
                               (append_condition "total_amount <= $%d" q))
           | None => q
           end in
  let q := match f_Currency filters with
           | Some v => incr (append_arg (ArgString v)
                               (append_condition "currency = $%d" q))
           | None => q
           end in
  let q := match f_DateFrom filters with
           | Some v => incr (append_arg (ArgString v)
                               (append_condition "created_at >= $%d" q))
           | None => q
           end in
  let q := match f_DateTo filters with
           | Some v => incr (append_arg (ArgString v)
                               (append_condition "created_at <= $%d" q))
           | None => q
           end in
  let query :=
    if (0 <? length (conditions q))%nat
    then query +:+ " WHERE " +:+ Join (conditions q) " AND "
    else query in
  let sortBy :=
    if String.eqb (f_SortBy filters) "" then "created_at"
    else f_SortBy filters in
  let sortOrder :=
    if String.eqb (f_SortOrder filters) "" then "desc"
    else f_SortOrder filters in
  let query := query +:+ fmt_Sprintf " ORDER BY %s %s" [sortBy; sortOrder] in
  let '(query, q) :=
    if (0 <? f_Limit filters)%Z
    then (query +:+ fmt_Sprintf " LIMIT $%d" [Itoa (argIndex q)],
          incr (append_arg (ArgInt (f_Limit filters)) q))
    else (query, q) in
  let '(query, q) :=
    if (0 <? f_Offset filters)%Z
    then (query +:+ fmt_Sprintf " OFFSET $%d" [Itoa (argIndex q)],
          append_arg (ArgInt (f_Offset filters)) q)
    else (query, q) in
  (query, args q).

(** [buildCountQuery]: the same filters written out a second time, without
    ORDER BY, LIMIT and OFFSET. *)
Definition buildCountQuery (filters : OrderFilters) : string * list SqlArg :=
  let query := "SELECT COUNT(*) FROM orders" in
  let q := mkQueryVars [] [] 1 in
  let q := match f_CustomerID filters with
           | Some v => incr (append_arg (ArgUUID v)
                               (append_condition "customer_id = $%d" q))
           | None => q
           end in
  let q := match f_Status filters with
           | Some v => incr (append_arg (ArgStatus v)
                               (append_condition "status = $%d" q))
           | None => q
           end in
  let q := match f_Email filters with
           | Some v => incr (append_arg (ArgString ("%" +:+ v +:+ "%"))
                               (append_condition "email ILIKE $%d" q))
           | None => q
           end in
  let q := match f_MinAmount filters with
           | Some v => incr (append_arg (ArgFloat v)
                               (append_condition "total_amount >= $%d" q))
           | None => q
           end in
  let q := match f_MaxAmount filters with
           | Some v => incr (append_arg (ArgFloat v)
                               (append_condition "total_amount <= $%d" q))
           | None => q
           end in
  let q := match f_Currency filters with
           | Some v => incr (append_arg (ArgString v)
                               (append_condition "currency = $%d" q))
           | None => q
           end in
  let q := match f_DateFrom filters with
           | Some v => incr (append_arg (ArgString v)
                               (append_condition "created_at >= $%d" q))
           | None => q
           end in
  let q := match f_DateTo filters with
           | Some v => append_arg (ArgString v)
                         (append_condition "created_at <= $%d" q)
           | None => q
           end in
  let query :=
    if (0 <? length (conditions q))%nat
    then query +:+ " WHERE " +:+ Join (conditions q) " AND "
    else query in
  (query, args q).

End OrderRepository.

(* ===================================================================== *)
(** ** package kafka: producer, consumers and the header map of the      *)
(**    event handler                                                     *)
(* ===================================================================== *)

Module kafka.

(** [kafka.Header] and [kafka.Message] of the client library, with the
    fields the code reads or writes. A []byte is the string of its bytes
    ([[]byte(s)] and [string(b)] are the identity); a field the code does not
    set has its zero value. *)
Record Header : Type := mkHeader {
h_Key : string;
h_Value : string
}.

Record Message : Type := mkMessage {
m_Topic : string;
m_Partition : Z;
m_Offset : Z;
m_Key : string;
m_Value : string;
m_Headers : list Header;
m_Time : Time
}.

(** What the libraries do to the values, which the code leaves to them:
    [json.Marshal] of an event and [json.Unmarshal] into a zero event (both
    may fail), [uuid.UUID.String] and [time.Time.Format(time.RFC3339)]. *)
Record Codec : Type := mkCodec {
json_Marshal : OrderEvent -> string + error;
json_Unmarshal : string -> OrderEvent + error;
uuid_String : UUID -> string;
format_RFC3339 : Time -> string
}.

(** A call of a method of the injected [MessageHandler]. *)
Inductive HandlerCall : Type :=
| HandleOrderCreated (event : OrderEvent)
| HandleOrderConfirmed (event : OrderEvent)
| HandleOrderCancelled (event : OrderEvent)
| HandleOrderShipped (event : OrderEvent)
| HandleOrderDelivered (event : OrderEvent)
| HandleOrderRefunded (event : OrderEvent)
| HandleGenericMessage (message : Message).

(** The calls that leave the package and answer with an error or nil:
    [writer.WriteMessages], [reader.CommitMessages], a handler method. *)
Inductive Request : Type :=
| WriteMessages (messages : list Message)
| CommitMessages (messages : list Message)
| Handler (call : HandlerCall).

(** An argument of [fmt.Printf]. *)
Inductive PrintArg : Type :=
| PInt (n : Z)
| PString (s : string)
| PError (e : error).

(** A computation of the package: it prints with [fmt.Printf] (the format
    and the arguments are kept as they are passed) and makes requests. *)
Inductive KProg (A : Type) : Type :=
| KRet (a : A)
| KPrintf (format : string) (arguments : list PrintArg) (k : KProg A)
| KAsk (request : Request) (k : option error -> KProg A).

Arguments KRet {A} a.
Arguments KPrintf {A} format arguments k.
Arguments KAsk {A} request k.

Fixpoint kbind {A B : Type} (p : KProg A) (f : A -> KProg B) : KProg B :=
  match p with
  | KRet a => f a
  | KPrintf format arguments k => KPrintf format arguments (kbind k f)
  | KAsk request k => KAsk request (fun r => kbind (k r) f)
  end.

Declare Scope kprog_scope.
Delimit Scope kprog_scope with kprog.
Notation "x <- p ;; q" := (kbind p (fun x => q))
  (at level 100, p at next level, right associativity) : kprog_scope.
Notation "p ;;; q" := (kbind p (fun _ => q))
  (at level 100, right associativity) : kprog_scope.

Definition ask (request : Request) : KProg (option error) := KAsk request KRet.
Definition Printf (format : string) (arguments : list PrintArg) : KProg unit :=
  KPrintf format arguments (KRet tt).

(** One step of a run: a line printed, or a request with its answer. *)
Inductive KEvent : Type :=
| EPrintf (format : string) (arguments : list PrintArg)
| ECall (request : Request) (answer : option error).

(** [kruns p tr a]: against some broker and some handler, p prints and
    requests exactly tr, in that order, and returns a. Every answer is
    possible. *)
Inductive kruns {A : Type} : KProg A -> list KEvent -> A -> Prop :=
| kruns_Ret a : kruns (KRet a) [] a
| kruns_Printf format arguments k tr a :
    kruns k tr a ->
    kruns (KPrintf format arguments k) (EPrintf format arguments :: tr) a
| kruns_Ask request k answer tr a :
    kruns (k answer) tr a ->
    kruns (KAsk request k) (ECall request answer :: tr) a.

(** A run against a concrete handler of the requests, over a state. *)
Fixpoint kexec {A S : Type} (answer : Request -> S -> option error * S)
    (p : KProg A) (s : S) : list KEvent * A * S :=
  match p with
  | KRet a => ([], a, s)
  | KPrintf format arguments k =>
      let '(tr, a, s) := kexec answer k s in
      (EPrintf format arguments :: tr, a, s)
  | KAsk request k =>
      let '(r, s) := answer request s in
      let '(tr, a, s) := kexec answer (k r) s in
      (ECall request r :: tr, a, s)
  end.

Local Open Scope kprog_scope.

Module Producer.

(** [PublishOrderEvent]. *)
Definition PublishOrderEvent (c : Codec) (event : OrderEvent)
  : KProg (option error) :=
  match json_Marshal c event with
  | inr err => KRet (Some (Errorf "failed to marshal event: %w" err))
  | inl eventData =>
      let message :=
        {| m_Topic := ""; m_Partition := 0; m_Offset := 0;
           m_Key := uuid_String c (ev_OrderID event);
           m_Value := eventData;
           m_Headers :=
             [mkHeader "event-type" (ev_EventType event);
              mkHeader "event-id" (uuid_String c (ev_EventID event));
              mkHeader "customer-id" (uuid_String c (ev_CustomerID event));
              mkHeader "content-type" "application/json";
              mkHeader "timestamp" (format_RFC3339 c (ev_Timestamp event))];
           m_Time := ev_Timestamp event |} in
      r <- ask (WriteMessages [message]);;
      match r with
      | Some err =>
          KRet (Some (Errorf "failed to write message to kafka: %w" err))
      | None => KRet None
      end
  end.

(** The loop of [PublishOrderEvents]: the messages built, or the error of
    the first event that cannot be marshalled. The event id is written into
    the format of the error where the code passes it for %s. *)
Fixpoint PublishOrderEvents_loop (c : Codec) (events : list OrderEvent)
    (messages : list Message) : list Message + error :=
  match events with
  | [] => inl messages
  | event :: rest =>
      match json_Marshal c event with
      | inr err =>
          inr (Errorf ("failed to marshal event " +:+
                       uuid_String c (ev_EventID event) +:+ ": %w") err)
      | inl eventData =>
          let message :=
            {| m_Topic := ""; m_Partition := 0; m_Offset := 0;
               m_Key := uuid_String c (ev_OrderID event);
               m_Value := eventData;
               m_Headers :=
                 [mkHeader "event-type" (ev_EventType event);
                  mkHeader "event-id" (uuid_String c (ev_EventID event));
                  mkHeader "customer-id"
                    (uuid_String c (ev_CustomerID event));
                  mkHeader "content-type" "application/json";
                  mkHeader "timestamp"
                    (format_RFC3339 c (ev_Timestamp event))];
               m_Time := ev_Timestamp event |} in
          PublishOrderEvents_loop c rest (messages ++ [message])
      end
  end.

(** [PublishOrderEvents]. *)
Definition PublishOrderEvents (c : Codec) (events : list OrderEvent)
  : KProg (option error) :=
  if (length events =? 0)%nat then KRet None
  else
    match PublishOrderEvents_loop c events [] with
    | inr err => KRet (Some err)
    | inl messages =>
        r <- ask (WriteMessages messages);;
        match r with
        | Some err =>
            KRet (Some (Errorf "failed to write batch messages to kafka: %w"
                          err))
        | None => KRet None
        end
    end.

End Producer.

Module Consumer.

(** [getHeaderValue]. *)
Fixpoint getHeaderValue (headers : list Header) (key : string) : string :=
  match headers with
  | [] => ""
  | header :: rest =>
      if String.eqb (h_Key header) key then h_Value header
      else getHeaderValue rest key
  end.

(** [processMessage]. A nil data map and an empty one are the same finite
    map, so the [make] of the code is no step here. The time of the message,
    a [time.Time] stored in the data of the event, is held there as its
    instant. *)
Definition processMessage (c : Codec) (message : Message)
  : KProg (option error) :=
  Printf ("Processing message: partition=%d, offset=%d, key=%s" +:+ LF)
    [PInt (m_Partition message); PInt (m_Offset message);
     PString (m_Key message)];;;
  let eventType := getHeaderValue (m_Headers message) "event-type" in
  if String.eqb eventType "" then ask (Handler (HandleGenericMessage message))
  else
    match json_Unmarshal c (m_Value message) with
    | inr err =>
        KRet (Some (Errorf "failed to unmarshal order event: %w" err))
    | inl orderEvent =>
        let orderEvent :=
          UpdateOrderStatusUseCase.set_Data "kafka_partition"
            (AInt (m_Partition message)) orderEvent in
        let orderEvent :=
          UpdateOrderStatusUseCase.set_Data "kafka_offset"
            (AInt (m_Offset message)) orderEvent in
        let orderEvent :=
          UpdateOrderStatusUseCase.set_Data "kafka_timestamp"
            (AInt (m_Time message)) orderEvent in
        if String.eqb eventType EventOrderCreated then
          ask (Handler (HandleOrderCreated orderEvent))
        else if String.eqb eventType EventOrderConfirmed then
          ask (Handler (HandleOrderConfirmed orderEvent))
        else if String.eqb eventType EventOrderCancelled then
          ask (Handler (HandleOrderCancelled orderEvent))
        else if String.eqb eventType EventOrderShipped then
          ask (Handler (HandleOrderShipped orderEvent))
        else if String.eqb eventType EventOrderDelivered then
          ask (Handler (HandleOrderDelivered orderEvent))
        else if String.eqb eventType EventOrderRefunded then
          ask (Handler (HandleOrderRefunded orderEvent))
        else
          Printf ("Unknown event type: %s, processing as generic" +:+ LF)
            [PString eventType];;;
          ask (Handler (HandleGenericMessage message))
    end.

End Consumer.

Module BatchConsumer.

(** [getHeaderValue] of the batch consumer. *)
Fixpoint getHeaderValue (headers : list Header) (key : string) : string :=
  match headers with
  | [] => ""
  | header :: rest =>
      if String.eqb (h_Key header) key then h_Value header
      else getHeaderValue rest key
  end.

(** [processMessage] of the batch consumer. *)
Definition processMessage (c : Codec) (message : Message)
  : KProg (option error) :=
  let eventType := getHeaderValue (m_Headers message) "event-type" in
  if String.eqb eventType "" then ask (Handler (HandleGenericMessage message))
  else
    match json_Unmarshal c (m_Value message) with
    | inr err =>
        KRet (Some (Errorf "failed to unmarshal order event: %w" err))
    | inl orderEvent =>
        if String.eqb eventType EventOrderCreated then
          ask (Handler (HandleOrderCreated orderEvent))
        else if String.eqb eventType EventOrderConfirmed then
          ask (Handler (HandleOrderConfirmed orderEvent))
        else if String.eqb eventType EventOrderCancelled then
          ask (Handler (HandleOrderCancelled orderEvent))
        else if String.eqb eventType EventOrderShipped then
          ask (Handler (HandleOrderShipped orderEvent))
        else if String.eqb eventType EventOrderDelivered then
          ask (Handler (HandleOrderDelivered orderEvent))
        else if String.eqb eventType EventOrderRefunded then
          ask (Handler (HandleOrderRefunded orderEvent))
        else ask (Handler (HandleGenericMessage message))
    end.

(** The loop of [processBatch] over the messages. *)
Fixpoint processBatch_loop (c : Codec) (messages : list Message)
    (successfulMessages : list Message) : KProg (list Message) :=
  match messages with
  | [] => KRet successfulMessages
  | message :: rest =>
      r <- processMessage c message;;
      match r with
      | Some err =>
          Printf ("Error processing message in batch: %v, key: %s" +:+ LF)
            [PError err; PString (m_Key message)];;;
          processBatch_loop c rest successfulMessages
      | None => processBatch_loop c rest (successfulMessages ++ [message])
      end
  end.

(** [processBatch]. *)
Definition processBatch (c : Codec) (messages : list Message) : KProg unit :=
  Printf ("Processing batch of %d messages" +:+ LF)
    [PInt (Z.of_nat (length messages))];;;
  successfulMessages <- processBatch_loop c messages [];;
  if (0 <? length successfulMessages)%nat then
    r <- ask (CommitMessages successfulMessages);;
    match r with
    | Some err =>
        Printf ("Error committing batch messages: %v" +:+ LF) [PError err]
    | None =>
        Printf ("Committed %d messages from batch" +:+ LF)
          [PInt (Z.of_nat (length successfulMessages))]
    end
  else KRet tt.

End BatchConsumer.

Module OrderEventHandler.

(** [extractHeaders]: the headers as a map. *)
Definition extractHeaders (headers : list Header) : gmap string string :=
  fold_left (fun headerMap header =>
               <[h_Key header := h_Value header]> headerMap)
    headers ∅.

End OrderEventHandler.

End kafka.

(* ===================================================================== *)
(** ** package middleware: Chain                                         *)
(* ===================================================================== *)

Module middleware.

(** The loop of [Chain], [for i := len(mw) - 1; i >= 0; i--], with n = i + 1
    rounds to go. The index is in range in every round (an index out of
    range would panic; the loop never reaches one). *)
Fixpoint Chain_loop {Handler : Type} (mw : list (Handler -> Handler))
    (n : nat) (final : Handler) : Handler :=
  match n with
  | O => final
  | S i =>
      match mw !! i with
      | Some m => Chain_loop mw i (m final)
      | None => final
      end
  end.

(** [Chain], for any type of handlers. *)
Definition Chain {Handler : Type} (mw : list (Handler -> Handler))
  : Handler -> Handler :=
  fun final => Chain_loop mw (length mw) final.

End middleware.

(* ===================================================================== *)
(** ** migrations: the email check of table orders                       *)
(* ===================================================================== *)

Module migrations.

(** Regular expressions over bytes, and matching by derivatives. *)
Inductive regex : Type :=
| Nothing
| Eps
| Class (p : ascii -> bool)
| Cat (r1 r2 : regex)
| Alt (r1 r2 : regex)
| Star (r : regex).

Fixpoint nullable (r : regex) : bool :=
  match r with
  | Nothing => false
  | Eps => true
  | Class _ => false
  | Cat r1 r2 => nullable r1 && nullable r2
  | Alt r1 r2 => nullable r1 || nullable r2
  | Star _ => true
  end.

Fixpoint deriv (c : ascii) (r : regex) : regex :=
  match r with
  | Nothing => Nothing
  | Eps => Nothing
  | Class p => if p c then Eps else Nothing
  | Cat r1 r2 =>
      if nullable r1 then Alt (Cat (deriv c r1) r2) (deriv c r2)
      else Cat (deriv c r1) r2
  | Alt r1 r2 => Alt (deriv c r1) (deriv c r2)
  | Star r1 => Cat (deriv c r1) (Star r1)
  end.

(** Whether the whole text matches (a pattern between ^ and $). *)
Fixpoint regex_match (r : regex) (s : list ascii) : bool :=
  match s with
  | [] => nullable r
  | c :: s' => regex_match (deriv c r) s'
  end.

Definition in_range (lo hi c : ascii) : bool :=
  (nat_of_ascii lo <=? nat_of_ascii c)%nat &&
  (nat_of_ascii c <=? nat_of_ascii hi)%nat.

(** [A-Za-z0-9._%+-], [A-Za-z0-9.-] and [A-Za-z], with ranges in the
    order of the byte values. *)
Definition local_class (c : ascii) : bool :=
  in_range "A" "Z" c || in_range "a" "z" c || in_range "0" "9" c ||
  Ascii.eqb c "." || Ascii.eqb c "_" || Ascii.eqb c "%" || Ascii.eqb c "+" ||
  Ascii.eqb c "-".

Definition domain_class (c : ascii) : bool :=
  in_range "A" "Z" c || in_range "a" "z" c || in_range "0" "9" c ||
  Ascii.eqb c "." || Ascii.eqb c "-".

Definition letter_class (c : ascii) : bool :=
  in_range "A" "Z" c || in_range "a" "z" c.

(** r+ *)
Definition Plus (r : regex) : regex := Cat r (Star r).

(** The pattern of [is_valid_email]:
    ^[A-Za-z0-9._%+-]+@[A-Za-z0-9.-]+\.[A-Za-z]{2,}$ *)
Definition email_pattern : regex :=
  Cat (Plus (Class local_class))
    (Cat (Class (Ascii.eqb "@"))
       (Cat (Plus (Class domain_class))
          (Cat (Class (Ascii.eqb "."))
             (Cat (Class letter_class)
                (Cat (Class letter_class) (Star (Class letter_class))))))).

(** Function [is_valid_email], the CHECK constraint check_valid_email of
    table orders: [email ~* pattern]. The match ignores case, which adds
    nothing to classes that hold both cases of every letter. *)
Definition is_valid_email (email : string) : bool :=
  regex_match email_pattern (list_ascii_of_string email).

End migrations.

(* ===================================================================== *)
(** ** package logger: the fields of a log line                          *)
(* ===================================================================== *)

Module logger.

(** A value of type [interface{}] passed to the logger, by its dynamic
    type: the types the switch of [parseField] names, and any other (a nil
    interface included). A float32 is held as the float64 of the same
    value. *)
Inductive Value : Type :=
| VString (s : string)
| VInt (n : Z)
| VInt32 (n : Z)
| VInt64 (n : Z)
| VUint (n : Z)
| VUint32 (n : Z)
| VUint64 (n : Z)
| VFloat32 (f : float)
| VFloat64 (f : float)
| VBool (b : bool)
| VError (e : error)
| VStrings (l : list string)
| VInts (l : list Z)
| VOther (dynamic_type : string).

(** A [zap.Field], by the constructor of package zap that builds it. *)
Inductive Field : Type :=
| zap_String (key : string) (s : string)
| zap_Int (key : string) (n : Z)
| zap_Int32 (key : string) (n : Z)
| zap_Int64 (key : string) (n : Z)
| zap_Uint (key : string) (n : Z)
| zap_Uint32 (key : string) (n : Z)
| zap_Uint64 (key : string) (n : Z)
| zap_Float32 (key : string) (f : float)
| zap_Float64 (key : string) (f : float)
| zap_Bool (key : string) (b : bool)
| zap_Error (e : error)
| zap_Strings (key : string) (l : list string)
| zap_Ints (key : string) (l : list Z)
| zap_Any (key : string) (v : Value).

(** The key of a field; [zap.Error] names its field "error". *)
Definition Field_Key (f : Field) : string :=
  match f with
  | zap_String key _ | zap_Int key _ | zap_Int32 key _ | zap_Int64 key _
  | zap_Uint key _ | zap_Uint32 key _ | zap_Uint64 key _
  | zap_Float32 key _ | zap_Float64 key _ | zap_Bool key _
  | zap_Strings key _ | zap_Ints key _ | zap_Any key _ => key
  | zap_Error _ => "error"
  end.

(** [parseField]. *)
Definition parseField (key : string) (value : Value) : Field :=
  match value with
  | VString v => zap_String key v
  | VInt v => zap_Int key v
  | VInt32 v => zap_Int32 key v
  | VInt64 v => zap_Int64 key v
  | VUint v => zap_Uint key v
  | VUint32 v => zap_Uint32 key v
  | VUint64 v => zap_Uint64 key v
  | VFloat32 v => zap_Float32 key v
  | VFloat64 v => zap_Float64 key v
  | VBool v => zap_Bool key v
  | VError v => zap_Error v
  | VStrings v => zap_Strings key v
  | VInts v => zap_Ints key v
  | VOther _ => zap_Any key value
  end.

(** The loop of [parseFields], two arguments a round; the number of
    arguments is even when it starts. *)
Fixpoint parseFields_loop (fields : list Value) : list Field :=
  match fields with
  | VString key :: value :: rest =>
      parseField key value :: parseFields_loop rest
  | _ :: _ :: rest => parseFields_loop rest
  | _ => []
  end.

(** [parseFields]. *)
Definition parseFields (fields : list Value) : list Field :=
  let fields :=
    if negb (length fields mod 2 =? 0)%nat then fields ++ [VString ""]
    else fields in
  parseFields_loop fields.

End logger.

(* ===================================================================== *)
(** ** package usecase: the helper [contains] of the create-order file   *)
(* ===================================================================== *)

(** The slices [s[:n]] and [s[n:]] of a string, for n within its length
    (the code takes them only after [len(s) >= len(substr)]). *)
Definition slice_to (s : string) (n : nat) : string := substring 0 n s.
Definition slice_from (s : string) (n : nat) : string :=
  substring n (String.length s - n) s.

(** [contains]. *)
Definition contains (s substr : string) : bool :=
  (String.length substr <=? String.length s)%nat &&
  ((String.length substr =? 0)%nat ||
   String.eqb (slice_from s (String.length s - String.length substr)) substr ||
   String.eqb (slice_to s (String.length substr)) substr ||
   negb (String.eqb s
           (slice_to s (String.length substr) +:+
            slice_from s (String.length substr)))).

(* ===================================================================== *)
(** ** The specification's own words, and the vocabulary of the           *)
(**    properties                                                         *)
(* ===================================================================== *)

(** Section 4.1, the transition table: from each status, the allowed set. *)
Definition spec_allowed_to (from : OrderStatus) : list OrderStatus :=
  if String.eqb from "pending" then ["confirmed"; "cancelled"]
  else if String.eqb from "confirmed" then ["processing"; "cancelled"]
  else if String.eqb from "processing" then ["shipped"; "cancelled"]
  else if String.eqb from "shipped" then ["delivered"]
  else if String.eqb from "delivered" then ["refunded"]
  else [].

Definition spec_in_table (from to : OrderStatus) : bool :=
  existsb (String.eqb to) (spec_allowed_to from).

(** The same table as the list of its (from, to) pairs. *)
Definition spec_transitions : list (OrderStatus * OrderStatus) :=
  [("pending", "confirmed"); ("pending", "cancelled");
   ("confirmed", "processing"); ("confirmed", "cancelled");
   ("processing", "shipped"); ("processing", "cancelled");
   ("shipped", "delivered"); ("delivered", "refunded")].

(** The seven known status values. *)
Definition known_statuses : list OrderStatus :=
  ["pending"; "confirmed"; "processing"; "shipped"; "delivered"; "cancelled";
   "refunded"].

(** A call of [AddItem] or of [RemoveItem], with its arguments. *)
Inductive ItemCall : Type :=
| CallAddItem (productID : UUID) (name : string) (price : float) (quantity : Z)
| CallRemoveItem (itemID : UUID).

(** A finite sequence of such calls on one order. *)
Fixpoint item_calls (o : Order) (calls : list ItemCall) : Prog Order :=
  match calls with
  | [] => Ret o
  | CallAddItem productID name price quantity :: rest =>
      o' <- AddItem o productID name price quantity;;
      item_calls o' rest
  | CallRemoveItem itemID :: rest =>
      r <- RemoveItem o itemID;;
      item_calls (fst r) rest
  end.

(** Invariant I1 read in the arithmetic of the code: the total is the
    binary64 sum of the stored line totals, added one by one from 0.0 in the
    order of the slice, and each line total is the binary64 product of the
    price and the quantity converted to float64. *)
Definition float64_sum (l : list float) : float :=
  fold_left PrimFloat.add l 0%float.

Definition line_total_float64 (item : OrderItem) : Prop :=
  item_Total item =
  (item_Price item * float64_of_int (item_Quantity item))%float.

Definition I1_float64 (o : Order) : Prop :=
  TotalAmount o = float64_sum (map item_Total (Items o)) /\
  Forall line_total_float64 (Items o).

(** Invariant I1 read exactly, as the specification words it: the numbers the
    stored floats stand for satisfy total = sum of price * quantity and
    line total = price * quantity, without rounding. *)
Definition exact_line (item : OrderItem) : option Q :=
  match float_exact (item_Price item) with
  | Some p => Some (Qmult p (inject_Z (item_Quantity item)))
  | None => None
  end.

Fixpoint exact_sum (items : list OrderItem) : option Q :=
  match items with
  | [] => Some (0 # 1)%Q
  | item :: rest =>
      match exact_line item, exact_sum rest with
      | Some a, Some b => Some (Qplus a b)
      | _, _ => None
      end
  end.

Definition same_number (x y : option Q) : Prop :=
  match x, y with
  | Some a, Some b => Qeq a b
  | _, _ => False
  end.

Definition I1_exact (o : Order) : Prop :=
  same_number (float_exact (TotalAmount o)) (exact_sum (Items o)) /\
  Forall (fun item =>
            same_number (float_exact (item_Total item)) (exact_line item))
    (Items o).

(** The email rule in the specification's words: the address contains "@",
    and the domain part (what follows the "@") has at least 3 characters and
    contains ".". *)
Definition spec_email_valid (email : string) : Prop :=
  exists loc domain : string,
    email = String.append loc (String.append "@" domain) /\
    (3 <= String.length domain)%nat /\
    exists a b : string, domain = String.append a (String.append "." b).

(** A call that only reads the clock or draws an id. *)
Definition is_clock_or_id (c : Call) : Prop :=
  match c with
  | CTimeNow _ | CUuidNew _ => True
  | _ => False
  end.

(** A requested line that [validateRequest] lets through. *)
Definition item_request_ok (item : CreateOrderItemRequest) : Prop :=
  ci_ProductID item <> uuid_Nil /\ ci_Name item <> "" /\
  (ci_Price item <=? 0)%float = false /\ 0 < ci_Quantity item.

(** The event [ToEvent] builds from an order, a type, an id and an instant. *)
Definition event_of (o : Order) (eventType : string) (id : UUID) (now : Time)
  : OrderEvent :=
  mkOrderEvent eventType id (ID o) (CustomerID o) (Status o) (TotalAmount o)
    (Currency o) now
    (<["email" := AString (Email o)]>
       (<["item_count" := AInt (GetItemCount o)]> ∅)).

(** The order [UpdateOrderStatus] saves: the loaded order after the
    transition at instant now, with the reason, when one is given, stored in
    its metadata. *)
Definition updated_order (req : UpdateOrderStatusRequest) (order : Order)
    (now : Time) : Order :=
  let o := set_UpdatedAt now (set_Status (us_NewStatus req) order) in
  if negb (String.eqb (us_Reason req) "")
  then set_Metadata
         (<["status_change_reason" := AString (us_Reason req)]> (Metadata o)) o
  else o.

(** The event [UpdateOrderStatus] publishes for a saved order. *)
Definition status_event (req : UpdateOrderStatusRequest)
    (oldStatus : OrderStatus) (saved : Order) (id : UUID) (now : Time)
  : OrderEvent :=
  UpdateOrderStatusUseCase.set_Data "change_reason" (AString (us_Reason req))
    (UpdateOrderStatusUseCase.set_Data "old_status" (AString oldStatus)
       (event_of saved
          (UpdateOrderStatusUseCase.eventType (us_NewStatus req)) id now)).

(** The event type the specification gives for a target status. *)
Definition spec_event_type (target : OrderStatus) : string :=
  if String.eqb target "confirmed" then "order.confirmed"
  else if String.eqb target "cancelled" then "order.cancelled"
  else if String.eqb target "shipped" then "order.shipped"
  else if String.eqb target "delivered" then "order.delivered"
  else if String.eqb target "refunded" then "order.refunded"
  else "order.status_changed".

(** The row [Delete] leaves where its guard holds: status cancelled, and the
    update time the BEFORE UPDATE trigger writes. *)
Definition cancelled_row (db_now : Time) (r : postgres.OrderRow)
  : postgres.OrderRow :=
  postgres.mkOrderRow (postgres.row_id r) (postgres.row_customer_id r)
    (postgres.row_email r) "cancelled" (postgres.row_total_amount r)
    (postgres.row_currency r) (postgres.row_created_at r) db_now.







(** A text read back from a VARCHAR(n) column that was given a text it
    took: the text the engine holds for it, which is the text given when
    that has at most n bytes, and in any case the text given without some
    trailing spaces. *)
Definition read_back (eng : postgres.Engine) (n : nat) (given got : string)
  : Prop :=
  got = postgres.varchar eng n given /\
  ((String.length given <= n)%nat -> got = given) /\
  exists k, given = String.append got (postgres.spaces k).




(** Two rows of [orders] that agree on what no trigger writes. *)
Definition same_header (r r' : postgres.OrderRow) : Prop :=
  postgres.row_id r' = postgres.row_id r /\
  postgres.row_customer_id r' = postgres.row_customer_id r /\
  postgres.row_email r' = postgres.row_email r /\
  postgres.row_status r' = postgres.row_status r /\
  postgres.row_currency r' = postgres.row_currency r.


(** The addresses attached to an order, as a list of rows. *)
Definition address_rows (o : Order) : list Address :=
  match ShippingAddress o with Some a => [a] | None => [] end ++
  match BillingAddress o with Some a => [a] | None => [] end.

(* ===================================================================== *)
(** ** Vocabulary of the further properties                              *)
(* ===================================================================== *)

(** A caller that moves one order through a list of target statuses, one
    [UpdateStatus] after the other, and stops at the first refusal. *)
Fixpoint UpdateStatus_all (o : Order) (targets : list OrderStatus)
  : Prog (Order * option error) :=
  match targets with
  | [] => Ret (o, None)
  | newStatus :: rest =>
      r <- UpdateStatus o newStatus;;
      match snd r with
      | Some err => Ret (fst r, Some err)
      | None => UpdateStatus_all (fst r) rest
      end
  end.

(** How far a status is along the life of an order. *)
Definition status_rank (s : OrderStatus) : nat :=
  if String.eqb s "confirmed" then 1
  else if String.eqb s "processing" then 2
  else if String.eqb s "shipped" then 3
  else if String.eqb s "delivered" then 4
  else if String.eqb s "cancelled" then 5
  else if String.eqb s "refunded" then 5
  else 0.

(** The sum of a list of integers. *)
Definition sum_Z (l : list Z) : Z := fold_right Z.add 0 l.

(** A line that [OrderItem.Validate] lets through. *)
Definition item_valid (item : OrderItem) : Prop :=
  item_ID item <> uuid_Nil /\ item_ProductID item <> uuid_Nil /\
  item_Name item <> "" /\ (item_Price item <=? 0)%float = false /\
  0 < item_Quantity item /\
  (item_Total item =?
   item_Price item * float64_of_int (item_Quantity item))%float = true.

(** An order that [Order.Validate] lets through. *)
Definition order_valid (o : Order) : Prop :=
  ID o <> uuid_Nil /\ CustomerID o <> uuid_Nil /\ Email o <> "" /\
  Items o <> [] /\ (TotalAmount o <=? 0)%float = false /\
  Forall item_valid (Items o).

(** Calls of a trace by kind: a call on the repository, a successful save
    through [Update], a publication. *)
Definition is_repo_call (c : Call) : bool :=
  match c with
  | CRepoCreate _ _ | CRepoGetByID _ _ | CRepoUpdate _ _ | CRepoList _ _
  | CRepoCount _ _ => true
  | _ => false
  end.

Definition is_update (c : Call) : bool :=
  match c with
  | CRepoUpdate _ _ => true
  | _ => false
  end.

Definition is_saved (c : Call) : bool :=
  match c with
  | CRepoUpdate _ None => true
  | _ => false
  end.

Definition is_publish (c : Call) : bool :=
  match c with
  | CPublish _ _ => true
  | _ => false
  end.

(** A request to move order 3 to pending, and a stored order, confirmed. *)
Definition request_to_pending : UpdateOrderStatusRequest :=
  mkUpdateOrderStatusRequest 3%N "pending" "undo".

Definition order_confirmed : Order :=
  mkOrder 3%N 1%N "ann@shop.io" OrderStatusConfirmed 21.98%float "USD"
    [mkOrderItem 4%N 3%N 2%N "widget" 10.99%float 2 21.98%float]
    10 20 None None ∅.

(** A request to start processing order 3, with a reason. *)
Definition request_to_processing : UpdateOrderStatusRequest :=
  mkUpdateOrderStatusRequest 3%N "processing" "paid".

(** The row [Update] leaves in place of a row with the order's id: the
    header of the order, with the email and the currency as the
    VARCHAR(255) and VARCHAR(3) columns hold them, the creation time of the
    row, and the update time the BEFORE UPDATE trigger writes. Other rows
    stay. *)
Definition saved_row (eng : postgres.Engine) (order : Order) (db_now : Time)
    (r : postgres.OrderRow) : postgres.OrderRow :=
  if N.eqb (postgres.row_id r) (ID order) then
    postgres.mkOrderRow (postgres.row_id r) (CustomerID order)
      (postgres.varchar eng 255 (Email order))
      (Status order) (postgres.numeric_10_2 eng (TotalAmount order))
      (postgres.varchar eng 3 (Currency order)) (postgres.row_created_at r)
      db_now
  else r.

(** The row the repository's [UpdateStatus] leaves in place of a row with
    the id: the new status and the update time of the trigger. *)
Definition restatused_row (id : UUID) (status : OrderStatus) (db_now : Time)
    (r : postgres.OrderRow) : postgres.OrderRow :=
  if N.eqb (postgres.row_id r) id then
    postgres.mkOrderRow (postgres.row_id r) (postgres.row_customer_id r)
      (postgres.row_email r) status (postgres.row_total_amount r)
      (postgres.row_currency r) (postgres.row_created_at r) db_now
  else r.

(** A database holding one cancelled order. *)
Definition database_cancelled : postgres.Database :=
  postgres.mkDatabase
    [postgres.mkOrderRow 3%N 1%N "ann@shop.io" "cancelled" 21.98%float "USD" 10
       20]
    [mkOrderItem 4%N 3%N 2%N "widget" 10.99%float 2 21.98%float] [].

(** A database holding one confirmed order, the one [order_confirmed] is
    read from. *)
Definition database_confirmed : postgres.Database :=
  postgres.mkDatabase
    [postgres.mkOrderRow 3%N 1%N "ann@shop.io" "confirmed" 21.98%float "USD" 10
       20]
    [mkOrderItem 4%N 3%N 2%N "widget" 10.99%float 2 21.98%float] [].

(** *** Reading a query text *)

Definition is_digit (c : ascii) : bool :=
  (48 <=? nat_of_ascii c)%nat && (nat_of_ascii c <=? 57)%nat.

(** The digits a text starts with. *)
Fixpoint take_digits (s : string) : string :=
  match s with
  | EmptyString => EmptyString
  | String c rest =>
      if is_digit c then String c (take_digits rest) else EmptyString
  end.

(** The placeholders of a query text, in order: for each "$", the digits
    that follow it. *)
Fixpoint placeholders (s : string) : list string :=
  match s with
  | EmptyString => []
  | String c rest =>
      if Ascii.eqb c "$" then take_digits rest :: placeholders rest
      else placeholders rest
  end.

(** The placeholders $1 ... $n. *)
Definition numbered (n : nat) : list string :=
  map (fun k => Itoa (Z.of_nat k)) (seq 1 n).

(** One filter of the query builders, as a function of the pointer field
    it tests: when the field is set, a condition with the current index, the
    argument, and the next index. *)
Definition filter_step {A : Type} (field : option A) (format : string)
    (value : A -> SqlArg) (q : QueryVars) : QueryVars :=
  match field with
  | Some v => incr (append_arg (value v) (append_condition format q))
  | None => q
  end.

(** The variables of the builders after their eight filters. *)
Definition filter_vars (filters : OrderFilters) : QueryVars :=
  filter_step (f_DateTo filters) "created_at <= $%d" ArgString
    (filter_step (f_DateFrom filters) "created_at >= $%d" ArgString
       (filter_step (f_Currency filters) "currency = $%d" ArgString
          (filter_step (f_MaxAmount filters) "total_amount <= $%d" ArgFloat
             (filter_step (f_MinAmount filters) "total_amount >= $%d" ArgFloat
                (filter_step (f_Email filters) "email ILIKE $%d"
                   (fun v => ArgString ("%" +:+ v +:+ "%"))
                   (filter_step (f_Status filters) "status = $%d" ArgStatus
                      (filter_step (f_CustomerID filters) "customer_id = $%d"
                         ArgUUID (mkQueryVars [] [] 1)))))))).

(** The WHERE clause both builders append for given conditions. *)
Definition where_clause (conds : list string) : string :=
  if (0 <? length conds)%nat then " WHERE " +:+ Join conds " AND " else "".

(** The sort field and the sort order [buildListQuery] writes. *)
Definition sort_field (filters : OrderFilters) : string :=
  if String.eqb (f_SortBy filters) "" then "created_at" else f_SortBy filters.

Definition sort_order (filters : OrderFilters) : string :=
  if String.eqb (f_SortOrder filters) "" then "desc" else f_SortOrder filters.

(** The paging arguments of [buildListQuery]. *)
Definition paging_args (filters : OrderFilters) : list SqlArg :=
  (if (0 <? f_Limit filters)%Z then [ArgInt (f_Limit filters)] else []) ++
  (if (0 <? f_Offset filters)%Z then [ArgInt (f_Offset filters)] else []).

(** What of the filters can show in a query text: which filters are set,
    the sort field and order, and whether there is a limit and an offset. *)
Definition filter_shape (filters : OrderFilters)
  : list bool * string * string * bool * bool :=
  ([bool_decide (is_Some (f_CustomerID filters));
    bool_decide (is_Some (f_Status filters));
    bool_decide (is_Some (f_Email filters));
    bool_decide (is_Some (f_MinAmount filters));
    bool_decide (is_Some (f_MaxAmount filters));
    bool_decide (is_Some (f_Currency filters));
    bool_decide (is_Some (f_DateFrom filters));
    bool_decide (is_Some (f_DateTo filters))],
   f_SortBy filters, f_SortOrder filters,
   (0 <? f_Limit filters)%Z, (0 <? f_Offset filters)%Z).

(** Filters with a customer, an email pattern, a limit and an offset. *)
Definition filters_example : OrderFilters :=
  mkOrderFilters (Some 1%N) None (Some "shop.io") None None None None None
    20 40 "total_amount" "asc".

(** A text that does not start with a digit. *)
Definition starts_clean (b : string) : Prop :=
  match b with
  | EmptyString => True
  | String c _ => is_digit c = false
  end.

(** A format that ends in a placeholder: some text without "$", then "$"
    and the verb. *)
Definition dollar_format (format : string) : Prop :=
  exists p, placeholders p = [] /\
            forall x, fmt_Sprintf format [x] = p +:+ "$" +:+ (x +:+ "").

(** The variables of a builder are in step: the index is one more than the
    number of arguments, there is one condition per argument, and the
    conditions hold the placeholders $1 ... $n in order. *)
Definition vars_ok (q : QueryVars) : Prop :=
  argIndex q = Z.of_nat (S (length (args q))) /\
  length (conditions q) = length (args q) /\
  placeholders (Join (conditions q) " AND ") = numbered (length (args q)).

(** The LIMIT and OFFSET clauses [buildListQuery] appends, from the index
    it has reached. *)
Definition paging_text (filters : OrderFilters) (index : Z) : string :=
  (if (0 <? f_Limit filters)%Z then " LIMIT $" +:+ Itoa index else "") +:+
  (if (0 <? f_Offset filters)%Z
   then " OFFSET $" +:+
        Itoa (if (0 <? f_Limit filters)%Z then index + 1 else index)
   else "").

(** Two builders' variables with the same text: same conditions, same
    index, as many arguments. *)
Definition same_text (q q' : QueryVars) : Prop :=
  conditions q = conditions q' /\ argIndex q = argIndex q' /\
  length (args q) = length (args q').

(** A request for the orders of a customer that leaves the paging and the
    sorting to the defaults. *)
Definition list_request_example : ListOrdersRequest :=
  mkListOrdersRequest (Some 1%N) None None None None None None None
    0 0 "" "".

(** *** Reading a run of the kafka package *)

(** The handler calls of a run, each with the answer it received. *)
Fixpoint handler_calls (tr : list kafka.KEvent)
  : list (kafka.HandlerCall * option error) :=
  match tr with
  | [] => []
  | kafka.ECall (kafka.Handler call) answer :: rest =>
      (call, answer) :: handler_calls rest
  | _ :: rest => handler_calls rest
  end.

(** The batches a run commits, and the batches it writes. *)
Fixpoint commits (tr : list kafka.KEvent) : list (list kafka.Message) :=
  match tr with
  | [] => []
  | kafka.ECall (kafka.CommitMessages messages) _ :: rest =>
      messages :: commits rest
  | _ :: rest => commits rest
  end.

(** The message [PublishOrderEvent] writes for an event, when it writes
    one: the only entry of a run of it. *)
Definition published_as (c : kafka.Codec) (event : OrderEvent)
    (message : kafka.Message) : Prop :=
  exists answer result,
    kafka.kruns (kafka.Producer.PublishOrderEvent c event)
      [kafka.ECall (kafka.WriteMessages [message]) answer] result.

(** The handler method of an event type: the six typed methods, and the
    generic one, which receives the message, for every other type. *)
Definition handler_of_type (eventType : string) (event : OrderEvent)
    (message : kafka.Message) : kafka.HandlerCall :=
  if String.eqb eventType "order.created" then kafka.HandleOrderCreated event
  else if String.eqb eventType "order.confirmed"
  then kafka.HandleOrderConfirmed event
  else if String.eqb eventType "order.cancelled"
  then kafka.HandleOrderCancelled event
  else if String.eqb eventType "order.shipped"
  then kafka.HandleOrderShipped event
  else if String.eqb eventType "order.delivered"
  then kafka.HandleOrderDelivered event
  else if String.eqb eventType "order.refunded"
  then kafka.HandleOrderRefunded event
  else kafka.HandleGenericMessage message.

(** An event with the partition, offset and time of a message in its
    data. *)
Definition with_kafka_data (message : kafka.Message) (event : OrderEvent)
  : OrderEvent :=
  mkOrderEvent (ev_EventType event) (ev_EventID event) (ev_OrderID event)
    (ev_CustomerID event) (ev_Status event) (ev_TotalAmount event)
    (ev_Currency event) (ev_Timestamp event)
    (<["kafka_timestamp" := AInt (kafka.m_Time message)]>
       (<["kafka_offset" := AInt (kafka.m_Offset message)]>
          (<["kafka_partition" := AInt (kafka.m_Partition message)]>
             (ev_Data event)))).

(** A handler call with the data of the message added to its event. *)
Definition add_kafka_data (message : kafka.Message)
    (entry : kafka.HandlerCall * option error)
  : kafka.HandlerCall * option error :=
  (match fst entry with
   | kafka.HandleOrderCreated event =>
       kafka.HandleOrderCreated (with_kafka_data message event)
   | kafka.HandleOrderConfirmed event =>
       kafka.HandleOrderConfirmed (with_kafka_data message event)
   | kafka.HandleOrderCancelled event =>
       kafka.HandleOrderCancelled (with_kafka_data message event)
   | kafka.HandleOrderShipped event =>
       kafka.HandleOrderShipped (with_kafka_data message event)
   | kafka.HandleOrderDelivered event =>
       kafka.HandleOrderDelivered (with_kafka_data message event)
   | kafka.HandleOrderRefunded event =>
       kafka.HandleOrderRefunded (with_kafka_data message event)
   | kafka.HandleGenericMessage m => kafka.HandleGenericMessage m
   end, snd entry).

(** The messages of a batch whose processing returned no error. *)
Fixpoint successes (messages : list kafka.Message)
    (outcomes : list (list kafka.KEvent * option error))
  : list kafka.Message :=
  match messages, outcomes with
  | message :: messages', (_, None) :: outcomes' =>
      message :: successes messages' outcomes'
  | _ :: messages', _ :: outcomes' => successes messages' outcomes'
  | _, _ => []
  end.

(** A codec for examples, not JSON: the payload of an event is its type,
    an event without a type cannot be marshalled, and only the payload
    order.created decodes, to the example event. *)
Definition example_event : OrderEvent :=
  mkOrderEvent "order.created" 7%N 3%N 1%N "pending" 21.98%float "USD" 5 ∅.

Definition example_codec : kafka.Codec :=
  kafka.mkCodec
    (fun event =>
       if String.eqb (ev_EventType event) "" then inr (DriverError "json")
       else inl (ev_EventType event))
    (fun data =>
       if String.eqb data "order.created" then inl example_event
       else inr (DriverError "json"))
    (fun id => Itoa (Z.of_N id))
    (fun t => Itoa t).

(** A message as the broker delivers it, and one with a payload that does
    not decode. *)
Definition message_created : kafka.Message :=
  kafka.mkMessage "orders" 2 40 "3" "order.created"
    [kafka.mkHeader "event-type" "order.created"] 5.

Definition message_broken : kafka.Message :=
  kafka.mkMessage "orders" 2 41 "4" "{"
    [kafka.mkHeader "event-type" "order.shipped"] 6.

(** *** Reading a regular expression *)

(** The texts a regular expression stands for. *)
Inductive lang : migrations.regex -> list ascii -> Prop :=
| lang_Eps : lang migrations.Eps []
| lang_Class p c : p c = true -> lang (migrations.Class p) [c]
| lang_Cat r1 r2 s1 s2 :
    lang r1 s1 -> lang r2 s2 -> lang (migrations.Cat r1 r2) (s1 ++ s2)
| lang_Alt_l r1 r2 s : lang r1 s -> lang (migrations.Alt r1 r2) s
| lang_Alt_r r1 r2 s : lang r2 s -> lang (migrations.Alt r1 r2) s
| lang_Star_nil r : lang (migrations.Star r) []
| lang_Star_cons r s1 s2 :
    lang r s1 -> lang (migrations.Star r) s2 ->
    lang (migrations.Star r) (s1 ++ s2).

(** Every byte of a text is in a class. *)
Definition all_in (p : ascii -> bool) (s : string) : Prop :=
  Forall (fun c => p c = true) (list_ascii_of_string s).

(** *** Arguments of a log line *)

(** Keys and values as the callers write them: key, value, key, value. *)
Definition key_values (pairs : list (string * logger.Value))
  : list logger.Value :=
  concat (map (fun pair => [logger.VString (fst pair); snd pair]) pairs).

(* ===================================================================== *)
(** ** Concrete inputs used in examples                                  *)
(* ===================================================================== *)

(** The two lines of the specification's example, and the removal of the
    first line of an order. *)
Definition example_calls (p1 p2 : UUID) (n1 n2 : string) : list ItemCall :=
  [CallAddItem p1 n1 10.99%float 2; CallAddItem p2 n2 5.00%float 1].

Definition remove_first_line (o : Order) : Prog (Order * bool) :=
  match Items o with
  | first :: _ => RemoveItem o (item_ID first)
  | [] => Ret (o, false)
  end.

(** A new order without lines. *)
Definition order_empty : Order :=
  mkOrder 7%N 1%N "ann@shop.io" OrderStatusPending 0%float "USD" []
    0 0 None None ∅.

(** A request with one line, and the order built from it when the clock
    reads 0 then 1 and the ids drawn are 7 then 8. *)
Definition request_one_line : CreateOrderRequest :=
  mkCreateOrderRequest 1%N "ann@shop.io"
    [mkCreateOrderItemRequest 2%N "widget" 10.99%float 2] "" None None None.

Definition order_one_line : Order :=
  mkOrder 7%N 1%N "ann@shop.io" OrderStatusPending 21.98%float "USD"
    [mkOrderItem 8%N 7%N 2%N "widget" 10.99%float 2 21.98%float]
    0 1 None None ∅.

(** The VARCHAR(n) columns of a database whose characters are single
    bytes: a text is taken when what exceeds n bytes is spaces, and the
    column holds its first n bytes. *)
Fixpoint all_spaces (s : string) : bool :=
  match s with
  | EmptyString => true
  | String c s' => Ascii.eqb c " " && all_spaces s'
  end.

Definition varchar_bytes_ok (n : nat) (s : string) : bool :=
  all_spaces (substring n (String.length s - n) s).

Definition varchar_bytes (n : nat) (s : string) : string := substring 0 n s.

Definition varchar_bytes_short (n : nat) (s : string) :
  (String.length s <= n)%nat -> varchar_bytes n s = s.
Proof.
  unfold varchar_bytes. revert n.
  induction s as [|c s IH]; intros [|n] H; cbn [String.length] in H;
    try reflexivity; try lia.
  cbn [substring]. f_equal. apply IH. lia.
Qed.

Definition varchar_bytes_cut (n : nat) (s : string) :
  varchar_bytes_ok n s = true ->
  exists k, s = String.append (varchar_bytes n s) (postgres.spaces k).
Proof.
  unfold varchar_bytes_ok, varchar_bytes. revert n.
  induction s as [|c s IH]; intros n H.
  - exists 0%nat. now destruct n.
  - destruct n as [|n].
    + exists (S (String.length s)).
      change (substring 0 0 (String c s)) with EmptyString.
      change (String.append EmptyString ?x) with x.
      cbn [String.length Nat.sub substring all_spaces] in H.
      apply andb_prop in H as [Hc H]. apply Ascii.eqb_eq in Hc as ->.
      cbn [postgres.spaces]. f_equal.
      pose proof (varchar_bytes_short (String.length s) s (le_n _)) as E.
      unfold varchar_bytes in E. rewrite E in H. clear E.
      clear IH. induction s as [|d s IHs]; [reflexivity |].
      cbn [all_spaces] in H. apply andb_prop in H as [Hd H].
      apply Ascii.eqb_eq in Hd as ->. cbn [String.length postgres.spaces].
      f_equal. now apply IHs.
    + cbn [String.length Nat.sub substring] in H.
      destruct (IH n H) as [k E]. exists k. cbn [substring].
      change (String.append (String c ?a) ?b)
        with (String c (String.append a b)).
      now f_equal.
Qed.

(** An engine for examples: it stores every number and instant as it is
    given, texts as these columns do, adds in binary64, and orders names
    bytewise. *)
Definition name_le (a b : OrderItem) : Prop :=
  Is_true (String.leb (item_Name a) (item_Name b)).

Definition example_engine : postgres.Engine :=
  postgres.mkEngine
    (fun f => f) (fun t => t) float64_sum
    (merge_sort name_le) (merge_sort_Permutation name_le)
    (fun l => l) (fun l => Permutation_refl l)
    (fun _ rows => rows) (fun _ rows => Z.of_nat (length rows))
    varchar_bytes_ok varchar_bytes varchar_bytes_short varchar_bytes_cut
    (fun n _ =>
       "pq: value too long for type character varying(" +:+
       Itoa (Z.of_nat n) +:+ ")").

(** A world whose clock reads 100, 101, ..., whose ids are 7, 8, ..., in
    which no call fails and no iteration over rows breaks off, over a given
    database. *)
Definition example_world (d : postgres.Database) : postgres.World :=
  postgres.mkWorld (fun n => 100 + Z.of_nat n) 0 (fun n => N.of_nat (7 + n)) 0
    (fun _ => None) 0 (fun n => 500 + Z.of_nat n) d [] [] (fun _ => None).

(** The same world, in which the iteration over the rows of the call
    numbered n breaks off after k rows. *)
Definition example_world_cut (n k : nat) (d : postgres.Database)
  : postgres.World :=
  postgres.mkWorld (fun n => 100 + Z.of_nat n) 0 (fun n => N.of_nat (7 + n)) 0
    (fun _ => None) 0 (fun n => 500 + Z.of_nat n) d [] []
    (fun call => if Nat.eqb call n then Some k else None).

(** A request with one line whose currency has a trailing space. *)
Definition request_usd_space : CreateOrderRequest :=
  mkCreateOrderRequest 1%N "ann@shop.io"
    [mkCreateOrderItemRequest 2%N "widget" 10.99%float 2] "USD " None None
    None.

(** A request with two lines. *)
Definition request_two_lines : CreateOrderRequest :=
  mkCreateOrderRequest 1%N "ann@shop.io"
    [mkCreateOrderItemRequest 2%N "gadget" 5.5%float 1;
     mkCreateOrderItemRequest 3%N "widget" 10.99%float 2] "EUR" None None
    None.

(** A database holding one shipped order. *)
Definition database_shipped : postgres.Database :=
  postgres.mkDatabase
    [postgres.mkOrderRow 3%N 1%N "ann@shop.io" "shipped" 21.98%float "USD" 10
       20]
    [mkOrderItem 4%N 3%N 2%N "widget" 10.99%float 2 21.98%float] [].

Definition database_empty : postgres.Database :=
  postgres.mkDatabase [] [] [].




(* ===================================================================== *)
(** * Properties                                                         *)
(* ===================================================================== *)

(** ** Reasoning about runs *)

(** One inversion lemma per call: a run of a node is the call's entry in the
    trace followed by a run of the continuation on the answer. *)
Ltac runs_node_iff :=
  split;
  [ let H := fresh in intros H; inversion H; subst; eauto
  | intros; repeat match goal with
                   | H : exists _, _ |- _ => destruct H
                   | H : _ /\ _ |- _ => destruct H
                   end; subst; now constructor ].

Lemma runs_Ret_iff {A} (a : A) tr r :
  runs (Ret a) tr r <-> tr = [] /\ r = a.
Proof. runs_node_iff. Qed.

Lemma runs_TimeNow_iff {A} (k : Time -> Prog A) tr r :
  runs (TimeNow k) tr r <->
  exists t tr', tr = CTimeNow t :: tr' /\ runs (k t) tr' r.
Proof. runs_node_iff. Qed.

Lemma runs_UuidNew_iff {A} (k : UUID -> Prog A) tr r :
  runs (UuidNew k) tr r <->
  exists u tr', tr = CUuidNew u :: tr' /\ runs (k u) tr' r.
Proof. runs_node_iff. Qed.

Lemma runs_RepoCreate_iff {A} o (k : option error -> Prog A) tr r :
  runs (RepoCreate o k) tr r <->
  exists x tr', tr = CRepoCreate o x :: tr' /\ runs (k x) tr' r.
Proof. runs_node_iff. Qed.

Lemma runs_RepoGetByID_iff {A} id (k : Order + error -> Prog A) tr r :
  runs (RepoGetByID id k) tr r <->
  exists x tr', tr = CRepoGetByID id x :: tr' /\ runs (k x) tr' r.
Proof. runs_node_iff. Qed.

Lemma runs_RepoUpdate_iff {A} o (k : option error -> Prog A) tr r :
  runs (RepoUpdate o k) tr r <->
  exists x tr', tr = CRepoUpdate o x :: tr' /\ runs (k x) tr' r.
Proof. runs_node_iff. Qed.

Lemma runs_RepoList_iff {A} f (k : list Order + error -> Prog A) tr r :
  runs (RepoList f k) tr r <->
  exists x tr', tr = CRepoList f x :: tr' /\ runs (k x) tr' r.
Proof. runs_node_iff. Qed.

Lemma runs_RepoCount_iff {A} f (k : Z + error -> Prog A) tr r :
  runs (RepoCount f k) tr r <->
  exists x tr', tr = CRepoCount f x :: tr' /\ runs (k x) tr' r.
Proof. runs_node_iff. Qed.

Lemma runs_Publish_iff {A} ev (k : option error -> Prog A) tr r :
  runs (PublishOrderEvent ev k) tr r <->
  exists x tr', tr = CPublish ev x :: tr' /\ runs (k x) tr' r.
Proof. runs_node_iff. Qed.

Lemma runs_Log_iff {A} lvl msg (k : Prog A) tr r :
  runs (Log lvl msg k) tr r <->
  exists tr', tr = CLog lvl msg :: tr' /\ runs k tr' r.
Proof. runs_node_iff. Qed.

(** A run of [bind p f] is a run of p followed by a run of f on its result.
    The tactic handles a node with an answer: [node_iff] is its inversion
    lemma and IH the induction hypothesis on its continuation. *)
Ltac runs_bind_node node_iff IH :=
  rewrite node_iff; split;
  [ intros (x & tr' & -> & H);
    apply IH in H as (tr1 & a & tr2 & H1 & H2 & ->);
    eexists (_ :: tr1), a, tr2;
    split; [constructor; exact H1 | split; [exact H2 | reflexivity]]
  | intros (tr1 & a & tr2 & H1 & H2 & ->);
    apply node_iff in H1 as (x & tr' & -> & H1);
    exists x, (tr' ++ tr2); split; [reflexivity | apply IH; eauto 6] ].

Lemma runs_bind {A B} (p : Prog A) (f : A -> Prog B) tr b :
  runs (bind p f) tr b <->
  exists tr1 a tr2, runs p tr1 a /\ runs (f a) tr2 b /\ tr = tr1 ++ tr2.
Proof.
  revert tr.
  induction p as [a|k IH|k IH|o k IH|id k IH|o k IH|fl k IH|fl k IH|ev k IH
                 |lvl msg k IH]; intros tr; cbn [bind].
  - split.
    + intros H. exists [], a, tr. repeat split; auto. constructor.
    + intros (tr1 & a' & tr2 & H1 & H2 & ->).
      apply runs_Ret_iff in H1 as [-> ->]. exact H2.
  - runs_bind_node (@runs_TimeNow_iff) IH.
  - runs_bind_node (@runs_UuidNew_iff) IH.
  - runs_bind_node (@runs_RepoCreate_iff) IH.
  - runs_bind_node (@runs_RepoGetByID_iff) IH.
  - runs_bind_node (@runs_RepoUpdate_iff) IH.
  - runs_bind_node (@runs_RepoList_iff) IH.
  - runs_bind_node (@runs_RepoCount_iff) IH.
  - runs_bind_node (@runs_Publish_iff) IH.
  - rewrite runs_Log_iff. split.
    + intros (tr' & -> & H).
      apply IH in H as (tr1 & a & tr2 & H1 & H2 & ->).
      exists (CLog lvl msg :: tr1), a, tr2. repeat split; auto.
      now constructor.
    + intros (tr1 & a & tr2 & H1 & H2 & ->).
      apply runs_Log_iff in H1 as (tr' & -> & H1).
      exists (tr' ++ tr2). split; auto. apply IH. eauto 6.
Qed.



(** ** The state machine *)

Lemma validTransitions_unknown (s : OrderStatus) :
  ~ In s known_statuses -> validTransitions !! s = None.
Proof.
  intros H. unfold validTransitions. simpl.
  repeat (rewrite lookup_insert_ne; [| intros <-; apply H; simpl; tauto]).
  apply lookup_empty.
Qed.

(** The map literal of [canTransitionTo] is the table of section 4.1. *)
Lemma canTransitionTo_table (o : Order) (newStatus : OrderStatus) :
  canTransitionTo o newStatus = spec_in_table (Status o) newStatus.
Proof.
  unfold canTransitionTo, spec_in_table.
  destruct (in_dec string_dec (Status o) known_statuses) as [Hin | Hout].
  - simpl in Hin.
    assert (Hsym : forall a b : string, String.eqb a b = String.eqb b a)
      by (intros; apply String.eqb_sym).
    destruct Hin as [<- | [<- | [<- | [<- | [<- | [<- | [<- | []]]]]]]];
      match goal with
      | |- context [validTransitions !! ?k] =>
          let v := eval vm_compute in (validTransitions !! k) in
          change (validTransitions !! k) with v;
          let w := eval vm_compute in (spec_allowed_to k) in
          change (spec_allowed_to k) with w
      end; cbn [existsb];
      repeat rewrite (Hsym _ newStatus); reflexivity.
  - pose proof (validTransitions_unknown _ Hout) as E0.
    unfold OrderStatus in *. rewrite E0. clear E0.
    unfold spec_allowed_to. simpl in Hout.
    repeat match goal with
           | |- context [String.eqb (Status o) ?c] =>
               destruct (String.eqb_spec (Status o) c) as [E | _];
               [exfalso; apply Hout; rewrite E; tauto |]
           end.
    reflexivity.
Qed.

(** The five cases the specification names. *)
Example transition_cases :
  canTransitionTo (set_Status "pending" order_empty) "confirmed" = true /\
  canTransitionTo (set_Status "pending" order_empty) "processing" = false /\
  canTransitionTo (set_Status "shipped" order_empty) "cancelled" = false /\
  canTransitionTo (set_Status "delivered" order_empty) "refunded" = true /\
  canTransitionTo (set_Status "cancelled" order_empty) "pending" = false.
Proof. repeat split. Qed.

(** The runs of [UpdateStatus], with the table in place of the map. *)
Lemma runs_UpdateStatus (o : Order) (newStatus : OrderStatus) tr res :
  runs (UpdateStatus o newStatus) tr res <->
  if spec_in_table (Status o) newStatus then
    exists now,
      tr = [CTimeNow now] /\
      res = (set_UpdatedAt now (set_Status newStatus o), None)
  else
    tr = [] /\
    res = (o, Some (InvalidStatusTransitionError (Status o) newStatus)).
Proof.
  unfold UpdateStatus. rewrite canTransitionTo_table.
  destruct (spec_in_table (Status o) newStatus); simpl.
  - rewrite runs_TimeNow_iff. split.
    + intros (t & tr' & -> & H). apply runs_Ret_iff in H as [-> ->]. eauto.
    + intros (now & -> & ->). exists now, []. split; auto. constructor.
  - apply runs_Ret_iff.
Qed.

Lemma spec_in_table_pairs (from to : OrderStatus) :
  spec_in_table from to = true <-> In (from, to) spec_transitions.
Proof.
  unfold spec_in_table, spec_allowed_to, spec_transitions.
  repeat match goal with
         | |- context [String.eqb from ?c] =>
             destruct (String.eqb_spec from c) as [-> | ?]
         end;
    cbn [existsb In]; rewrite ?orb_false_r, ?orb_true_iff, ?String.eqb_eq;
    split; intros H;
    repeat match goal with
           | H : _ \/ _ |- _ => destruct H
           | H : (_, _) = (_, _) |- _ => inversion H; subst; clear H
           end;
    try discriminate; try contradiction; subst; auto 10; try congruence.
Qed.

(** C1. For every order and every target status (so for each of the seven
    known values), a call of [UpdateStatus] behaves as follows, against every
    environment. If the pair (current status, target status) is in the table
    of section 4.1 (pending to confirmed or cancelled, confirmed to
    processing or cancelled, processing to shipped or cancelled, shipped to
    delivered, delivered to refunded, nothing from cancelled and refunded),
    the call reads the clock once, returns no error, and the order has the
    target status and the clock's reading as update timestamp, every other
    field being untouched. If the pair is not in the table, the call touches
    nothing outside, returns the InvalidStatusTransition error carrying
    (from, to), and the order is unchanged. *)
Theorem UpdateStatus_follows_transition_table :
  forall (o : Order) (newStatus : OrderStatus) tr res,
    (canTransitionTo o newStatus = true <->
     In (Status o, newStatus) spec_transitions) /\
    (runs (UpdateStatus o newStatus) tr res <->
     if canTransitionTo o newStatus then
       exists now,
         tr = [CTimeNow now] /\
         res = (mkOrder (ID o) (CustomerID o) (Email o) newStatus
                  (TotalAmount o) (Currency o) (Items o) (CreatedAt o) now
                  (ShippingAddress o) (BillingAddress o) (Metadata o), None)
     else
       tr = [] /\
       res = (o, Some (InvalidStatusTransitionError (Status o) newStatus))).
Proof.
  intros o newStatus tr res. split.
  - rewrite canTransitionTo_table. apply spec_in_table_pairs.
  - rewrite canTransitionTo_table.
    change (mkOrder (ID o) (CustomerID o) (Email o) newStatus (TotalAmount o)
              (Currency o) (Items o) (CreatedAt o) ?now (ShippingAddress o)
              (BillingAddress o) (Metadata o))
      with (set_UpdatedAt now (set_Status newStatus o)).
    apply runs_UpdateStatus.
Qed.

(** C10. [IsFinal] holds exactly for delivered, cancelled and refunded, and
    [IsActive] is its negation; a delivered order is final although the
    state machine still lets it move to refunded, so being final does not
    mean that no transition is allowed. *)
Theorem IsFinal_IsActive_delivered :
  (forall o : Order,
      IsFinal o = true <->
      Status o = OrderStatusDelivered \/ Status o = OrderStatusCancelled \/
      Status o = OrderStatusRefunded) /\
  (forall o : Order, IsActive o = negb (IsFinal o)) /\
  (forall o : Order,
      Status o = OrderStatusDelivered ->
      IsFinal o = true /\ canTransitionTo o OrderStatusRefunded = true) /\
  ~ (forall o : Order,
        IsFinal o = true -> forall t, canTransitionTo o t = false).
Proof.
  assert (Hdel : forall o : Order,
             Status o = OrderStatusDelivered ->
             IsFinal o = true /\ canTransitionTo o OrderStatusRefunded = true).
  { intros o H. unfold IsFinal. rewrite canTransitionTo_table, H. split; reflexivity. }
  split; [| split; [| split]].
  - intros o. unfold IsFinal.
    rewrite !orb_true_iff, !String.eqb_eq. tauto.
  - intros o. unfold IsActive, IsFinal.
    rewrite !negb_orb. reflexivity.
  - exact Hdel.
  - intros H.
    pose (o := mkOrder 1%N 1%N "" OrderStatusDelivered 0%float "USD" [] 0 0
                 None None ∅).
    destruct (Hdel o eq_refl) as [Hf Hc].
    specialize (H o Hf OrderStatusRefunded). congruence.
Qed.

(** ** Line items and the total *)

(** What [NewOrder] builds. *)
Lemma runs_NewOrder customerID email tr o :
  runs (NewOrder customerID email) tr o <->
  exists now id,
    tr = [CTimeNow now; CUuidNew id] /\
    o = mkOrder id customerID email OrderStatusPending 0%float "USD" []
          now now None None ∅.
Proof.
  unfold NewOrder. simpl. rewrite runs_TimeNow_iff. split.
  - intros (now & tr' & -> & H).
    apply runs_UuidNew_iff in H as (id & tr'' & -> & H).
    apply runs_Ret_iff in H as [-> ->]. eauto.
  - intros (now & id & -> & ->). exists now, [CUuidNew id]. split; auto.
    repeat constructor.
Qed.

(** [AddItem] has no guard: whatever the price and the quantity, it draws an
    id, appends the line, recomputes the total and reads the clock. *)
Lemma runs_AddItem o productID name price quantity tr o' :
  runs (AddItem o productID name price quantity) tr o' <->
  exists id now,
    tr = [CUuidNew id; CTimeNow now] /\
    o' = set_UpdatedAt now
           (calculateTotal
              (set_Items
                 (Items o ++
                  [mkOrderItem id (ID o) productID name price quantity
                     (price * float64_of_int quantity)%float]) o)).
Proof.
  unfold AddItem. simpl. rewrite runs_UuidNew_iff. split.
  - intros (id & tr' & -> & H).
    apply runs_TimeNow_iff in H as (now & tr'' & -> & H).
    apply runs_Ret_iff in H as [-> ->]. eauto.
  - intros (id & now & -> & ->). exists id, [CTimeNow now]. split; auto.
    repeat constructor.
Qed.

Lemma runs_RemoveItem o itemID tr r :
  runs (RemoveItem o itemID) tr r <->
  match RemoveItem_index itemID (Items o) with
  | Some i =>
      exists now,
        tr = [CTimeNow now] /\
        r = (set_UpdatedAt now
               (calculateTotal
                  (set_Items (firstn i (Items o) ++ skipn (S i) (Items o)) o)),
             true)
  | None => tr = [] /\ r = (o, false)
  end.
Proof.
  unfold RemoveItem. destruct (RemoveItem_index itemID (Items o)) as [i|]; simpl.
  - rewrite runs_TimeNow_iff. split.
    + intros (now & tr' & -> & H). apply runs_Ret_iff in H as [-> ->]. eauto.
    + intros (now & -> & ->). exists now, []. split; auto. constructor.
  - apply runs_Ret_iff.
Qed.

Lemma fold_left_item_totals (items : list OrderItem) (acc : float) :
  fold_left (fun total item => (total + item_Total item)%float) items acc =
  fold_left PrimFloat.add (map item_Total items) acc.
Proof.
  revert acc. induction items as [|item rest IH]; intros acc; simpl; auto.
Qed.

Lemma calculateTotal_I1 (o : Order) :
  Forall line_total_float64 (Items o) -> I1_float64 (calculateTotal o).
Proof.
  intros H. split; [| exact H].
  unfold calculateTotal, float64_sum. simpl. apply fold_left_item_totals.
Qed.

Lemma I1_float64_set_UpdatedAt now o :
  I1_float64 o -> I1_float64 (set_UpdatedAt now o).
Proof. intros H. exact H. Qed.

Lemma Forall_firstn_skipn {A} (P : A -> Prop) (l : list A) (i : nat) :
  Forall P l -> Forall P (firstn i l ++ skipn (S i) l).
Proof.
  intros H. apply Forall_app. split.
  - now apply Forall_take.
  - now apply Forall_drop.
Qed.

Lemma item_calls_I1 (calls : list ItemCall) :
  forall o tr o',
    I1_float64 o -> runs (item_calls o calls) tr o' -> I1_float64 o'.
Proof.
  induction calls as [|c rest IH]; intros o tr o' Ho Hrun.
  - simpl in Hrun. apply runs_Ret_iff in Hrun as [_ ->]. exact Ho.
  - destruct c as [productID name price quantity | itemID];
      cbn [item_calls] in Hrun;
      apply runs_bind in Hrun as (tr1 & a & tr2 & H1 & H2 & ->).
    + apply runs_AddItem in H1 as (id & now & -> & ->).
      eapply IH; [| exact H2].
      apply I1_float64_set_UpdatedAt, calculateTotal_I1. simpl.
      apply Forall_app. split; [exact (proj2 Ho) |].
      constructor; [reflexivity | constructor].
    + apply runs_RemoveItem in H1.
      destruct (RemoveItem_index itemID (Items o)) as [i|].
      * destruct H1 as (now & -> & ->). eapply IH; [| exact H2].
        apply I1_float64_set_UpdatedAt, calculateTotal_I1. simpl.
        apply Forall_firstn_skipn. exact (proj2 Ho).
      * destruct H1 as [-> ->]. eapply IH; [| exact H2]. exact Ho.
Qed.

Lemma NewOrder_I1 customerID email tr o :
  runs (NewOrder customerID email) tr o -> I1_float64 o.
Proof.
  intros H. apply runs_NewOrder in H as (now & id & -> & ->).
  split; [reflexivity | constructor].
Qed.

(** C2, counterexample. One line of price 0.1 and quantity 3 on a new order:
    the stored total is the float 0.30000000000000004, which is neither
    three times the number the price stands for nor the decimal 0.30, so the
    sum is not exact. *)
Lemma total_is_not_the_exact_sum :
  exists tr o,
    runs (o0 <- NewOrder 1%N "a@b.cd";;
          item_calls o0 [CallAddItem 2%N "widget" 0.1%float 3]) tr o /\
    TotalAmount o = 0.30000000000000004%float /\
    (TotalAmount o =? 0.3)%float = false /\
    ~ I1_exact o.
Proof.
  eexists [CTimeNow 0; CUuidNew 7%N; CUuidNew 8%N; CTimeNow 1], _.
  split; [| split; [| split]].
  - simpl. repeat constructor.
  - vm_compute. reflexivity.
  - vm_compute. reflexivity.
  - intros [H _]. vm_compute in H. discriminate H.
Qed.

(** C2, as amended. For every order built by [NewOrder] and every finite
    sequence of [AddItem] and [RemoveItem] calls, against every environment,
    the total after the calls is the binary64 sum of the stored line totals
    (added from 0.0 in slice order, each addition rounded) and every stored
    line total is the binary64 product of its price and its quantity; since
    the sequence is arbitrary this holds after each call. In the example,
    lines (10.99, 2) and (5.00, 1) give the total 26.98, and removing the
    first line gives 5.00. *)
Theorem total_is_float64_sum_of_line_totals :
  (forall customerID email calls tr o,
      runs (o0 <- NewOrder customerID email;; item_calls o0 calls) tr o ->
      I1_float64 o) /\
  (forall customerID email p1 p2 n1 n2 tr o,
      runs (o0 <- NewOrder customerID email;;
            item_calls o0 (example_calls p1 p2 n1 n2)) tr o ->
      TotalAmount o = 26.98%float) /\
  (forall customerID email p1 p2 n1 n2 tr r,
      runs (o0 <- NewOrder customerID email;;
            o2 <- item_calls o0 (example_calls p1 p2 n1 n2);;
            remove_first_line o2) tr r ->
      snd r = true /\ TotalAmount (fst r) = 5.00%float /\
      map item_Price (Items (fst r)) = [5.00%float]).
Proof.
  assert (Hex : forall customerID email p1 p2 n1 n2 tr o,
             runs (o0 <- NewOrder customerID email;;
                   item_calls o0 (example_calls p1 p2 n1 n2)) tr o ->
             exists id now id1 id2 t2,
               o = mkOrder id customerID email OrderStatusPending
                     26.98%float "USD"
                     [mkOrderItem id1 id p1 n1 10.99%float 2 21.98%float;
                      mkOrderItem id2 id p2 n2 5.00%float 1 5.00%float]
                     now t2 None None ∅).
  { intros customerID email p1 p2 n1 n2 tr o H.
    apply runs_bind in H as (tr0 & o0 & tr' & H0 & H & ->).
    apply runs_NewOrder in H0 as (now & id & -> & ->).
    unfold example_calls in H. cbn [item_calls] in H.
    apply runs_bind in H as (tr1 & o1 & tr'' & H1 & H & ->).
    apply runs_AddItem in H1 as (id1 & t1 & -> & ->).
    apply runs_bind in H as (tr2 & o2 & tr''' & H2 & H & ->).
    apply runs_AddItem in H2 as (id2 & t2 & -> & ->).
    apply runs_Ret_iff in H as [-> ->].
    exists id, now, id1, id2, t2. reflexivity. }
  split; [| split].
  - intros customerID email calls tr o H.
    apply runs_bind in H as (tr0 & o0 & tr' & H0 & H & ->).
    eapply item_calls_I1; [| exact H]. eapply NewOrder_I1; eauto.
  - intros customerID email p1 p2 n1 n2 tr o H.
    apply Hex in H as (id & now & id1 & id2 & t2 & ->). reflexivity.
  - intros customerID email p1 p2 n1 n2 tr r H.
    change (runs (o2 <- (o0 <- NewOrder customerID email;;
                         item_calls o0 (example_calls p1 p2 n1 n2));;
                  remove_first_line o2) tr r) in H.
    apply runs_bind in H as (tr0 & o2 & tr' & H0 & H & ->).
    apply Hex in H0 as (id & now & id1 & id2 & t2 & ->).
    unfold remove_first_line in H. cbn [Items] in H.
    apply runs_RemoveItem in H. cbn [Items RemoveItem_index item_ID] in H.
    rewrite N.eqb_refl in H. destruct H as (t3 & -> & ->).
    repeat split.
Qed.

(** A run of the example against a concrete clock and id source. *)
Lemma total_is_float64_sum_witness :
  I1_float64
    (mkOrder 7%N 1%N "a@b.cd" OrderStatusPending 5.00%float "USD"
       [mkOrderItem 9%N 7%N 3%N "gadget" 5.00%float 1 5.00%float]
       0 3 None None ∅).
Proof.
  apply (proj1 total_is_float64_sum_of_line_totals 1%N "a@b.cd"
           [CallAddItem 2%N "widget" 10.99%float 2;
            CallAddItem 3%N "gadget" 5.00%float 1;
            CallRemoveItem 8%N]
           [CTimeNow 0; CUuidNew 7%N; CUuidNew 8%N; CTimeNow 1;
            CUuidNew 9%N; CTimeNow 2; CTimeNow 3]).
  simpl. repeat constructor.
Defined.

(** ** Validation of the aggregate *)

Lemma OrderItem_Validate_is_ValidationError (item : OrderItem) err :
  OrderItem_Validate item = Some err -> exists m, err = ValidationError m.
Proof.
  unfold OrderItem_Validate, NewValidationError. cbv zeta.
  repeat match goal with
         | |- context [if ?c then _ else _] => destruct c
         end; intros [= <-]; eauto.
Qed.

(** [OrderItem.Validate] refuses a price <= 0 and a quantity <= 0. *)
Lemma OrderItem_Validate_nonpositive (item : OrderItem) :
  (item_Price item <=? 0)%float = true \/ item_Quantity item <= 0 ->
  exists m, OrderItem_Validate item = Some (ValidationError m).
Proof.
  intros H. destruct (OrderItem_Validate item) as [err |] eqn:E.
  - apply OrderItem_Validate_is_ValidationError in E as (m & ->). eauto.
  - exfalso. unfold OrderItem_Validate in E. cbv zeta in E.
    destruct (N.eqb (item_ID item) uuid_Nil); [discriminate |].
    destruct (N.eqb (item_ProductID item) uuid_Nil); [discriminate |].
    destruct (String.eqb (item_Name item) ""); [discriminate |].
    destruct (item_Price item <=? 0)%float; [discriminate |].
    destruct (Z.leb_spec (item_Quantity item) 0); [discriminate |].
    destruct H; [discriminate | lia].
Qed.

Lemma Validate_items_refused (items : list OrderItem) (item : OrderItem) :
  In item items -> OrderItem_Validate item <> None ->
  forall i, exists m, Validate_items i items = Some (ValidationError m).
Proof.
  intros Hin Hbad. induction items as [|x rest IH]; [destruct Hin |].
  intros i. cbn [Validate_items].
  destruct (OrderItem_Validate x) as [err |] eqn:E.
  - unfold NewValidationError. eauto.
  - destruct Hin as [-> | Hin]; [contradiction |]. apply IH. exact Hin.
Qed.

(** [Order.Validate] refuses an order that holds such a line. *)
Lemma Validate_nonpositive_line (o : Order) (item : OrderItem) :
  In item (Items o) ->
  (item_Price item <=? 0)%float = true \/ item_Quantity item <= 0 ->
  exists m, Validate o = Some (ValidationError m).
Proof.
  intros Hin Hbad. unfold Validate, NewValidationError.
  repeat match goal with
         | |- context [if ?c then _ else _] => destruct c
         end; eauto.
  apply Validate_items_refused with (item := item); [exact Hin |].
  destruct (OrderItem_Validate_nonpositive item Hbad) as (m & E).
  rewrite E. discriminate.
Qed.

(** ** Running against a concrete environment *)

Lemma exec_bind {S A B} (env : Env S) (p : Prog A) (f : A -> Prog B) (s : S) :
  exec env (bind p f) s =
  let '(a, s1, tr1) := exec env p s in
  let '(b, s2, tr2) := exec env (f a) s1 in
  (b, s2, tr1 ++ tr2).
Proof.
  revert s.
  induction p as [a|k IH|k IH|o k IH|id k IH|o k IH|fl k IH|fl k IH|ev k IH
                 |lvl msg k IH]; intros s; cbn [bind exec].
  1: destruct (exec env (f a) s) as [[b s2] tr2]; reflexivity.
  1-8: match goal with
       | |- context [let '(_, _) := ?h in _] => destruct h as [x s1]
       end; rewrite IH;
       destruct (exec env (k x) s1) as [[a s2] tr1];
       destruct (exec env (f a) s2) as [[b s3] tr2]; reflexivity.
  rewrite IH.
  destruct (exec env k (on_Log env lvl msg s)) as [[a s2] tr1].
  destruct (exec env (f a) s2) as [[b s3] tr2]. reflexivity.
Qed.

(** ** Strings: [strings.Contains] and [strings.Split] *)

Lemma append_Empty (b : string) : String.append "" b = b.
Proof. reflexivity. Qed.

Lemma append_String (c : ascii) (a b : string) :
  String.append (String c a) b = String c (String.append a b).
Proof. reflexivity. Qed.

Ltac simpl_append := rewrite ?append_Empty, ?append_String in *.

Lemma prefix_iff (p s : string) :
  String.prefix p s = true <-> exists b, s = String.append p b.
Proof.
  revert s. induction p as [|c p IH]; intros s.
  - destruct s; simpl; split; eauto.
  - destruct s as [|d s]; simpl.
    + split; [discriminate | intros (b & E); simpl_append; discriminate].
    + destruct (ascii_dec c d) as [-> | Hne].
      * rewrite IH. split; intros (b & E); exists b; simpl_append; congruence.
      * split; [discriminate | intros (b & E); simpl_append; congruence].
Qed.

(** [Contains s sub] holds exactly when sub occurs in s. *)
Lemma Contains_iff (s sub : string) :
  Contains s sub = true <->
  exists a b, s = String.append a (String.append sub b).
Proof.
  induction s as [|c s IH]; cbn [Contains].
  - rewrite orb_false_r, prefix_iff. split.
    + intros (b & E). exists "", b. exact E.
    + intros (a & b & E). destruct a; simpl_append; [eauto | discriminate].
  - rewrite orb_true_iff, IH.
    rewrite prefix_iff. split.
    + intros [(b & E) | (a & b & E)].
      * exists "", b. exact E.
      * exists (String c a), b. simpl_append. now rewrite E.
    + intros (a & b & E). destruct a as [|d a]; simpl_append.
      * left. eauto.
      * right. exists a, b. congruence.
Qed.

Lemma Contains_byte_cons (c x : ascii) (s : string) :
  Contains (String x s) (String c "") =
  Ascii.eqb x c || Contains s (String c "").
Proof.
  simpl. destruct (ascii_dec c x) as [-> | Hne].
  - rewrite Ascii.eqb_refl. now destruct s.
  - destruct (Ascii.eqb_spec x c) as [-> | _]; [contradiction | reflexivity].
Qed.

Lemma Split_not_nil (s : string) (c : ascii) : Split s c <> [].
Proof.
  destruct s as [|x s]; simpl; [discriminate |].
  destruct (Ascii.eqb x c); [discriminate |].
  destruct (Split s c); discriminate.
Qed.

(** One part: the separator does not occur. *)
Lemma Split_one (s : string) (c : ascii) (p : string) :
  Split s c = [p] <-> p = s /\ Contains s (String c "") = false.
Proof.
  revert p. induction s as [|x s IH]; intros p.
  - simpl. split; [intros [= <-]; auto | intros [-> _]; reflexivity].
  - rewrite Contains_byte_cons. cbn [Split].
    destruct (Ascii.eqb x c) eqn:E; cbn [orb].
    + split; [| intros [_ H]; discriminate].
      intros H. injection H as _ H. now apply Split_not_nil in H.
    + destruct (Split s c) as [|q qs] eqn:Es; [now apply Split_not_nil in Es |].
      split.
      * intros [= <- ->]. destruct (proj1 (IH q) eq_refl) as [-> H]. auto.
      * intros [-> H].
        injection (proj2 (IH s) (conj eq_refl H)) as -> ->. reflexivity.
Qed.

(** Two parts: the separator occurs once, between them. *)
Lemma Split_two (s : string) (c : ascii) (a b : string) :
  Split s c = [a; b] <->
  s = String.append a (String c b) /\
  Contains a (String c "") = false /\ Contains b (String c "") = false.
Proof.
  revert a. induction s as [|x s IH]; intros a.
  - simpl. split; [discriminate |].
    intros (E & _). destruct a; simpl_append; discriminate.
  - cbn [Split]. destruct (Ascii.eqb_spec x c) as [-> | Hne].
    + split.
      * intros [= <- H]. apply Split_one in H as [-> H]. auto.
      * intros (E & Ha & Hb). destruct a as [|y a]; simpl_append.
        -- injection E as ->. f_equal. apply Split_one. auto.
        -- injection E as <- _. rewrite Contains_byte_cons, Ascii.eqb_refl in Ha.
           discriminate.
    + destruct (Split s c) as [|q qs] eqn:Es; [now apply Split_not_nil in Es |].
      split.
      * intros [= <- ->]. destruct (proj1 (IH q) eq_refl) as (-> & Ha & Hb).
        repeat split; auto. rewrite Contains_byte_cons, Ha.
        destruct (Ascii.eqb_spec x c); [contradiction | reflexivity].
      * intros (E & Ha & Hb). destruct a as [|y a]; simpl_append.
        -- injection E as -> _. contradiction.
        -- injection E as <- ->. rewrite Contains_byte_cons in Ha.
           apply orb_false_iff in Ha as [_ Ha].
           pose proof (proj2 (IH a) (conj eq_refl (conj Ha Hb))) as E.
           now injection E as -> ->.
Qed.

(** What [validateEmail] accepts: at least 5 bytes, exactly one "@", and
    after it at least 3 bytes with a "." among them. *)
Lemma validateEmail_iff (email : string) :
  validateEmail email = true <->
  (5 <= String.length email)%nat /\
  exists loc domain : string,
    email = String.append loc (String.append "@" domain) /\
    Contains loc "@" = false /\ Contains domain "@" = false /\
    (3 <= String.length domain)%nat /\ Contains domain "." = true.
Proof.
  unfold validateEmail.
  destruct (Nat.ltb_spec (String.length email) 5) as [Hlt | Hge].
  { split; [discriminate | intros (H & _); lia]. }
  split.
  - destruct (Contains email "@"); cbn [negb]; [| discriminate].
    destruct (Split email "@") as [|a [|b [|x l]]] eqn:Es; try discriminate.
    cbn [length nth Nat.eqb andb].
    rewrite andb_true_iff, Nat.leb_le. intros [Hlen Hdot].
    apply Split_two in Es as (E & Ha & Hb).
    split; [exact Hge |]. exists a, b. auto.
  - intros (_ & loc & domain & E & Ha & Hb & Hlen & Hdot).
    assert (Hc : Contains email "@" = true).
    { apply Contains_iff. exists loc, domain. exact E. }
    rewrite Hc. cbn [negb].
    rewrite (proj2 (Split_two email "@" loc domain) (conj E (conj Ha Hb))).
    cbn [length nth Nat.eqb andb].
    rewrite Hdot, andb_true_r. now apply Nat.leb_le.
Qed.

Example validateEmail_cases :
  validateEmail "test@example.com" = true /\
  validateEmail "a@b.c" = true /\
  validateEmail "@abc.d" = true /\
  validateEmail "a@bc" = false /\
  validateEmail "ab.cd" = false /\
  validateEmail "a@b@c.de" = false /\
  validateEmail "@a.b" = false.
Proof. repeat split. Qed.

(** ** ListOrders: defaults, bounds and checks *)

Section ListOrdersFacts.
Import ListOrdersUseCase.

Lemma setDefaults_fields (req : ListOrdersRequest) :
  lr_Limit (setDefaults req) =
    (if (lr_Limit req <=? 0)%Z then 20
     else if (100 <? lr_Limit req)%Z then 100 else lr_Limit req) /\
  lr_Offset (setDefaults req) =
    (if (lr_Offset req <? 0)%Z then 0 else lr_Offset req) /\
  lr_SortBy (setDefaults req) =
    (if String.eqb (lr_SortBy req) "" then "created_at" else lr_SortBy req) /\
  lr_SortOrder (setDefaults req) =
    (if String.eqb (lr_SortOrder req) "" then "desc" else lr_SortOrder req) /\
  lr_MinAmount (setDefaults req) = lr_MinAmount req /\
  lr_MaxAmount (setDefaults req) = lr_MaxAmount req.
Proof.
  unfold setDefaults.
  destruct (Z.leb_spec (lr_Limit req) 0) as [Hl | Hl];
    cbn [lr_Limit set_Limit];
    [ change (100 <? 20)%Z with false; cbn iota
    | destruct (Z.ltb_spec 100 (lr_Limit req)) ];
    cbn [lr_Offset set_Limit];
    destruct (Z.ltb_spec (lr_Offset req) 0);
    cbn [lr_SortBy set_Limit set_Offset];
    destruct (String.eqb (lr_SortBy req) "");
    cbn [lr_SortOrder set_Limit set_Offset set_SortBy];
    destruct (String.eqb (lr_SortOrder req) "");
    repeat split.
Qed.

(** What the checks of [validateAndSetDefaults] accept. *)
Lemma validate_None_iff (req : ListOrdersRequest) :
  validate req = None <->
  In (lr_SortBy req) validSortFields /\
  (lr_SortOrder req = "asc" \/ lr_SortOrder req = "desc") /\
  (forall m, lr_MinAmount req = Some m -> (m <? 0)%float = false) /\
  (forall m, lr_MaxAmount req = Some m -> (m <? 0)%float = false) /\
  (forall mn mx,
      lr_MinAmount req = Some mn -> lr_MaxAmount req = Some mx ->
      (mx <? mn)%float = false).
Proof.
  unfold validate.
  assert (Hsort :
            existsb (fun field => String.eqb (lr_SortBy req) field)
              validSortFields = true <-> In (lr_SortBy req) validSortFields).
  { rewrite existsb_exists. split.
    - intros (x & Hx & E). apply String.eqb_eq in E. now subst.
    - intros H. exists (lr_SortBy req). split; auto. apply String.eqb_refl. }
  destruct (existsb _ validSortFields) eqn:Eby; cbn [negb];
    [| split; [discriminate | intros (H & _); apply Hsort in H; discriminate]].
  destruct (String.eqb_spec (lr_SortOrder req) "asc") as [Ea | Ea];
    destruct (String.eqb_spec (lr_SortOrder req) "desc") as [Ed | Ed];
    cbn [negb andb];
    try (split; [discriminate | intros (_ & [H | H] & _); contradiction]).
  all: destruct (lr_MinAmount req) as [mn |];
    destruct (lr_MaxAmount req) as [mx |];
    repeat match goal with
           | |- context [(?a <? ?b)%float] =>
               let E := fresh "E" in destruct (a <? b)%float eqn:E
           end;
    split; try discriminate;
    try (intros _; repeat split; try (apply Hsort; reflexivity); auto;
         intros; congruence);
    intros (_ & _ & H1 & H2 & H3);
    try (specialize (H1 _ eq_refl)); try (specialize (H2 _ eq_refl));
    try (specialize (H3 _ _ eq_refl eq_refl)); congruence.
Qed.

Lemma validate_is_ValidationError (req : ListOrdersRequest) err :
  validate req = Some err -> exists m, err = ValidationError m.
Proof.
  unfold validate, NewValidationError.
  repeat match goal with
         | |- context [if ?c then _ else _] => destruct c
         end; intros H; inversion H; eauto.
Qed.

(** The runs of [ListOrdersUseCase.Execute]. *)
Lemma runs_ListOrders (req : ListOrdersRequest) tr res :
  runs (Execute req) tr res <->
  let req' := setDefaults req in
  let filters :=
    mkOrderFilters (lr_CustomerID req') (lr_Status req') (lr_Email req')
      (lr_MinAmount req') (lr_MaxAmount req') (lr_DateFrom req')
      (lr_DateTo req') (lr_Currency req') (lr_Limit req') (lr_Offset req')
      (lr_SortBy req') (lr_SortOrder req') in
  match validate req' with
  | Some err =>
      tr = [CLog LError "Invalid list orders request"] /\
      res = inr (Errorf "validation failed: %w" err)
  | None =>
      (exists err,
          tr = [CRepoList filters (inr err);
                CLog LError "Failed to list orders"] /\
          res = inr (Errorf "failed to list orders: %w" err)) \/
      (exists orders err,
          tr = [CRepoList filters (inl orders);
                CRepoCount filters (inr err);
                CLog LError "Failed to count orders"] /\
          res = inr (Errorf "failed to count orders: %w" err)) \/
      (exists orders totalCount,
          tr = [CRepoList filters (inl orders);
                CRepoCount filters (inl totalCount);
                CLog LInfo "Orders listed successfully"] /\
          res = inl (mkListOrdersResponse orders totalCount (lr_Limit req')
                       (lr_Offset req')))
  end.
Proof.
  unfold Execute, validateAndSetDefaults. cbv zeta.
  destruct (validate (setDefaults req)) as [err |]; simpl.
  - rewrite runs_Log_iff. split.
    + intros (tr' & -> & H). apply runs_Ret_iff in H as [-> ->]. auto.
    + intros [-> ->]. eexists. split; eauto. constructor.
  - rewrite runs_RepoList_iff. split.
    + intros ([orders | err] & tr' & -> & H).
      * apply runs_RepoCount_iff in H as ([n | err] & tr'' & -> & H);
          apply runs_Log_iff in H as (tr3 & -> & H);
          apply runs_Ret_iff in H as [-> ->]; eauto 10.
      * apply runs_Log_iff in H as (tr3 & -> & H).
        apply runs_Ret_iff in H as [-> ->]. eauto 10.
    + intros [(err & -> & ->) | [(orders & err & -> & ->) |
                                 (orders & n & -> & ->)]];
        eexists _, _; (split; [reflexivity |]); simpl; repeat constructor.
Qed.

(** C9. [ListOrders] normalizes and validates its filters before any call of
    the repository. For every request: a non-positive limit becomes 20 and a
    limit above 100 becomes 100, so the limit ends between 1 and 100; a
    negative offset becomes 0; an empty sort field becomes created_at and an
    empty sort order becomes desc; the request passes exactly when the sort
    field is one of created_at, updated_at, total_amount, status, the sort
    order is asc or desc, neither amount is negative and min_amount is not
    above max_amount; every rejection is a ValidationError; a rejected
    request (so one with min_amount > max_amount) makes [Execute] return
    that error after one log line, without any call of the repository; an
    accepted one reaches the repository with the normalized filters. *)
Theorem ListOrders_normalizes_and_validates_filters :
  forall req : ListOrdersRequest,
    let req' := fst (validateAndSetDefaults req) in
    let err := snd (validateAndSetDefaults req) in
    (lr_Limit req' =
       (if (lr_Limit req <=? 0)%Z then 20
        else if (100 <? lr_Limit req)%Z then 100 else lr_Limit req) /\
     1 <= lr_Limit req' <= 100) /\
    (lr_Offset req' = (if (lr_Offset req <? 0)%Z then 0 else lr_Offset req) /\
     0 <= lr_Offset req') /\
    lr_SortBy req' =
      (if String.eqb (lr_SortBy req) "" then "created_at" else lr_SortBy req) /\
    lr_SortOrder req' =
      (if String.eqb (lr_SortOrder req) "" then "desc" else lr_SortOrder req) /\
    (err = None <->
     In (lr_SortBy req') ["created_at"; "updated_at"; "total_amount"; "status"] /\
     (lr_SortOrder req' = "asc" \/ lr_SortOrder req' = "desc") /\
     (forall m, lr_MinAmount req = Some m -> (m <? 0)%float = false) /\
     (forall m, lr_MaxAmount req = Some m -> (m <? 0)%float = false) /\
     (forall mn mx,
         lr_MinAmount req = Some mn -> lr_MaxAmount req = Some mx ->
         (mx <? mn)%float = false)) /\
    (forall e, err = Some e -> exists m, e = ValidationError m) /\
    (forall tr res,
        runs (Execute req) tr res ->
        match err with
        | Some e =>
            tr = [CLog LError "Invalid list orders request"] /\
            res = inr (Errorf "validation failed: %w" e)
        | None =>
            exists r tr',
              tr = CRepoList
                     (mkOrderFilters (lr_CustomerID req) (lr_Status req)
                        (lr_Email req) (lr_MinAmount req) (lr_MaxAmount req)
                        (lr_DateFrom req) (lr_DateTo req) (lr_Currency req)
                        (lr_Limit req') (lr_Offset req') (lr_SortBy req')
                        (lr_SortOrder req')) r :: tr'
        end).
Proof.
  intros req req' err. subst req' err. unfold validateAndSetDefaults.
  cbn [fst snd].
  destruct (setDefaults_fields req) as (Hl & Ho & Hb & Hs & Hmin & Hmax).
  split.
  { split; [exact Hl |]. rewrite Hl.
    destruct (Z.leb_spec (lr_Limit req) 0); [lia |].
    destruct (Z.ltb_spec 100 (lr_Limit req)); lia. }
  split.
  { split; [exact Ho |]. rewrite Ho.
    destruct (Z.ltb_spec (lr_Offset req) 0); lia. }
  split; [exact Hb |]. split; [exact Hs |].
  split. { rewrite validate_None_iff, Hmin, Hmax. reflexivity. }
  split. { apply validate_is_ValidationError. }
  intros tr res H. apply runs_ListOrders in H. cbv zeta in H.
  destruct (validate (setDefaults req)) as [e |]; [exact H |].
  assert (Hrest : lr_CustomerID (setDefaults req) = lr_CustomerID req /\
                  lr_Status (setDefaults req) = lr_Status req /\
                  lr_Email (setDefaults req) = lr_Email req /\
                  lr_DateFrom (setDefaults req) = lr_DateFrom req /\
                  lr_DateTo (setDefaults req) = lr_DateTo req /\
                  lr_Currency (setDefaults req) = lr_Currency req).
  { unfold setDefaults.
    repeat match goal with
           | |- context [if ?c then _ else _] => destruct c
           end; repeat split. }
  destruct Hrest as (E1 & E2 & E3 & E4 & E5 & E6).
  rewrite E1, E2, E3, E4, E5, E6, Hmin, Hmax in H.
  destruct H as [(e & -> & _) | [(os & e & -> & _) | (os & n & -> & _)]];
    eauto.
Qed.

End ListOrdersFacts.

(** ** CreateOrder *)

Section CreateOrderFacts.
Import CreateOrderUseCase.

Lemma validateRequest_items_None_iff (items : list CreateOrderItemRequest) :
  forall i, validateRequest_items i items = None <->
            Forall item_request_ok items.
Proof.
  induction items as [|item rest IH]; intros i; cbn [validateRequest_items].
  - split; auto.
  - unfold item_request_ok at 1.
    destruct (N.eqb_spec (ci_ProductID item) uuid_Nil) as [E1 | E1];
      [split; [discriminate | intros H; inversion H as [|? ? (? & _)]; tauto] |].
    destruct (String.eqb_spec (ci_Name item) "") as [E2 | E2];
      [split; [discriminate | intros H; inversion H as [|? ? (_ & ? & _)]; tauto] |].
    destruct (ci_Price item <=? 0)%float eqn:E3;
      [split; [discriminate |
               intros H; inversion H as [|? ? (_ & _ & ? & _)]; congruence] |].
    destruct (Z.leb_spec (ci_Quantity item) 0) as [E4 | E4];
      [split; [discriminate |
               intros H; inversion H as [|? ? (_ & _ & _ & ?)]; lia] |].
    rewrite IH. split.
    + intros H. constructor; [repeat split; auto | exact H].
    + intros H. now inversion H.
Qed.

Lemma validateRequest_items_is_ValidationError items :
  forall i err, validateRequest_items i items = Some err ->
                exists m, err = ValidationError m.
Proof.
  induction items as [|item rest IH]; intros i err; cbn [validateRequest_items].
  - discriminate.
  - unfold NewValidationError.
    repeat match goal with
           | |- context [if ?c then _ else _] => destruct c
           end; try (intros [= <-]; eauto). apply IH.
Qed.

(** What [validateRequest] lets through. *)
Lemma validateRequest_None_iff (req : CreateOrderRequest) :
  validateRequest req = None <->
  cr_CustomerID req <> uuid_Nil /\ validateEmail (cr_Email req) = true /\
  cr_Items req <> [] /\ Forall item_request_ok (cr_Items req).
Proof.
  unfold validateRequest.
  destruct (N.eqb_spec (cr_CustomerID req) uuid_Nil) as [E1 | E1];
    [split; [discriminate | tauto] |].
  destruct (String.eqb_spec (cr_Email req) "") as [E2 | E2].
  { split; [discriminate |]. rewrite E2. intros (_ & H & _). discriminate. }
  destruct (validateEmail (cr_Email req)); cbn [negb];
    [| split; [discriminate | intros (_ & H & _); discriminate]].
  destruct (cr_Items req) as [|item rest] eqn:Ei; cbn [length Nat.eqb].
  { split; [discriminate | tauto]. }
  rewrite validateRequest_items_None_iff. split.
  - intros H. split; [exact E1 |]. split; [reflexivity |].
    split; [discriminate | exact H].
  - tauto.
Qed.

Lemma validateRequest_is_ValidationError (req : CreateOrderRequest) err :
  validateRequest req = Some err -> exists m, err = ValidationError m.
Proof.
  unfold validateRequest, NewValidationError.
  repeat match goal with
         | |- context [if ?c then _ else _] => destruct c
         end; try (intros [= <-]; eauto).
  apply validateRequest_items_is_ValidationError.
Qed.

(** A request with an email [validateEmail] refuses never passes. *)
Lemma validateRequest_bad_email (req : CreateOrderRequest) :
  validateEmail (cr_Email req) = false ->
  exists m, validateRequest req = Some (ValidationError m).
Proof.
  intros H. destruct (validateRequest req) as [err |] eqn:E.
  - apply validateRequest_is_ValidationError in E as (m & ->). eauto.
  - apply validateRequest_None_iff in E as (_ & E & _). congruence.
Qed.

(** A rejected request: one log line, the wrapped validation error, and no
    other call. *)
Lemma runs_Execute_rejected (req : CreateOrderRequest) err tr res :
  validateRequest req = Some err ->
  runs (Execute req) tr res ->
  tr = [CLog LError "Invalid create order request"] /\
  res = inr (Errorf "validation failed: %w" err).
Proof.
  intros E H. unfold Execute in H. rewrite E in H. simpl in H.
  apply runs_Log_iff in H as (tr' & -> & H).
  apply runs_Ret_iff in H as [-> ->]. auto.
Qed.

Lemma runs_SetShippingAddress o a tr o' :
  runs (SetShippingAddress o a) tr o' ->
  Forall is_clock_or_id tr.
Proof.
  unfold SetShippingAddress. simpl. intros H.
  apply runs_UuidNew_iff in H as (id & tr' & -> & H).
  apply runs_TimeNow_iff in H as (now & tr'' & -> & H).
  apply runs_Ret_iff in H as [-> ->]. repeat constructor.
Qed.

Lemma runs_SetBillingAddress o a tr o' :
  runs (SetBillingAddress o a) tr o' ->
  Forall is_clock_or_id tr.
Proof.
  unfold SetBillingAddress. simpl. intros H.
  apply runs_UuidNew_iff in H as (id & tr' & -> & H).
  apply runs_TimeNow_iff in H as (now & tr'' & -> & H).
  apply runs_Ret_iff in H as [-> ->]. repeat constructor.
Qed.

Lemma runs_addItems_calls items :
  forall o tr o', runs (addItems o items) tr o' -> Forall is_clock_or_id tr.
Proof.
  induction items as [|item rest IH]; intros o tr o' H; cbn [addItems] in H.
  - apply runs_Ret_iff in H as [-> _]. constructor.
  - apply runs_bind in H as (tr1 & o1 & tr2 & H1 & H2 & ->).
    apply runs_AddItem in H1 as (id & now & -> & ->).
    repeat constructor. eapply IH; eauto.
Qed.

(** The construction of the aggregate only reads the clock and draws ids. *)
Lemma runs_buildOrder_calls (req : CreateOrderRequest) tr o :
  runs (buildOrder req) tr o -> Forall is_clock_or_id tr.
Proof.
  unfold buildOrder. intros H.
  apply runs_bind in H as (tr1 & o1 & tr2 & H1 & H2 & ->).
  apply runs_NewOrder in H1 as (now & id & -> & ->).
  apply runs_bind in H2 as (tr3 & o3 & tr4 & H3 & H4 & ->).
  apply runs_addItems_calls in H3.
  apply runs_bind in H4 as (tr5 & o5 & tr6 & H5 & H6 & ->).
  repeat constructor. apply Forall_app. split; [exact H3 |].
  apply Forall_app. split.
  - destruct (cr_ShippingAddress req).
    + eapply runs_SetShippingAddress; eauto.
    + apply runs_Ret_iff in H5 as [-> _]. constructor.
  - destruct (cr_BillingAddress req).
    + eapply runs_SetBillingAddress; eauto.
    + apply runs_Ret_iff in H6 as [-> _]. constructor.
Qed.

(** The runs of the persistence and publication steps. *)
Lemma runs_saveAndPublish (order : Order) tr res :
  runs (saveAndPublish order) tr res <->
  (exists err,
      tr = [CRepoCreate order (Some err);
            CLog LError "Failed to create order in database"] /\
      res = inr (Errorf "failed to save order: %w" err)) \/
  (exists id now pub,
      tr = [CRepoCreate order None;
            CLog LInfo "Order created successfully";
            CUuidNew id; CTimeNow now;
            CPublish (event_of order EventOrderCreated id now) pub;
            match pub with
            | Some _ => CLog LError "Failed to publish order created event"
            | None => CLog LInfo "Order created event published"
            end] /\
      res = inl (mkCreateOrderResponse order "Order created successfully")).
Proof.
  unfold saveAndPublish. simpl. rewrite runs_RepoCreate_iff. split.
  - intros ([err |] & tr' & -> & H).
    + apply runs_Log_iff in H as (tr'' & -> & H).
      apply runs_Ret_iff in H as [-> ->]. left. eauto.
    + apply runs_Log_iff in H as (tr1 & -> & H).
      apply runs_UuidNew_iff in H as (id & tr2 & -> & H).
      apply runs_TimeNow_iff in H as (now & tr3 & -> & H).
      apply runs_Publish_iff in H as (pub & tr4 & -> & H).
      right. exists id, now, pub.
      destruct pub; apply runs_Log_iff in H as (tr5 & -> & H);
        apply runs_Ret_iff in H as [-> ->]; auto.
  - intros [(err & -> & ->) | (id & now & pub & -> & ->)].
    + exists (Some err), [CLog LError "Failed to create order in database"].
      split; auto. repeat constructor.
    + eexists None, _. split; [reflexivity |].
      do 3 constructor. apply runs_Publish with (r := pub).
      destruct pub; repeat constructor.
Qed.

(** The runs of [Execute] on a request that passes [validateRequest]. *)
Lemma runs_Execute_accepted (req : CreateOrderRequest) tr res :
  validateRequest req = None ->
  (runs (Execute req) tr res <->
   exists tr0 order,
     runs (buildOrder req) tr0 order /\
     match Validate order with
     | Some err =>
         tr = tr0 ++ [CLog LError "Order validation failed"] /\
         res = inr (Errorf "order validation failed: %w" err)
     | None =>
         exists tr1, runs (saveAndPublish order) tr1 res /\ tr = tr0 ++ tr1
     end).
Proof.
  intros E. unfold Execute. rewrite E. rewrite runs_bind. split.
  - intros (tr0 & order & tr1 & H0 & H1 & ->). exists tr0, order.
    split; [exact H0 |]. destruct (Validate order) as [err |].
    + simpl in H1. apply runs_Log_iff in H1 as (tr' & -> & H1).
      apply runs_Ret_iff in H1 as [-> ->]. auto.
    + eauto.
  - intros (tr0 & order & H0 & H). destruct (Validate order) as [err |] eqn:Ev.
    + destruct H as [-> ->]. exists tr0, order, [CLog LError "Order validation failed"].
      rewrite Ev. split; [exact H0 |]. split; [| reflexivity].
      simpl. repeat constructor.
    + destruct H as (tr1 & H1 & ->). exists tr0, order, tr1. rewrite Ev. auto.
Qed.

(** C5. The dual-write policy of [CreateOrder]. For every request that passes
    request validation, a run of [Execute] first builds the aggregate (calls
    of the clock and of the id source only) and, once the aggregate passes
    [Validate], calls the repository's create. If create fails, the run ends
    there with one log line and the wrapped persistence error: no event is
    built (no further id or clock call) and nothing is published. If create
    succeeds, an order.created event is built from the order and published,
    and whatever the publisher answers, failure included, the use case
    returns the created order with its success message. Every such sequence
    of answers is a run. *)
Theorem CreateOrder_dual_write_policy :
  forall (req : CreateOrderRequest) tr res,
    validateRequest req = None ->
    (runs (Execute req) tr res <->
     exists tr0 order,
       runs (buildOrder req) tr0 order /\ Forall is_clock_or_id tr0 /\
       match Validate order with
       | Some err =>
           tr = tr0 ++ [CLog LError "Order validation failed"] /\
           res = inr (Errorf "order validation failed: %w" err)
       | None =>
           (exists err,
               tr = tr0 ++
                    [CRepoCreate order (Some err);
                     CLog LError "Failed to create order in database"] /\
               res = inr (Errorf "failed to save order: %w" err)) \/
           (exists id now pub,
               tr = tr0 ++
                    [CRepoCreate order None;
                     CLog LInfo "Order created successfully";
                     CUuidNew id; CTimeNow now;
                     CPublish (event_of order EventOrderCreated id now) pub;
                     match pub with
                     | Some _ =>
                         CLog LError "Failed to publish order created event"
                     | None => CLog LInfo "Order created event published"
                     end] /\
               res = inl (mkCreateOrderResponse order
                            "Order created successfully"))
       end).
Proof.
  intros req tr res E. rewrite (runs_Execute_accepted req tr res E). split.
  - intros (tr0 & order & H0 & H). exists tr0, order.
    split; [exact H0 |]. split; [eapply runs_buildOrder_calls; eauto |].
    destruct (Validate order); [exact H |].
    destruct H as (tr1 & H1 & ->).
    apply runs_saveAndPublish in H1
      as [(err & -> & ->) | (id & now & pub & -> & ->)]; eauto 10.
  - intros (tr0 & order & H0 & _ & H). exists tr0, order.
    split; [exact H0 |]. destruct (Validate order); [exact H |].
    destruct H as [(err & -> & ->) | (id & now & pub & -> & ->)];
      eexists; (split; [| reflexivity]); apply runs_saveAndPublish; eauto 10.
Qed.

(** The run in which the order is saved and the publisher fails: the use
    case still returns the created order. *)
Lemma CreateOrder_dual_write_witness :
  runs (Execute request_one_line)
    ([CTimeNow 0; CUuidNew 7%N; CUuidNew 8%N; CTimeNow 1] ++
     [CRepoCreate order_one_line None;
      CLog LInfo "Order created successfully";
      CUuidNew 9%N; CTimeNow 2;
      CPublish (event_of order_one_line EventOrderCreated 9%N 2)
        (Some (DriverError "broker unreachable"));
      CLog LError "Failed to publish order created event"])
    (inl (mkCreateOrderResponse order_one_line "Order created successfully")).
Proof.
  apply (proj2 (CreateOrder_dual_write_policy request_one_line _ _ eq_refl)).
  exists [CTimeNow 0; CUuidNew 7%N; CUuidNew 8%N; CTimeNow 1], order_one_line.
  split; [simpl; repeat constructor |].
  split; [repeat constructor |].
  change (Validate order_one_line) with (@None error).
  right. exists 9%N, 2, (Some (DriverError "broker unreachable")).
  split; reflexivity.
Defined.

(** C8, counterexample. The address "@a.b" contains "@" and its domain part
    "a.b" has 3 characters and contains ".", and "a@b@c.de" satisfies the
    rule as well, yet [validateEmail] refuses both (the first is shorter
    than 5 bytes, the second has two "@"), and so does [CreateOrder]. *)
Lemma email_rule_counterexample :
  (spec_email_valid "@a.b" /\ validateEmail "@a.b" = false) /\
  (spec_email_valid "a@b@c.de" /\ validateEmail "a@b@c.de" = false) /\
  validateRequest
    (mkCreateOrderRequest 1%N "@a.b"
       [mkCreateOrderItemRequest 2%N "widget" 10.99%float 2] "" None None None)
  = Some (NewValidationError "invalid email format" []).
Proof.
  split; [| split].
  - split; [| reflexivity]. exists "", "a.b". split; [reflexivity |].
    split; [simpl; lia |]. exists "a", "b". reflexivity.
  - split; [| reflexivity]. exists "a", "b@c.de". split; [reflexivity |].
    split; [simpl; lia |]. exists "b@c", "de". reflexivity.
  - reflexivity.
Qed.

(** C8, as amended. [CreateOrder] accepts an email exactly when it has at
    least 5 bytes and exactly one "@", and the part after the "@" has at
    least 3 bytes and contains ".". A request passes request validation
    exactly when its customer id is set, its email satisfies this rule, and
    it has at least one line, each with a product id, a name, a price not
    <= 0 and a positive quantity; so for every email satisfying the rule the
    email check passes. For every email violating the rule [Execute]
    returns a ValidationError after one log line, before any id is drawn and
    before any call of the repository. *)
Theorem CreateOrder_email_rule :
  (forall email : string,
      validateEmail email = true <->
      (5 <= String.length email)%nat /\
      exists loc domain : string,
        email = String.append loc (String.append "@" domain) /\
        Contains loc "@" = false /\ Contains domain "@" = false /\
        (3 <= String.length domain)%nat /\
        exists a b : string, domain = String.append a (String.append "." b)) /\
  (forall req : CreateOrderRequest,
      validateRequest req = None <->
      cr_CustomerID req <> uuid_Nil /\ validateEmail (cr_Email req) = true /\
      cr_Items req <> [] /\ Forall item_request_ok (cr_Items req)) /\
  (forall (req : CreateOrderRequest) tr res,
      validateEmail (cr_Email req) = false ->
      runs (Execute req) tr res ->
      tr = [CLog LError "Invalid create order request"] /\
      exists m,
        res = inr (Errorf "validation failed: %w" (ValidationError m))).
Proof.
  split; [| split].
  - intros email. rewrite validateEmail_iff. split.
    + intros (H5 & loc & domain & E & Ha & Hb & H3 & Hd).
      split; [exact H5 |]. exists loc, domain.
      apply Contains_iff in Hd. auto 10.
    + intros (H5 & loc & domain & E & Ha & Hb & H3 & Hd).
      split; [exact H5 |]. exists loc, domain.
      apply Contains_iff in Hd. auto 10.
  - exact validateRequest_None_iff.
  - intros req tr res Hbad H.
    destruct (validateRequest_bad_email req Hbad) as (m & E).
    destruct (runs_Execute_rejected req _ tr res E H) as [-> ->]. eauto.
Qed.

Lemma validateRequest_nonpositive_line (req : CreateOrderRequest) item :
  In item (cr_Items req) ->
  (ci_Price item <=? 0)%float = true \/ ci_Quantity item <= 0 ->
  exists m, validateRequest req = Some (ValidationError m).
Proof.
  intros Hin Hbad. destruct (validateRequest req) as [err |] eqn:E.
  - apply validateRequest_is_ValidationError in E as (m & ->). eauto.
  - exfalso. apply validateRequest_None_iff in E as (_ & _ & _ & H).
    apply list_elem_of_In in Hin.
    apply (proj1 (Forall_forall _ _) H) in Hin as (_ & _ & Hp & Hq).
    destruct Hbad; [congruence | lia].
Qed.

(** C3, counterexample. [AddItem] with price -5 and quantity 0 on an empty
    order: the line is appended and the order changes. *)
Lemma AddItem_accepts_nonpositive_line :
  exists tr o',
    runs (AddItem order_empty 2%N "widget" (-5)%float 0) tr o' /\
    (-5 <=? 0)%float = true /\ (0 <=? 0)%Z = true /\
    Items order_empty = [] /\
    Items o' = [mkOrderItem 8%N 7%N 2%N "widget" (-5)%float 0 (-0)%float].
Proof.
  eexists [CUuidNew 8%N; CTimeNow 1], _.
  split; [simpl; repeat constructor |]. repeat split.
Qed.

(** C3, as amended. [AddItem] has no guard: for every order, price and
    quantity it appends the line, with total price * quantity, and
    recomputes the order total. A price <= 0 or a quantity <= 0 is refused
    afterwards by [OrderItem.Validate], hence by [Order.Validate] for an
    order that holds such a line, and beforehand by the request validation
    of [CreateOrder], which returns a ValidationError after one log line,
    before any order is built. *)
Theorem AddItem_appends_and_validation_rejects_nonpositive :
  (forall o productID name price quantity tr o',
      runs (AddItem o productID name price quantity) tr o' ->
      exists id,
        Items o' =
          Items o ++
          [mkOrderItem id (ID o) productID name price quantity
             (price * float64_of_int quantity)%float] /\
        TotalAmount o' = float64_sum (map item_Total (Items o'))) /\
  (forall item : OrderItem,
      (item_Price item <=? 0)%float = true \/ item_Quantity item <= 0 ->
      exists m, OrderItem_Validate item = Some (ValidationError m)) /\
  (forall (o : Order) (item : OrderItem),
      In item (Items o) ->
      (item_Price item <=? 0)%float = true \/ item_Quantity item <= 0 ->
      exists m, Validate o = Some (ValidationError m)) /\
  (forall (req : CreateOrderRequest) item tr res,
      In item (cr_Items req) ->
      (ci_Price item <=? 0)%float = true \/ ci_Quantity item <= 0 ->
      runs (Execute req) tr res ->
      tr = [CLog LError "Invalid create order request"] /\
      exists m,
        res = inr (Errorf "validation failed: %w" (ValidationError m))).
Proof.
  split; [| split; [| split]].
  - intros o productID name price quantity tr o' H.
    apply runs_AddItem in H as (id & now & -> & ->). exists id.
    split; [reflexivity |]. simpl. apply fold_left_item_totals.
  - exact OrderItem_Validate_nonpositive.
  - exact Validate_nonpositive_line.
  - intros req item tr res Hin Hbad H.
    destruct (validateRequest_nonpositive_line req item Hin Hbad) as (m & E).
    destruct (runs_Execute_rejected req _ tr res E H) as [-> ->]. eauto.
Qed.

End CreateOrderFacts.

(** ** UpdateOrderStatus *)

Section UpdateOrderStatusFacts.
Import UpdateOrderStatusUseCase.

Lemma runs_publishAndRespond req oldStatus order tr res :
  runs (publishAndRespond req oldStatus order) tr res <->
  exists id now pub,
    tr = [CUuidNew id; CTimeNow now;
          CPublish (status_event req oldStatus order id now) pub;
          match pub with
          | Some _ => CLog LError "Failed to publish order status event"
          | None => CLog LInfo "Order status event published"
          end] /\
    res = inl (mkUpdateOrderStatusResponse order
                 (Sprintf "Order status updated from %s to %s"
                    [FString oldStatus; FString (us_NewStatus req)])
                 oldStatus (us_NewStatus req)).
Proof.
  unfold publishAndRespond. simpl. rewrite runs_UuidNew_iff. split.
  - intros (id & tr1 & -> & H).
    apply runs_TimeNow_iff in H as (now & tr2 & -> & H).
    apply runs_Publish_iff in H as (pub & tr3 & -> & H).
    exists id, now, pub.
    destruct pub; apply runs_Log_iff in H as (tr4 & -> & H);
      apply runs_Ret_iff in H as [-> ->]; auto.
  - intros (id & now & pub & -> & ->).
    eexists id, _. split; [reflexivity |].
    constructor. apply runs_Publish with (r := pub).
    destruct pub; repeat constructor.
Qed.

(** The runs of [UpdateOrderStatusUseCase.Execute]. *)
Lemma runs_UpdateOrderStatus (req : UpdateOrderStatusRequest) tr res :
  runs (Execute req) tr res <->
  match validateRequest req with
  | Some err =>
      tr = [CLog LError "Invalid update status request"] /\
      res = inr (Errorf "validation failed: %w" err)
  | None =>
      (exists err,
          tr = [CRepoGetByID (us_OrderID req) (inr err);
                CLog LError "Failed to get order"] /\
          res = inr (Errorf "failed to get order: %w" err)) \/
      (exists order,
          spec_in_table (Status order) (us_NewStatus req) = false /\
          tr = [CRepoGetByID (us_OrderID req) (inl order);
                CLog LError "Failed to update order status"] /\
          res = inr (Errorf "status update failed: %w"
                       (InvalidStatusTransitionError (Status order)
                          (us_NewStatus req)))) \/
      (exists order now err,
          spec_in_table (Status order) (us_NewStatus req) = true /\
          tr = [CRepoGetByID (us_OrderID req) (inl order); CTimeNow now;
                CRepoUpdate (updated_order req order now) (Some err);
                CLog LError "Failed to update order in database"] /\
          res = inr (Errorf "failed to save order: %w" err)) \/
      (exists order now tr1,
          spec_in_table (Status order) (us_NewStatus req) = true /\
          runs (publishAndRespond req (Status order)
                  (updated_order req order now)) tr1 res /\
          tr = [CRepoGetByID (us_OrderID req) (inl order); CTimeNow now;
                CRepoUpdate (updated_order req order now) None;
                CLog LInfo "Order status updated successfully"] ++ tr1)
  end.
Proof.
  unfold Execute. destruct (validateRequest req) as [verr |].
  { simpl. rewrite runs_Log_iff. split.
    - intros (tr' & -> & H). apply runs_Ret_iff in H as [-> ->]. auto.
    - intros [-> ->]. eexists. split; eauto. constructor. }
  unfold orderRepo_GetByID. cbn [bind]. rewrite runs_RepoGetByID_iff. split.
  - intros ([order | err] & tr0 & -> & H).
    + cbn [bind] in H. apply runs_bind in H as (tr1 & r & tr2 & H1 & H2 & ->).
      apply runs_UpdateStatus in H1.
      destruct (spec_in_table (Status order) (us_NewStatus req)) eqn:Et.
      * destruct H1 as (now & -> & ->). cbn [fst snd] in H2.
        fold (updated_order req order now) in H2.
        unfold orderRepo_Update in H2. cbn [bind] in H2.
        apply runs_RepoUpdate_iff in H2 as ([err |] & tr3 & -> & H2).
        -- simpl in H2. apply runs_Log_iff in H2 as (tr4 & -> & H2).
           apply runs_Ret_iff in H2 as [-> ->].
           right. right. left. exists order, now, err. auto.
        -- cbn [bind log] in H2. apply runs_Log_iff in H2 as (tr4 & -> & H2).
           cbn [bind] in H2.
           right. right. right. exists order, now, tr4. auto.
      * destruct H1 as [-> ->]. cbn [fst snd] in H2. simpl in H2.
        apply runs_Log_iff in H2 as (tr4 & -> & H2).
        apply runs_Ret_iff in H2 as [-> ->].
        right. left. exists order. auto.
    + simpl in H. apply runs_Log_iff in H as (tr4 & -> & H).
      apply runs_Ret_iff in H as [-> ->]. left. eauto.
  - intros [(err & -> & ->) | [(order & Et & -> & ->) |
            [(order & now & err & Et & -> & ->) |
             (order & now & tr1 & Et & H & ->)]]].
    + exists (inr err), [CLog LError "Failed to get order"].
      split; [reflexivity |]. simpl. repeat constructor.
    + exists (inl order), [CLog LError "Failed to update order status"].
      split; [reflexivity |]. cbn [bind]. apply runs_bind.
      eexists [], (order, Some (InvalidStatusTransitionError (Status order)
                                  (us_NewStatus req))), _.
      split; [apply runs_UpdateStatus; rewrite Et; auto |].
      split; [| reflexivity]. simpl. repeat constructor.
    + eexists (inl order), _. split; [reflexivity |].
      cbn [bind]. apply runs_bind.
      eexists [CTimeNow now],
        (set_UpdatedAt now (set_Status (us_NewStatus req) order), None), _.
      split; [apply runs_UpdateStatus; rewrite Et; eauto |].
      split; [| reflexivity]. cbn [fst snd].
      fold (updated_order req order now).
      unfold orderRepo_Update. cbn [bind].
      apply runs_RepoUpdate with (r := Some err). simpl. repeat constructor.
    + eexists (inl order), _. split; [reflexivity |].
      cbn [bind]. apply runs_bind.
      eexists [CTimeNow now],
        (set_UpdatedAt now (set_Status (us_NewStatus req) order), None), _.
      split; [apply runs_UpdateStatus; rewrite Et; eauto |].
      split; [| reflexivity]. cbn [fst snd].
      fold (updated_order req order now).
      unfold orderRepo_Update. cbn [bind].
      apply runs_RepoUpdate with (r := None). cbn [bind log].
      constructor. cbn [bind]. exact H.
Qed.

Lemma status_event_fields req oldStatus saved id now :
  let ev := status_event req oldStatus saved id now in
  ev_EventType ev = spec_event_type (us_NewStatus req) /\
  ev_OrderID ev = ID saved /\ ev_CustomerID ev = CustomerID saved /\
  ev_Status ev = Status saved /\ ev_TotalAmount ev = TotalAmount saved /\
  ev_Data ev !! "old_status" = Some (AString oldStatus) /\
  ev_Data ev !! "change_reason" = Some (AString (us_Reason req)).
Proof.
  cbv zeta. unfold status_event, set_Data, event_of. cbn.
  repeat split.
Qed.

Lemma updated_order_fields req order now :
  Status (updated_order req order now) = us_NewStatus req /\
  ID (updated_order req order now) = ID order /\
  UpdatedAt (updated_order req order now) = now.
Proof.
  unfold updated_order. destruct (negb (String.eqb (us_Reason req) ""));
    repeat split.
Qed.

(** C6. [UpdateOrderStatus] chooses the event type by the target status
    alone: confirmed, cancelled, shipped, delivered and refunded map to
    their own event type and every other target to order.status_changed.
    In every run, a published event comes after an order was loaded, the
    transition from its status to the target was in the table, and the
    updated order was saved; the event is built from that updated order
    (its id, and as status the target status), its type is the one the
    mapping gives for the target, and its data holds old_status, the status
    the order was loaded with, and change_reason, the reason of the request.
    Such a run exists for every loaded order whose transition is allowed,
    whatever the publisher answers, and returns old and new status. *)
Theorem UpdateOrderStatus_event_type_by_target_status :
  (forall target : OrderStatus, eventType target = spec_event_type target) /\
  (forall (req : UpdateOrderStatusRequest) tr res ev pub,
      runs (Execute req) tr res ->
      In (CPublish ev pub) tr ->
      exists order now id ts,
        In (CRepoGetByID (us_OrderID req) (inl order)) tr /\
        spec_in_table (Status order) (us_NewStatus req) = true /\
        In (CRepoUpdate (updated_order req order now) None) tr /\
        ev = status_event req (Status order) (updated_order req order now)
               id ts /\
        ev_EventType ev = spec_event_type (us_NewStatus req) /\
        ev_OrderID ev = ID order /\
        ev_Status ev = us_NewStatus req /\
        ev_Data ev !! "old_status" = Some (AString (Status order)) /\
        ev_Data ev !! "change_reason" = Some (AString (us_Reason req)) /\
        exists resp,
          res = inl resp /\ usresp_OldStatus resp = Status order /\
          usresp_NewStatus resp = us_NewStatus req) /\
  (forall (req : UpdateOrderStatusRequest) order now id ts pub,
      validateRequest req = None ->
      spec_in_table (Status order) (us_NewStatus req) = true ->
      exists res,
        runs (Execute req)
          [CRepoGetByID (us_OrderID req) (inl order); CTimeNow now;
           CRepoUpdate (updated_order req order now) None;
           CLog LInfo "Order status updated successfully";
           CUuidNew id; CTimeNow ts;
           CPublish
             (status_event req (Status order) (updated_order req order now)
                id ts) pub;
           match pub with
           | Some _ => CLog LError "Failed to publish order status event"
           | None => CLog LInfo "Order status event published"
           end]
          (inl res)).
Proof.
  split; [| split].
  - intros target. reflexivity.
  - intros req tr res ev pub H Hin. apply runs_UpdateOrderStatus in H.
    destruct (validateRequest req) as [verr |].
    { destruct H as [-> _]. simpl in Hin. intuition discriminate. }
    destruct H as [(err & -> & _) | [(order & _ & -> & _) |
                   [(order & now & err & _ & -> & _) |
                    (order & now & tr1 & Et & H & ->)]]];
      try (simpl in Hin; intuition discriminate).
    apply runs_publishAndRespond in H as (id & ts & pub' & -> & ->).
    assert (E : ev = status_event req (Status order)
                       (updated_order req order now) id ts).
    { simpl in Hin. destruct pub'; intuition (try discriminate); congruence. }
    destruct (status_event_fields req (Status order)
                (updated_order req order now) id ts)
      as (F1 & F2 & _ & F4 & _ & F6 & F7).
    destruct (updated_order_fields req order now) as (U1 & U2 & _).
    exists order, now, id, ts. rewrite E.
    split; [simpl; tauto |]. split; [exact Et |].
    split; [simpl; tauto |]. split; [reflexivity |].
    split; [exact F1 |]. split; [congruence |]. split; [congruence |].
    split; [exact F6 |]. split; [exact F7 |].
    eexists. split; [reflexivity |]. split; reflexivity.
  - intros req order now id ts pub Ev Et. eexists.
    apply runs_UpdateOrderStatus. rewrite Ev.
    right. right. right. exists order, now. eexists.
    split; [exact Et |]. split; [| reflexivity].
    apply runs_publishAndRespond. exists id, ts, pub. split; reflexivity.
Qed.

End UpdateOrderStatusFacts.

(** ** The aggregate CreateOrder builds *)

Section BuildOrderFacts.
Import CreateOrderUseCase.



End BuildOrderFacts.

(** ** The PostgreSQL repository *)

Section PostgresFacts.
Import postgres.

(** [Delete] computed: one reading of the clock, one call on the database. *)
Lemma Delete_eq (eng : Engine) (id : UUID) (w : World) :
  Delete eng id w =
  let w' := set_calls (S (w_calls w)) (set_ticks (S (w_ticks w)) w) in
  match w_faults w (w_calls w) with
  | Some text =>
      (Some (Errorf "failed to delete order: %w" (DriverError text)), w')
  | None =>
      (if (length (filter (Delete_guard id) (orders (w_db w))) =? 0)%nat
       then Some (OrderNotFoundError id) else None,
       set_db
         (mkDatabase
            (map (fun r =>
                    if Delete_guard id r
                    then cancelled_row (w_db_clock w (w_calls w)) r else r)
               (orders (w_db w)))
            (order_items (w_db w)) (order_addresses (w_db w)))
         w')
  end.
Proof.
  unfold Delete, exec_update, remote_call, now. cbn.
  destruct (w_faults w (w_calls w)); cbn; [reflexivity |].
  destruct (length (filter (Delete_guard id) (orders (w_db w))) =? 0)%nat;
    reflexivity.
Qed.

Lemma Delete_guard_iff (id : UUID) (r : OrderRow) :
  Delete_guard id r = true <->
  row_id r = id /\ row_status r <> "delivered" /\
  row_status r <> "refunded" /\ row_status r <> "cancelled".
Proof.
  unfold Delete_guard. cbn [existsb].
  rewrite andb_true_iff, N.eqb_eq, negb_true_iff, orb_false_r, !orb_false_iff.
  rewrite !String.eqb_neq. tauto.
Qed.

Lemma filter_nil_iff {A} (g : A -> bool) (l : list A) :
  filter g l = [] <-> forall x, In x l -> g x = false.
Proof.
  induction l as [|x l IH].
  - split; [intros _ ? [] | reflexivity].
  - rewrite filter_cons. destruct (g x) eqn:E; cbn [decide_rel Is_true_dec].
    + split; [discriminate |].
      intros H. specialize (H x (or_introl eq_refl)). congruence.
    + rewrite IH. split.
      * intros H y [<- | Hy]; auto.
      * intros H y Hy. apply H. now right.
Qed.

Lemma map_unguarded {A} (g : A -> bool) (f : A -> A) (l : list A) :
  filter g l = [] -> map (fun r => if g r then f r else r) l = l.
Proof.
  rewrite filter_nil_iff. induction l as [|x l IH]; intros H; cbn [map].
  - reflexivity.
  - rewrite (H x (or_introl eq_refl)). f_equal. apply IH.
    intros y Hy. apply H. now right.
Qed.

(** C4, counterexample. A stored order in status shipped: the state machine
    does not allow shipped to cancelled, yet [Delete] reports success and
    the stored status is cancelled. *)
Lemma Delete_cancels_a_shipped_order :
  map row_status (orders database_shipped) = ["shipped"] /\
  spec_in_table "shipped" "cancelled" = false /\
  fst (Delete example_engine 3%N (example_world database_shipped)) = None /\
  map row_status
    (orders
       (w_db (snd (Delete example_engine 3%N
                     (example_world database_shipped))))) = ["cancelled"].
Proof. repeat split. Qed.

(** C4, as amended. [Delete] is a logical delete with a guard of its own,
    which is not the state machine. When the UPDATE itself does not fail:
    every stored order with the given id whose status is not delivered,
    refunded or cancelled gets status cancelled, and every other row is left
    as it is; the call succeeds exactly when there is such an order, and
    otherwise (no order with this id, or one already delivered, refunded or
    cancelled: zero rows affected) it changes nothing and reports
    OrderNotFound. Among the seven statuses the guard lets through those
    from which the state machine allows cancelled, and shipped besides. When
    the UPDATE fails, the error is wrapped and nothing changes. *)
Theorem Delete_cancels_unless_delivered_refunded_cancelled :
  forall (eng : Engine) (id : UUID) (w : World),
    w_faults w (w_calls w) = None ->
    let db_now := w_db_clock w (w_calls w) in
    let err := fst (Delete eng id w) in
    let d := w_db w in
    let d' := w_db (snd (Delete eng id w)) in
    (forall r, Delete_guard id r = true <->
               row_id r = id /\ row_status r <> "delivered" /\
               row_status r <> "refunded" /\ row_status r <> "cancelled") /\
    orders d' =
      map (fun r => if Delete_guard id r then cancelled_row db_now r else r)
        (orders d) /\
    order_items d' = order_items d /\
    order_addresses d' = order_addresses d /\
    (err = None <-> exists r, In r (orders d) /\ Delete_guard id r = true) /\
    (err <> None -> err = Some (OrderNotFoundError id) /\ d' = d) /\
    (forall s, In s known_statuses ->
               (negb (existsb (String.eqb s)
                        ["delivered"; "refunded"; "cancelled"]) = true <->
                spec_in_table s "cancelled" = true \/ s = "shipped")).
Proof.
  intros eng id w Hok db_now err d d'. subst db_now err d d'.
  rewrite Delete_eq. cbv zeta. rewrite Hok. cbn [fst snd w_db set_db].
  split; [apply Delete_guard_iff |].
  split; [reflexivity |]. split; [reflexivity |]. split; [reflexivity |].
  destruct (filter (Delete_guard id) (orders (w_db w))) as [|r0 l] eqn:Ef;
    cbn [length Nat.eqb].
  - split; [| split].
    + split; [discriminate |]. intros (r & Hin & Hg).
      apply (proj1 (filter_nil_iff _ _) Ef) in Hin. congruence.
    + intros _. split; [reflexivity |].
      rewrite (map_unguarded _ _ _ Ef). now destruct (w_db w).
    + intros s Hs. simpl in Hs.
      destruct Hs as [<- | [<- | [<- | [<- | [<- | [<- | [<- | []]]]]]]];
        vm_compute; intuition discriminate.
  - split; [| split].
    + split; [| reflexivity]. intros _. exists r0.
      assert (Hr0 : r0 ∈ filter (Delete_guard id) (orders (w_db w)))
        by (rewrite Ef; left).
      apply list_elem_of_filter in Hr0 as [Hg Hin].
      split; [now apply list_elem_of_In |]. now destruct (Delete_guard id r0).
    + intros H. now contradiction H.
    + intros s Hs. simpl in Hs.
      destruct Hs as [<- | [<- | [<- | [<- | [<- | [<- | [<- | []]]]]]]];
        vm_compute; intuition discriminate.
Qed.

(** The shipped order of the example is cancelled by [Delete]. *)
Lemma Delete_cancels_witness :
  orders (w_db (snd (Delete example_engine 3%N
                       (example_world database_shipped)))) =
  [cancelled_row 500 (mkOrderRow 3%N 1%N "ann@shop.io" "shipped" 21.98%float
                        "USD" 10 20)].
Proof.
  exact (proj1 (proj2 (Delete_cancels_unless_delivered_refunded_cancelled
                         example_engine 3%N (example_world database_shipped)
                         eq_refl))).
Defined.

(** *** Create *)

Lemma same_header_refl (l : list OrderRow) : Forall2 same_header l l.
Proof. induction l; constructor; auto. repeat split. Qed.

Lemma same_header_trans (l1 l2 l3 : list OrderRow) :
  Forall2 same_header l1 l2 -> Forall2 same_header l2 l3 ->
  Forall2 same_header l1 l3.
Proof.
  intros H. revert l3. induction H as [|a b l1 l2 Hab _ IH]; intros l3 H3.
  - inversion H3. constructor.
  - inversion H3 as [|b' c l2' l3' Hbc Hrest]; subst. constructor; [| auto].
    destruct Hab as (? & ? & ? & ? & ?), Hbc as (? & ? & ? & ? & ?).
    repeat split; congruence.
Qed.

Lemma exec_statement_ok stmt (w : World) (d d' : Database) (w' : World) :
  exec_statement stmt w d = (inl d', w') ->
  w_faults w (w_calls w) = None /\
  stmt (w_db_clock w (w_calls w)) d = inl d' /\
  w' = set_calls (S (w_calls w)) w.
Proof.
  unfold exec_statement, remote_call.
  destruct (w_faults w (w_calls w)); [discriminate |].
  intros [= -> <-]. auto.
Qed.

Lemma insert_order_ok eng o d d' :
  insert_order eng o d = inl d' ->
  has_order d (ID o) = false /\
  d' = mkDatabase (orders d ++ [stored_row eng o]) (order_items d)
         (order_addresses d) /\
  row_ok eng o = true.
Proof.
  unfold insert_order. destruct (row_ok eng o); [| discriminate].
  cbn [negb]. destruct (has_order d (ID o)); [discriminate |].
  intros [= <-]. auto.
Qed.

Lemma trigger_same_header eng db_now order_id d :
  Forall2 same_header (orders d)
    (orders (update_order_total_on_item_change eng db_now order_id d)).
Proof.
  unfold update_order_total_on_item_change. cbn [orders].
  induction (orders d) as [|r l IH]; cbn [map]; constructor; [| exact IH].
  destruct (N.eqb (row_id r) order_id); repeat split.
Qed.

Lemma insert_item_ok eng db_now item d d' :
  insert_item eng db_now item d = inl d' ->
  Forall2 same_header (orders d) (orders d') /\
  order_items d' = order_items d ++ [stored_item eng item] /\
  order_addresses d' = order_addresses d /\
  item_ok eng item = true.
Proof.
  unfold insert_item. destruct (item_ok eng item); [| discriminate].
  cbn [negb].
  destruct (existsb _ (order_items d)); [discriminate |].
  destruct (has_order d (item_OrderID item)); [| discriminate].
  cbn [negb]. intros [= <-]. split; [| repeat split; reflexivity].
  apply (trigger_same_header eng db_now (item_OrderID item)
           (mkDatabase (orders d) (order_items d ++ [stored_item eng item])
              (order_addresses d))).
Qed.

Lemma insertOrderItems_ok eng (items : list OrderItem) :
  forall w tx tx' w',
    insertOrderItems eng items w tx = (inl tx', w') ->
    Forall2 same_header (orders tx) (orders tx') /\
    order_items tx' = order_items tx ++ map (stored_item eng) items /\
    order_addresses tx' = order_addresses tx /\
    Forall (fun item => item_ok eng item = true) items.
Proof.
  induction items as [|item rest IH]; intros w tx tx' w' H;
    cbn [insertOrderItems] in H.
  - injection H as <- <-. rewrite app_nil_r.
    split; [apply same_header_refl | auto].
  - destruct (exec_statement _ w tx) as [[tx1 | err] w1] eqn:E;
      [| discriminate].
    apply exec_statement_ok in E as (_ & E & _).
    apply insert_item_ok in E as (H1 & H2 & H3 & H0).
    apply IH in H as (H4 & H5 & H6 & H7).
    split; [eapply same_header_trans; eauto |].
    split; [| split; [congruence | now constructor]].
    rewrite H5, H2, <- app_assoc. reflexivity.
Qed.

Lemma insertAddress_ok eng a w tx tx' w' :
  insertAddress eng a w tx = (inl tx', w') ->
  tx' = mkDatabase (orders tx) (order_items tx)
          (order_addresses tx ++ [stored_address eng a]) /\
  address_ok eng a = true.
Proof.
  unfold insertAddress. intros H.
  apply exec_statement_ok in H as (_ & H & _). unfold insert_address in H.
  destruct (address_ok eng a); [| discriminate]. cbn [negb] in H.
  destruct (existsb _ (order_addresses tx)); [discriminate |].
  destruct (has_order tx (addr_OrderID a)); [| discriminate].
  now injection H as <-.
Qed.

(** What a successful [Create] leaves in the database: a new row for the
    order, whose id was free, and the rows of its items and addresses; the
    columns took every text of the order. *)
Lemma Create_ok eng (order : Order) (w w1 : World) :
  Create eng order w = (None, w1) ->
  has_order (w_db w) (ID order) = false /\
  Forall2 same_header (orders (w_db w) ++ [stored_row eng order])
    (orders (w_db w1)) /\
  order_items (w_db w1) =
    order_items (w_db w) ++ map (stored_item eng) (Items order) /\
  order_addresses (w_db w1) =
    order_addresses (w_db w) ++ map (stored_address eng) (address_rows order) /\
  row_ok eng order = true /\
  Forall (fun item => item_ok eng item = true) (Items order) /\
  Forall (fun a => address_ok eng a = true) (address_rows order).
Proof.
  unfold Create, remote_call.
  destruct (w_faults w (w_calls w)); [discriminate |].
  set (w0 := set_calls (S (w_calls w)) w).
  change (w_db w) with (w_db w0).
  unfold Create_statements.
  destruct (exec_statement _ w0 (w_db w0)) as [[tx1 | err] wa] eqn:E1;
    [| discriminate].
  apply exec_statement_ok in E1 as (_ & E1 & _).
  apply insert_order_ok in E1 as (Hfree & -> & Hrow).
  set (tx1 := mkDatabase _ _ _).
  assert (Hitems : (exists tx2 wb,
             (if (0 <? length (Items order))%nat
              then insertOrderItems eng (Items order) wa tx1
              else (inl tx1, wa)) = (inl tx2, wb) /\
             Forall2 same_header (orders tx1) (orders tx2) /\
             order_items tx2 =
               order_items tx1 ++ map (stored_item eng) (Items order) /\
             order_addresses tx2 = order_addresses tx1 /\
             Forall (fun item => item_ok eng item = true) (Items order))
          \/ exists err wb,
             (if (0 <? length (Items order))%nat
              then insertOrderItems eng (Items order) wa tx1
              else (inl tx1, wa)) = (inr err, wb)).
  { destruct (Items order) as [|i l] eqn:Ei; cbn [length Nat.ltb Nat.leb].
    - left. exists tx1, wa. cbn. rewrite app_nil_r.
      split; [reflexivity |]. split; [apply same_header_refl | auto].
    - change (0 <? S (length l))%nat with true. cbn iota.
      destruct (insertOrderItems eng (i :: l) wa tx1) as [[tx2 | err] wb]
        eqn:E2.
      + left. exists tx2, wb. split; [reflexivity |].
        eapply insertOrderItems_ok; eauto.
      + right. eauto. }
  destruct Hitems as [(tx2 & wb & -> & Hh & Hi & Ha & Hio) | (err & wb & ->)];
    [| discriminate].
  unfold address_rows.
  destruct (ShippingAddress order) as [sa |].
  - destruct (insertAddress eng sa wb tx2) as [[tx3 | err] wc] eqn:E3;
      [| discriminate].
    apply insertAddress_ok in E3 as [-> Hsa].
    destruct (BillingAddress order) as [ba |].
    + destruct (insertAddress eng ba wc _) as [[tx4 | err] wd] eqn:E4;
        [| discriminate].
      apply insertAddress_ok in E4 as [-> Hba].
      destruct (w_faults wd (w_calls wd)); [discriminate |].
      intros [= <-]. cbn. split; [exact Hfree |]. split; [exact Hh |].
      split; [exact Hi |].
      split; [rewrite Ha, <- app_assoc; reflexivity |].
      split; [exact Hrow |]. split; [exact Hio |]. repeat constructor; auto.
    + destruct (w_faults wc (w_calls wc)); [discriminate |].
      intros [= <-]. cbn. split; [exact Hfree |]. split; [exact Hh |].
      split; [exact Hi |]. split; [rewrite Ha; reflexivity |].
      split; [exact Hrow |]. split; [exact Hio |]. repeat constructor; auto.
  - destruct (BillingAddress order) as [ba |].
    + destruct (insertAddress eng ba wb _) as [[tx4 | err] wd] eqn:E4;
        [| discriminate].
      apply insertAddress_ok in E4 as [-> Hba].
      destruct (w_faults wd (w_calls wd)); [discriminate |].
      intros [= <-]. cbn. split; [exact Hfree |]. split; [exact Hh |].
      split; [exact Hi |]. split; [rewrite Ha; reflexivity |].
      split; [exact Hrow |]. split; [exact Hio |]. repeat constructor; auto.
    + destruct (w_faults wb (w_calls wb)); [discriminate |].
      intros [= <-]. cbn. split; [exact Hfree |]. split; [exact Hh |].
      split; [exact Hi |]. split; [rewrite Ha, app_nil_r; reflexivity |].
      split; [exact Hrow |]. split; [exact Hio |]. constructor.
Qed.

(** *** GetByID *)

(** [GetByID] computed, when its three queries do not fail and the order's
    row exists: the items and the address rows are those the loops over the
    rows of the second and of the third query have seen. *)
Lemma GetByID_found eng (id : UUID) (w : World) (r : OrderRow) :
  w_faults w (w_calls w) = None ->
  w_faults w (S (w_calls w)) = None ->
  w_faults w (S (S (w_calls w))) = None ->
  find (fun r => N.eqb (row_id r) id) (orders (w_db w)) = Some r ->
  GetByID eng id w =
  (inl (attach_addresses
          (rows_read (w_cuts w (S (S (w_calls w))))
             (order_addresses_of eng id (w_db w)))
          (mkOrder (row_id r) (row_customer_id r) (row_email r)
             (row_status r) (row_total_amount r) (row_currency r)
             (rows_read (w_cuts w (S (w_calls w)))
                (order_items_of eng id (w_db w)))
             (row_created_at r) (row_updated_at r) None None ∅)),
   set_calls (S (S (S (w_calls w)))) w).
Proof.
  intros H0 H1 H2 Hf.
  unfold GetByID, getOrderItems, getOrderAddresses, query_call, remote_call.
  rewrite H0. cbn [w_db set_calls w_faults w_calls w_cuts]. rewrite Hf, H1.
  cbn [w_db set_calls w_faults w_calls w_cuts]. rewrite H2. reflexivity.
Qed.





(** *** The use cases over the repository *)




(** The rows a loop has seen are among the rows selected, and are all of
    them when the iteration did not break off. *)
Lemma rows_read_prefix {A} (cut : option nat) (rows : list A) :
  exists rest, rows = rows_read cut rows ++ rest.
Proof.
  destruct cut as [k |]; cbn [rows_read].
  - exists (skipn k rows). symmetry. apply firstn_skipn.
  - exists []. now rewrite app_nil_r.
Qed.

Lemma rows_read_incl {A} (cut : option nat) (rows : list A) (x : A) :
  In x (rows_read cut rows) -> In x rows.
Proof.
  intros H. destruct (rows_read_prefix cut rows) as [rest E].
  rewrite E. apply in_or_app. now left.
Qed.

(** A text a VARCHAR(n) column took, read back. *)
Lemma read_back_intro eng (n : nat) (s : string) :
  varchar_ok eng n s = true -> read_back eng n s (varchar eng n s).
Proof.
  intros H. split; [reflexivity |].
  split; [apply varchar_short | apply varchar_cut, H].
Qed.






(** The loop over the address rows keeps the rest of the order, and an
    address it attaches is one of the rows, of the type of its slot. *)
Lemma attach_addresses_inv (l : list Address) :
  forall o : Order,
    let o' := attach_addresses l o in
    (ID o' = ID o /\ CustomerID o' = CustomerID o /\ Email o' = Email o /\
     Status o' = Status o /\ TotalAmount o' = TotalAmount o /\
     Currency o' = Currency o /\ Items o' = Items o /\
     CreatedAt o' = CreatedAt o /\ UpdatedAt o' = UpdatedAt o /\
     Metadata o' = Metadata o) /\
    (forall a, ShippingAddress o' = Some a ->
               ShippingAddress o = Some a \/
               (In a l /\ addr_Type a = "shipping")) /\
    (forall a, BillingAddress o' = Some a ->
               BillingAddress o = Some a \/
               (In a l /\ addr_Type a = "billing")).
Proof.
  induction l as [|x l IH]; intros o; cbn [attach_addresses].
  - cbv zeta. repeat split; auto.
  - cbv zeta in *.
    match goal with
    | |- context [attach_addresses l ?o1] =>
        destruct (IH o1) as (Hh & Hs & Hb); set (o1' := o1) in *
    end.
    split; [| split].
    + destruct Hh as (H1 & H2 & H3 & H4 & H5 & H6 & H7 & H8 & H9 & H10).
      subst o1'.
      destruct (String.eqb (addr_Type x) "shipping");
        [| destruct (String.eqb (addr_Type x) "billing")];
        cbn in *; repeat split; assumption.
    + intros a Ha. destruct (Hs a Ha) as [Hs' | [Hin Ht]].
      * subst o1'.
        destruct (String.eqb_spec (addr_Type x) "shipping") as [Es | Es];
          [| destruct (String.eqb (addr_Type x) "billing")];
          cbn in Hs'; auto.
        injection Hs' as <-. right. split; [now left | exact Es].
      * right. split; [now right | exact Ht].
    + intros a Ha. destruct (Hb a Ha) as [Hb' | [Hin Ht]].
      * subst o1'.
        destruct (String.eqb_spec (addr_Type x) "shipping") as [Es | Es];
          [| destruct (String.eqb_spec (addr_Type x) "billing") as [Eb | Eb]];
          cbn in Hb'; auto.
        injection Hb' as <-. right. split; [now left | exact Eb].
      * right. split; [now right | exact Ht].
Qed.


(** A valid request whose currency is "USD " (with a trailing space), on an
    empty database in a world where no call fails: [CreateOrder] returns an
    order with that currency, and [GetOrder] on its id returns the order
    with the currency "USD", which is what the VARCHAR(3) column holds. *)
Lemma trailing_spaces_are_not_persisted :
  exists resp w1 tr1 got w2 tr2,
    exec (env example_engine) (CreateOrderUseCase.Execute request_usd_space)
      (example_world database_empty) = (inl resp, w1, tr1) /\
    exec (env example_engine)
      (GetOrderUseCase.Execute (mkGetOrderRequest (ID (cresp_Order resp))))
      w1 = (inl (mkGetOrderResponse got), w2, tr2) /\
    CreateOrderUseCase.validateRequest request_usd_space = None /\
    Currency (cresp_Order resp) = "USD " /\
    Currency got = "USD".
Proof.
  do 6 eexists. split; [vm_compute; reflexivity |].
  split; [vm_compute; reflexivity |]. repeat split.
Qed.

(** A valid request with two lines, on an empty database, in a world where
    no call fails but the iteration over the item rows of the order breaks
    off after the first row: [GetOrder] succeeds and returns the order with
    one item. *)
Lemma broken_iteration_is_not_reported :
  exists resp w1 tr1 got w2 tr2,
    exec (env example_engine) (CreateOrderUseCase.Execute request_two_lines)
      (example_world_cut 7 1 database_empty) = (inl resp, w1, tr1) /\
    exec (env example_engine)
      (GetOrderUseCase.Execute (mkGetOrderRequest (ID (cresp_Order resp))))
      w1 = (inl (mkGetOrderResponse got), w2, tr2) /\
    length (Items (cresp_Order resp)) = 2%nat /\
    length (Items got) = 1%nat.
Proof.
  do 6 eexists. split; [vm_compute; reflexivity |].
  split; [vm_compute; reflexivity |]. repeat split.
Qed.



End PostgresFacts.

(* ===================================================================== *)
(** * Further properties of the code                                     *)
(* ===================================================================== *)

(** ** The aggregate: lines, units, lifecycle and validation *)

Section AggregateFacts.


(** The index the loop stops at is the place of the first line that carries
    the id. *)
Lemma RemoveItem_index_Some (itemID : UUID) (items : list OrderItem) (i : nat) :
  RemoveItem_index itemID items = Some i <->
  exists before item after,
    items = before ++ item :: after /\ length before = i /\
    Forall (fun item => item_ID item <> itemID) before /\
    item_ID item = itemID.
Proof.
  revert i. induction items as [|x rest IH]; intros i; cbn [RemoveItem_index].
  - split; [discriminate |]. intros (b & it & a & E & _).
    destruct b; discriminate.
  - destruct (N.eqb_spec (item_ID x) itemID) as [E | E].
    + split.
      * intros [= <-]. exists [], x, rest. repeat split; auto.
      * intros ([|y b] & it & a & Ei & Hl & Hb & Hit).
        -- cbn in Hl. now subst.
        -- cbn [app] in Ei. injection Ei as <- _.
           inversion Hb; subst. contradiction.
    + split.
      * destruct (RemoveItem_index itemID rest) as [j |] eqn:Ej;
          cbn [option_map]; [| discriminate].
        intros [= <-].
        destruct (proj1 (IH j) eq_refl) as (b & it & a & -> & Hl & Hb & Hit).
        exists (x :: b), it, a. cbn [length app].
        repeat split; auto.
      * intros ([|y b] & it & a & Ei & Hl & Hb & Hit).
        -- cbn [app] in Ei. injection Ei as <- _. contradiction.
        -- cbn [app] in Ei. injection Ei as <- ->.
           inversion Hb; subst. cbn [length].
           rewrite (proj2 (IH (length b))); [reflexivity |].
           exists b, it, a. auto.
Qed.

Lemma firstn_skipn_middle {A} (before after : list A) (x : A) :
  firstn (length before) (before ++ x :: after) ++
  skipn (S (length before)) (before ++ x :: after) = before ++ after.
Proof.
  induction before as [|y b IH]; cbn [length app firstn skipn].
  - reflexivity.
  - f_equal. exact IH.
Qed.


Lemma sum_Z_app (l1 l2 : list Z) : sum_Z (l1 ++ l2) = sum_Z l1 + sum_Z l2.
Proof.
  unfold sum_Z. induction l1 as [|x l1 IH]; cbn [app fold_right];
    [reflexivity | rewrite IH; lia].
Qed.

(** Wrapping after each addition is wrapping the whole sum. *)
Lemma int_wrap_add_l (a b : Z) : int_wrap (int_wrap a + b) = int_wrap (a + b).
Proof.
  unfold int_wrap.
  replace ((a + 2 ^ 63) mod 2 ^ 64 - 2 ^ 63 + b + 2 ^ 63)
    with ((a + 2 ^ 63) mod 2 ^ 64 + b) by lia.
  rewrite Zplus_mod_idemp_l. do 2 f_equal. lia.
Qed.

Lemma int_wrap_in_range (z : Z) :
  - 2 ^ 63 <= z <= 2 ^ 63 - 1 -> int_wrap z = z.
Proof.
  intros H. unfold int_wrap. rewrite Z.mod_small by lia. lia.
Qed.

Lemma int_wrap_range (z : Z) : - 2 ^ 63 <= int_wrap z <= 2 ^ 63 - 1.
Proof.
  unfold int_wrap.
  pose proof (Z.mod_pos_bound (z + 2 ^ 63) (2 ^ 64) ltac:(lia)). lia.
Qed.

Lemma fold_left_quantities (items : list OrderItem) (acc : Z) :
  fold_left (fun count item => int_wrap (count + item_Quantity item)) items
    (int_wrap acc) =
  int_wrap (acc + sum_Z (map item_Quantity items)).
Proof.
  revert acc. induction items as [|x rest IH]; intros acc;
    cbn [fold_left map sum_Z fold_right].
  - f_equal. lia.
  - rewrite int_wrap_add_l, IH. f_equal. unfold sum_Z. lia.
Qed.

Lemma GetItemCount_sum (o : Order) :
  GetItemCount o = int_wrap (sum_Z (map item_Quantity (Items o))).
Proof.
  unfold GetItemCount. change 0 with (int_wrap 0) at 1.
  now rewrite fold_left_quantities.
Qed.

(** X2. [GetItemCount] counts units, not lines, in a 64-bit int: it is the
    sum of the quantities of the lines, wrapped around to the range of an
    int, so the sum itself whenever that lies between -2^63 and 2^63 - 1
    (0 for an order without lines), and always a value of that range.
    Against every environment, [AddItem] raises it by the quantity added
    (which the method does not check, so by a negative number for a negative
    quantity) and a successful [RemoveItem] lowers it by the quantity of the
    line removed, both modulo 2^64: an order of two lines of 2^62 units and
    one of 2^63 - 1 units counts -1. The item_count that [ToEvent] puts in
    the event data is this number, beside the email of the order. *)
Theorem GetItemCount_counts_units :
  (forall o : Order,
      GetItemCount o = int_wrap (sum_Z (map item_Quantity (Items o))) /\
      - 2 ^ 63 <= GetItemCount o <= 2 ^ 63 - 1 /\
      (- 2 ^ 63 <= sum_Z (map item_Quantity (Items o)) <= 2 ^ 63 - 1 ->
       GetItemCount o = sum_Z (map item_Quantity (Items o)))) /\
  (forall o productID name price quantity tr o',
      runs (AddItem o productID name price quantity) tr o' ->
      GetItemCount o' = int_wrap (GetItemCount o + quantity) /\
      (- 2 ^ 63 <= GetItemCount o + quantity <= 2 ^ 63 - 1 ->
       GetItemCount o' = GetItemCount o + quantity)) /\
  (forall o itemID tr o',
      runs (RemoveItem o itemID) tr (o', true) ->
      exists item,
        In item (Items o) /\ item_ID item = itemID /\
        length (Items o) = S (length (Items o')) /\
        GetItemCount o' = int_wrap (GetItemCount o - item_Quantity item) /\
        (- 2 ^ 63 <= GetItemCount o - item_Quantity item <= 2 ^ 63 - 1 ->
         GetItemCount o' = GetItemCount o - item_Quantity item)) /\
  (forall o eventType tr ev,
      runs (ToEvent o eventType) tr ev ->
      ev_Data ev !! "item_count" = Some (AInt (GetItemCount o)) /\
      ev_Data ev !! "email" = Some (AString (Email o)) /\
      size (ev_Data ev) = 2%nat) /\
  (forall o : Order,
      map item_Quantity (Items o) = [2 ^ 62; 2 ^ 62; 2 ^ 63 - 1] ->
      GetItemCount o = - 1).
Proof.
  split; [| split; [| split; [| split]]].
  - intros o. rewrite GetItemCount_sum.
    split; [reflexivity |]. split; [apply int_wrap_range |].
    apply int_wrap_in_range.
  - intros o productID name price quantity tr o' H.
    apply runs_AddItem in H as (id & now & _ & ->).
    assert (E : GetItemCount
                  (set_UpdatedAt now
                     (calculateTotal
                        (set_Items
                           (Items o ++
                            [mkOrderItem id (ID o) productID name price
                               quantity (price * float64_of_int quantity)])
                           o))) =
                int_wrap (GetItemCount o + quantity)).
    { rewrite !GetItemCount_sum. cbn [Items set_UpdatedAt calculateTotal
        set_TotalAmount set_Items].
      rewrite map_app, sum_Z_app, int_wrap_add_l. cbn. f_equal. lia. }
    split; [exact E |]. intros Hr. rewrite E. now apply int_wrap_in_range.
  - intros o itemID tr o' H. apply runs_RemoveItem in H.
    destruct (RemoveItem_index itemID (Items o)) as [i |] eqn:Ei;
      [| destruct H as [_ [=]]].
    destruct H as (now & _ & [= ->]).
    apply RemoveItem_index_Some in Ei as (b & it & a & E & <- & _ & Hit).
    exists it.
    assert (Ec : GetItemCount
                   (set_UpdatedAt now
                      (calculateTotal
                         (set_Items
                            (firstn (length b) (Items o) ++
                             skipn (S (length b)) (Items o)) o))) =
                 int_wrap (GetItemCount o - item_Quantity it)).
    { rewrite !GetItemCount_sum.
      cbn [Items set_UpdatedAt calculateTotal set_TotalAmount set_Items].
      rewrite E, firstn_skipn_middle, <- Z.add_opp_r, int_wrap_add_l.
      rewrite !map_app, !sum_Z_app. cbn [map sum_Z fold_right]. unfold sum_Z.
      f_equal. lia. }
    split; [rewrite E; apply in_or_app; right; now left |].
    split; [exact Hit |]. split.
    + cbn [Items set_UpdatedAt calculateTotal set_TotalAmount set_Items].
      rewrite E, firstn_skipn_middle, !length_app. cbn [length]. lia.
    + split; [exact Ec |]. intros Hr. rewrite Ec.
      now apply int_wrap_in_range.
  - intros o eventType tr ev H. unfold ToEvent in H. simpl in H.
    apply runs_UuidNew_iff in H as (id & tr1 & -> & H).
    apply runs_TimeNow_iff in H as (now & tr2 & -> & H).
    apply runs_Ret_iff in H as [-> ->]. cbn [ev_Data].
    repeat split; reflexivity.
  - intros o E. rewrite GetItemCount_sum, E. reflexivity.
Qed.

(** Every allowed transition moves the order further along its life. *)
Lemma spec_in_table_rank (from to : OrderStatus) :
  spec_in_table from to = true ->
  (status_rank from < status_rank to <= 5)%nat.
Proof.
  intros H. apply spec_in_table_pairs in H. simpl in H.
  repeat match goal with
         | H : _ \/ _ |- _ => destruct H as [H | H]
         end; try contradiction; injection H as <- <-; vm_compute; lia.
Qed.

Lemma status_rank_bound (s : OrderStatus) : (status_rank s <= 5)%nat.
Proof.
  unfold status_rank.
  repeat match goal with
         | |- context [if ?c then _ else _] => destruct c
         end; lia.
Qed.

Lemma last_cons {A} (l : list A) :
  forall x d : A, List.last (x :: l) d = List.last l x.
Proof.
  induction l as [|y l IH]; intros x d; [reflexivity |].
  change (List.last (x :: y :: l) d) with (List.last (y :: l) d).
  now rewrite !IH.
Qed.

Lemma runs_UpdateStatus_all (targets : list OrderStatus) :
  forall o tr o',
    runs (UpdateStatus_all o targets) tr (o', None) ->
    Status o' = List.last targets (Status o) /\
    (status_rank (Status o) + length targets <= status_rank (Status o'))%nat /\
    Forall (fun s => (status_rank (Status o) < status_rank s)%nat) targets /\
    NoDup targets.
Proof.
  induction targets as [|s rest IH]; intros o tr o' H;
    cbn [UpdateStatus_all] in H.
  - apply runs_Ret_iff in H as [_ [= ->]]. cbn. repeat split; auto.
    + lia.
    + constructor.
  - apply runs_bind in H as (tr1 & r & tr2 & H1 & H2 & ->).
    apply runs_UpdateStatus in H1.
    destruct (spec_in_table (Status o) s) eqn:Et.
    + destruct H1 as (now & -> & ->). cbn [fst snd] in H2.
      apply IH in H2 as (Hlast & Hrank & Hall & Hnd).
      cbn [Status set_UpdatedAt set_Status] in Hlast, Hrank, Hall.
      apply spec_in_table_rank in Et. split; [| split; [| split]].
      * rewrite Hlast. symmetry. apply last_cons.
      * cbn [length]. lia.
      * constructor; [lia |]. eapply Forall_impl; [exact Hall |].
        cbn. intros; lia.
      * constructor; [| exact Hnd]. intros Hin.
        apply (proj1 (Forall_forall _ _) Hall) in Hin. lia.
    + destruct H1 as [-> ->]. cbn [fst snd] in H2.
      apply runs_Ret_iff in H2 as [_ [=]].
Qed.

(** X3. The lifecycle never returns and is bounded. Whatever the order and
    whatever the list of target statuses, if every [UpdateStatus] of the
    list succeeds, one after the other, then no status occurs twice among
    the status the order started with and the targets (no transition or
    chain of transitions leads back to a status already left, or stays in
    place), the list has at most five targets, and the order ends in the
    last of them. *)
Theorem UpdateStatus_never_returns :
  forall (o : Order) (targets : list OrderStatus) tr (o' : Order),
    runs (UpdateStatus_all o targets) tr (o', None) ->
    NoDup (Status o :: targets) /\ (length targets <= 5)%nat /\
    Status o' = List.last targets (Status o).
Proof.
  intros o targets tr o' H.
  apply runs_UpdateStatus_all in H as (Hlast & Hrank & Hall & Hnd).
  pose proof (status_rank_bound (Status o')) as Hb.
  split; [| split; [lia | exact Hlast]].
  constructor; [| exact Hnd]. intros Hin.
  apply (proj1 (Forall_forall _ _) Hall) in Hin. lia.
Qed.

(** The longest life: a pending order confirmed, processed, shipped,
    delivered and refunded. *)
Lemma UpdateStatus_never_returns_witness :
  NoDup ["pending"; "confirmed"; "processing"; "shipped"; "delivered";
         "refunded"] /\
  (length ["confirmed"; "processing"; "shipped"; "delivered"; "refunded"]
   <= 5)%nat.
Proof.
  destruct (UpdateStatus_never_returns order_empty
              ["confirmed"; "processing"; "shipped"; "delivered"; "refunded"]
              [CTimeNow 1; CTimeNow 2; CTimeNow 3; CTimeNow 4; CTimeNow 5]
              (set_UpdatedAt 5 (set_Status "refunded" order_empty)))
    as (H1 & H2 & _).
  - simpl. repeat constructor.
  - split; [exact H1 | exact H2].
Defined.

(** *** Validation *)

Lemma OrderItem_Validate_None_iff (item : OrderItem) :
  OrderItem_Validate item = None <-> item_valid item.
Proof.
  unfold OrderItem_Validate, item_valid. cbv zeta.
  destruct (N.eqb_spec (item_ID item) uuid_Nil) as [E1 | E1];
    [split; [discriminate | tauto] |].
  destruct (N.eqb_spec (item_ProductID item) uuid_Nil) as [E2 | E2];
    [split; [discriminate | tauto] |].
  destruct (String.eqb_spec (item_Name item) "") as [E3 | E3];
    [split; [discriminate | tauto] |].
  destruct (item_Price item <=? 0)%float eqn:E4;
    [split; [discriminate | intros (_ & _ & _ & H & _); discriminate] |].
  destruct (Z.leb_spec (item_Quantity item) 0) as [E5 | E5];
    [split; [discriminate | intros (_ & _ & _ & _ & H & _); lia] |].
  destruct (item_Total item =? _)%float eqn:E6; cbn [negb].
  - split; auto 10.
  - split; [discriminate | intros (_ & _ & _ & _ & _ & H); discriminate].
Qed.

Lemma Validate_items_None_iff (items : list OrderItem) :
  forall i, Validate_items i items = None <-> Forall item_valid items.
Proof.
  induction items as [|x rest IH]; intros i; cbn [Validate_items].
  - split; auto.
  - destruct (OrderItem_Validate x) as [err |] eqn:E.
    + split; [discriminate |]. intros H. inversion H as [|? ? Hx _]; subst.
      apply OrderItem_Validate_None_iff in Hx. congruence.
    + rewrite IH. apply OrderItem_Validate_None_iff in E. split.
      * intros H. now constructor.
      * intros H. now inversion H.
Qed.

Lemma Validate_items_is_ValidationError (items : list OrderItem) :
  forall i err, Validate_items i items = Some err ->
                exists m, err = ValidationError m.
Proof.
  induction items as [|x rest IH]; intros i err; cbn [Validate_items].
  - discriminate.
  - destruct (OrderItem_Validate x); [| apply IH].
    unfold NewValidationError. intros [= <-]. eauto.
Qed.

(** A float that differs from itself is the NaN. *)
Lemma is_nan_Prim2SF (f : float) :
  PrimFloat.is_nan f = true -> Prim2SF f = S754_nan.
Proof.
  unfold PrimFloat.is_nan. rewrite FloatAxioms.eqb_spec.
  destruct (Prim2SF f) as [s | s | | s m e]; try reflexivity;
    unfold SFeqb, SFcompare; try (destruct s; discriminate).
  rewrite Z.compare_refl.
  destruct s; rewrite ?Pos.compare_cont_refl; discriminate.
Qed.

(** X4. What [Order.Validate] accepts, exactly: an order with an id, a
    customer id, a non-empty email, at least one line and a total that is
    not <= 0, all of whose lines have an id, a product id, a name, a price
    that is not <= 0, a positive quantity and a stored total equal to price
    times quantity; everything else is refused with a ValidationError. The
    comparisons are those of float64: a line whose price is NaN passes the
    price check but is always refused, by the comparison of its total,
    whereas the check of the order total lets a NaN total through and does
    not compare it with the lines. *)
Theorem Validate_accepts_exactly :
  (forall o : Order, Validate o = None <-> order_valid o) /\
  (forall (o : Order) err,
      Validate o = Some err -> exists m, err = ValidationError m) /\
  (forall item : OrderItem,
      PrimFloat.is_nan (item_Price item) = true ->
      (item_Price item <=? 0)%float = false /\
      OrderItem_Validate item <> None) /\
  (forall o : Order,
      PrimFloat.is_nan (TotalAmount o) = true ->
      (Validate o = None <->
       Validate (set_TotalAmount 1%float o) = None)).
Proof.
  assert (Hiff : forall o : Order, Validate o = None <-> order_valid o).
  { intros o. unfold Validate, order_valid.
    destruct (N.eqb_spec (ID o) uuid_Nil) as [E1 | E1];
      [split; [discriminate | tauto] |].
    destruct (N.eqb_spec (CustomerID o) uuid_Nil) as [E2 | E2];
      [split; [discriminate | tauto] |].
    destruct (String.eqb_spec (Email o) "") as [E3 | E3];
      [split; [discriminate | tauto] |].
    destruct (Items o) as [|x rest] eqn:Ei; cbn [length Nat.eqb];
      [split; [discriminate | tauto] |].
    destruct (TotalAmount o <=? 0)%float eqn:E5;
      [split; [discriminate | intros (_ & _ & _ & _ & H & _); discriminate] |].
    rewrite Validate_items_None_iff. split.
    - intros H. repeat split; auto; discriminate.
    - tauto. }
  split; [exact Hiff |]. split; [| split].
  - intros o err. unfold Validate, NewValidationError.
    repeat match goal with
           | |- context [if ?c then _ else _] => destruct c
           end; try (intros [= <-]; eauto).
    apply Validate_items_is_ValidationError.
  - intros item Hnan. apply is_nan_Prim2SF in Hnan.
    assert (Hle : (item_Price item <=? 0)%float = false).
    { rewrite FloatAxioms.leb_spec, Hnan. reflexivity. }
    split; [exact Hle |]. rewrite OrderItem_Validate_None_iff.
    intros (_ & _ & _ & _ & _ & H).
    rewrite FloatAxioms.eqb_spec, FloatAxioms.mul_spec, Hnan in H.
    destruct (Prim2SF (item_Total item)) as [s | s | | s m e];
      cbn in H; try discriminate; destruct s; discriminate.
  - intros o Hnan. apply is_nan_Prim2SF in Hnan. rewrite !Hiff.
    unfold order_valid. cbn [ID CustomerID Email Items TotalAmount
      set_TotalAmount].
    assert (Hle : (TotalAmount o <=? 0)%float = false).
    { rewrite FloatAxioms.leb_spec, Hnan. reflexivity. }
    rewrite Hle. change (1 <=? 0)%float with false. reflexivity.
Qed.

End AggregateFacts.

(** ** UpdateOrderStatus: what is saved, what is published, what is refused *)

Section UpdateOrderStatusPolicy.
Import UpdateOrderStatusUseCase.

(** No transition leads to pending, keeps the status, or leaves cancelled
    or refunded. *)
Lemma spec_in_table_never (from to : OrderStatus) :
  to = "pending" \/ to = from \/ from = "cancelled" \/ from = "refunded" ->
  spec_in_table from to = false.
Proof.
  intros H. destruct (spec_in_table from to) eqn:E; [| reflexivity].
  apply spec_in_table_rank in E.
  destruct H as [-> | [-> | [-> | ->]]]; vm_compute in E; lia.
Qed.

(** X5. [UpdateOrderStatus] saves before it publishes, and answers by the
    save alone. In every run: the use case returns a response exactly when
    the repository's Update succeeded, and an event is published exactly
    then, so an error result means that nothing was published and a failed
    publication never turns into an error; Update is called at most once,
    only after GetByID returned an order whose transition to the target is
    allowed, and on that order with the target status; a request that fails
    validation reaches neither the repository nor the publisher. *)
Theorem UpdateOrderStatus_succeeds_iff_saved :
  forall (req : UpdateOrderStatusRequest) tr res,
    runs (Execute req) tr res ->
    ((exists resp, res = inl resp) <-> List.filter is_saved tr <> []) /\
    (List.filter is_publish tr <> [] <-> List.filter is_saved tr <> []) /\
    (length (List.filter is_update tr) <= 1)%nat /\
    (length (List.filter is_publish tr) <= 1)%nat /\
    (forall o r,
        In (CRepoUpdate o r) tr ->
        exists order now tr',
          tr = CRepoGetByID (us_OrderID req) (inl order) :: tr' /\
          canTransitionTo order (us_NewStatus req) = true /\
          o = updated_order req order now /\
          ID o = ID order /\ Status o = us_NewStatus req /\
          Items o = Items order) /\
    (validateRequest req <> None ->
     List.filter is_repo_call tr = [] /\ List.filter is_publish tr = []).
Proof.
  intros req tr res H. apply runs_UpdateOrderStatus in H.
  destruct (validateRequest req) as [verr |] eqn:Ev.
  { destruct H as [-> ->]. cbn. repeat split; try lia; try congruence;
      try (intros (? & [=])); try tauto.
    intros o r [[=] | []]. }
  destruct H as [(err & -> & ->) | [(order & Et & -> & ->) |
                 [(order & now & err & Et & -> & ->) |
                  (order & now & tr1 & Et & H & ->)]]].
  - cbn. repeat split; try lia; try congruence; try (intros (? & [=]));
      try tauto.
    intros o r [[=] | [[=] | []]].
  - cbn. repeat split; try lia; try congruence; try (intros (? & [=]));
      try tauto.
    intros o r [[=] | [[=] | []]].
  - cbn. repeat split; try lia; try congruence; try (intros (? & [=]));
      try tauto.
    intros o r [[=] | [[=] | [[= <- <-] | [[=] | []]]]].
    exists order, now. eexists. split; [reflexivity |].
    rewrite canTransitionTo_table.
    destruct (updated_order_fields req order now) as (U1 & U2 & _).
    repeat split; auto. unfold updated_order.
    destruct (negb (String.eqb (us_Reason req) "")); reflexivity.
  - apply runs_publishAndRespond in H as (id & ts & pub & -> & ->).
    cbn. destruct pub; cbn;
      (repeat split; try lia; try congruence; try discriminate; eauto;
       try tauto);
      intros o r Hin;
      repeat match goal with
             | H : _ \/ _ |- _ => destruct H as [H | H]
             | H : False |- _ => contradiction
             end; try discriminate; injection Hin as <- <-;
      exists order, now; eexists; (split; [reflexivity |]);
      rewrite canTransitionTo_table;
      destruct (updated_order_fields req order now) as (U1 & U2 & _);
      repeat split; auto; unfold updated_order;
      destruct (negb (String.eqb (us_Reason req) "")); reflexivity.
Qed.

(** The confirmed order of the example moved to processing while the broker
    is unreachable: the update is saved, the publication fails, and the use
    case answers with the updated order. *)
Lemma UpdateOrderStatus_succeeds_iff_saved_witness :
  exists tr resp,
    runs (Execute request_to_processing) tr (inl resp) /\
    usresp_NewStatus resp = "processing" /\
    List.filter is_saved tr <> [] /\
    (length (List.filter is_publish tr) <= 1)%nat.
Proof.
  set (tr := [CRepoGetByID 3%N (inl order_confirmed); CTimeNow 30;
              CRepoUpdate (updated_order request_to_processing
                             order_confirmed 30) None;
              CLog LInfo "Order status updated successfully";
              CUuidNew 9%N; CTimeNow 31;
              CPublish
                (status_event request_to_processing "confirmed"
                   (updated_order request_to_processing order_confirmed 30)
                   9%N 31)
                (Some (DriverError "broker unreachable"));
              CLog LError "Failed to publish order status event"]).
  assert (Hrun : exists resp,
             runs (Execute request_to_processing) tr (inl resp) /\
             usresp_NewStatus resp = "processing").
  { eexists. split.
    - apply runs_UpdateOrderStatus.
      change (validateRequest request_to_processing) with (@None error).
      right. right. right. exists order_confirmed, 30. eexists.
      split; [reflexivity |]. split; [| reflexivity].
      apply runs_publishAndRespond.
      exists 9%N, 31, (Some (DriverError "broker unreachable")).
      split; reflexivity.
    - reflexivity. }
  destruct Hrun as (resp & Hrun & Hnew).
  destruct (UpdateOrderStatus_succeeds_iff_saved request_to_processing tr
              (inl resp) Hrun) as (H1 & _ & _ & H4 & _).
  exists tr, resp. split; [exact Hrun |]. split; [exact Hnew |].
  split; [apply H1; eauto | exact H4].
Defined.

(** X6. No request moves an order to pending, keeps its status, or moves it
    out of cancelled or refunded. "pending" passes the validation of the
    request (it is one of the seven statuses), but for every such request
    and every order the repository returns, the run ends there: the use
    case logs, returns the InvalidStatusTransition error wrapped in "status
    update failed", and calls neither Update nor the publisher. *)
Theorem UpdateOrderStatus_refuses_pending_and_same_status :
  forall (req : UpdateOrderStatusRequest) (order : Order) tr res,
    runs (Execute req) tr res ->
    In (CRepoGetByID (us_OrderID req) (inl order)) tr ->
    us_NewStatus req = "pending" \/ us_NewStatus req = Status order \/
    Status order = "cancelled" \/ Status order = "refunded" ->
    tr = [CRepoGetByID (us_OrderID req) (inl order);
          CLog LError "Failed to update order status"] /\
    res = inr (Errorf "status update failed: %w"
                 (InvalidStatusTransitionError (Status order)
                    (us_NewStatus req))).
Proof.
  intros req order tr res H Hin Hbad.
  apply spec_in_table_never in Hbad.
  apply runs_UpdateOrderStatus in H.
  destruct (validateRequest req) as [verr |].
  { destruct H as [-> _]. destruct Hin as [[=] | []]. }
  destruct H as [(err & -> & ->) | [(order' & Et & -> & ->) |
                 [(order' & now & err & Et & -> & ->) |
                  (order' & now & tr1 & Et & H & ->)]]].
  - destruct Hin as [[=] | [[=] | []]].
  - destruct Hin as [[= ->] | [[=] | []]]. auto.
  - exfalso. destruct Hin as [[= ->] | Hin]; [congruence |].
    cbn in Hin. intuition discriminate.
  - exfalso. destruct Hin as [[= ->] | Hin]; [congruence |].
    apply runs_publishAndRespond in H as (id & ts & pub & -> & _).
    cbn in Hin. destruct pub; intuition discriminate.
Qed.

(** The confirmed order of the example cannot be sent back to pending. *)
Lemma UpdateOrderStatus_refuses_pending_witness :
  runs (Execute request_to_pending)
    [CRepoGetByID 3%N (inl order_confirmed);
     CLog LError "Failed to update order status"]
    (inr (Errorf "status update failed: %w"
            (InvalidStatusTransitionError "confirmed" "pending"))) /\
  validateRequest request_to_pending = None.
Proof.
  assert (Hrun : runs (Execute request_to_pending)
                   [CRepoGetByID 3%N (inl order_confirmed);
                    CLog LError "Failed to update order status"]
                   (inr (Errorf "status update failed: %w"
                           (InvalidStatusTransitionError "confirmed"
                              "pending")))).
  { apply runs_UpdateOrderStatus.
    change (validateRequest request_to_pending) with (@None error).
    right. left. exists order_confirmed. repeat split. }
  destruct (UpdateOrderStatus_refuses_pending_and_same_status
              request_to_pending order_confirmed _ _ Hrun
              (or_introl eq_refl) (or_introl eq_refl)) as [_ _].
  split; [exact Hrun | reflexivity].
Defined.

End UpdateOrderStatusPolicy.

(** ** The repository: transactions, reads and updates *)

Section RepositoryFacts.
Import postgres.

(** *** Worlds that differ by the number of calls made *)

Lemma set_calls_set_calls (a b : nat) (w : World) :
  set_calls a (set_calls b w) = set_calls a w.
Proof. reflexivity. Qed.

Lemma exec_statement_world stmt (w : World) (d : Database) :
  snd (exec_statement stmt w d) = set_calls (S (w_calls w)) w.
Proof.
  unfold exec_statement, remote_call.
  destruct (w_faults w (w_calls w)); reflexivity.
Qed.

Lemma insertOrderItems_world eng (items : list OrderItem) :
  forall w tx,
    exists n, snd (insertOrderItems eng items w tx) =
              set_calls (n + w_calls w) w /\ (n <= length items)%nat.
Proof.
  induction items as [|item rest IH]; intros w tx; cbn [insertOrderItems].
  - exists 0%nat. split; [now destruct w | cbn; lia].
  - pose proof (exec_statement_world
                  (fun db_now => insert_item eng db_now item) w tx) as Hw.
    destruct (exec_statement _ w tx) as [[tx1 | err] w1]; cbn [snd] in Hw;
      subst w1.
    + destruct (IH (set_calls (S (w_calls w)) w) tx1) as (n & -> & Hn).
      exists (S n). cbn [w_calls set_calls length].
      rewrite set_calls_set_calls. split; [f_equal; lia | lia].
    + exists 1%nat. cbn [length]. split; [reflexivity | lia].
Qed.

Lemma insertAddress_world eng a (w : World) (tx : Database) :
  snd (insertAddress eng a w tx) = set_calls (S (w_calls w)) w.
Proof. apply exec_statement_world. Qed.

(** The statements of [Create] only use up calls. *)
Lemma Create_statements_world eng (order : Order) (w : World) (tx : Database) :
  exists n, snd (Create_statements eng order w tx) =
            set_calls (S n + w_calls w) w.
Proof.
  unfold Create_statements.
  pose proof (exec_statement_world (fun _ => insert_order eng order) w tx)
    as H1.
  destruct (exec_statement _ w tx) as [[tx1 | err] w1]; cbn [snd] in H1;
    subst w1; [| exists 0%nat; reflexivity].
  set (w1 := set_calls (S (w_calls w)) w).
  assert (H2 : exists n,
             snd (if (0 <? length (Items order))%nat
                  then insertOrderItems eng (Items order) w1 tx1
                  else (inl tx1, w1)) = set_calls (n + w_calls w1) w1).
  { destruct (0 <? length (Items order))%nat.
    - destruct (insertOrderItems_world eng (Items order) w1 tx1) as (n & E & _).
      eauto.
    - exists 0%nat. reflexivity. }
  destruct H2 as (n2 & H2).
  destruct (if (0 <? length (Items order))%nat then _ else _)
    as [[tx2 | err] w2]; cbn [snd] in H2; subst w2;
    [| exists n2; subst w1; cbn [snd w_calls set_calls];
       rewrite set_calls_set_calls; f_equal; lia].
  set (w2 := set_calls (n2 + w_calls w1) w1).
  assert (H3 : exists n,
             snd (match ShippingAddress order with
                  | Some a => insertAddress eng a w2 tx2
                  | None => (inl tx2, w2)
                  end) = set_calls (n + w_calls w2) w2).
  { destruct (ShippingAddress order).
    - exists 1%nat. apply insertAddress_world.
    - exists 0%nat. reflexivity. }
  destruct H3 as (n3 & H3).
  destruct (match ShippingAddress order with Some _ => _ | None => _ end)
    as [[tx3 | err] w3]; cbn [snd] in H3; subst w3;
    [| exists (n3 + n2)%nat; subst w2 w1; cbn [snd w_calls set_calls];
       rewrite !set_calls_set_calls; f_equal; lia].
  set (w3 := set_calls (n3 + w_calls w2) w2).
  assert (H4 : exists n,
             snd (match BillingAddress order with
                  | Some a => insertAddress eng a w3 tx3
                  | None => (inl tx3, w3)
                  end) = set_calls (n + w_calls w3) w3).
  { destruct (BillingAddress order).
    - exists 1%nat. apply insertAddress_world.
    - exists 0%nat. reflexivity. }
  destruct H4 as (n4 & H4).
  destruct (match BillingAddress order with Some _ => _ | None => _ end)
    as [[tx4 | err] w4]; cbn [snd] in H4; subst w4;
    exists (n4 + n3 + n2)%nat; subst w3 w2 w1; cbn [snd w_calls set_calls];
    rewrite !set_calls_set_calls; f_equal; lia.
Qed.

(** [Create] computed down to its outcome: either an error in a world that
    differs by the calls made, or the committed transaction. *)
Lemma Create_outcome eng (order : Order) (w : World) :
  (exists err n,
      Create eng order w = (Some err, set_calls (S n + w_calls w) w)) \/
  (exists tx n,
      Create eng order w = (None, set_db tx (set_calls (S n + w_calls w) w))).
Proof.
  unfold Create, remote_call.
  destruct (w_faults w (w_calls w)) as [text |].
  { left. exists (Errorf "failed to begin transaction: %w" (DriverError text)),
      0%nat. reflexivity. }
  set (w0 := set_calls (S (w_calls w)) w).
  destruct (Create_statements_world eng order w0 (w_db w0)) as (n & Hn).
  destruct (Create_statements eng order w0 (w_db w0)) as [[tx | err] w1];
    cbn [snd] in Hn; subst w1; subst w0; cbn [w_calls set_calls];
    rewrite !set_calls_set_calls.
  - cbn [w_faults set_calls w_calls].
    destruct (w_faults w _) as [text |].
    + left. eexists _, (S (S n)). f_equal. f_equal. lia.
    + right. exists tx, (S (S n)). f_equal. f_equal. f_equal. lia.
  - left. exists err, (S n). f_equal. f_equal. lia.
Qed.

(** X7. [Create] is all or nothing. Whatever the order and the world: when
    it returns an error (the transaction could not begin, a statement
    failed, or the commit failed) the three tables are exactly as before;
    when it returns no error the order's id was free, one row was added
    for the order, one for each of its items, in their order, and one for
    each address it carries, each with the texts its VARCHAR columns hold
    for the texts of the order, which the columns all took; an id that is
    already stored always makes it fail. In both cases nothing else
    changes: no event is published and no line is logged by the
    repository. *)
Theorem Create_is_all_or_nothing :
  forall (eng : Engine) (order : Order) (w : World),
    let r := Create eng order w in
    (fst r <> None -> w_db (snd r) = w_db w) /\
    (fst r = None ->
     has_order (w_db w) (ID order) = false /\
     Forall2 same_header (orders (w_db w) ++ [stored_row eng order])
       (orders (w_db (snd r))) /\
     order_items (w_db (snd r)) =
       order_items (w_db w) ++ map (stored_item eng) (Items order) /\
     order_addresses (w_db (snd r)) =
       order_addresses (w_db w) ++
       map (stored_address eng) (address_rows order) /\
     row_ok eng order = true /\
     Forall (fun item => item_ok eng item = true) (Items order) /\
     Forall (fun a => address_ok eng a = true) (address_rows order)) /\
    (has_order (w_db w) (ID order) = true -> fst r <> None) /\
    w_published (snd r) = w_published w /\ w_log (snd r) = w_log w /\
    (w_calls w < w_calls (snd r))%nat.
Proof.
  intros eng order w r. subst r.
  assert (Hok : fst (Create eng order w) = None ->
                has_order (w_db w) (ID order) = false /\
                Forall2 same_header (orders (w_db w) ++ [stored_row eng order])
                  (orders (w_db (snd (Create eng order w)))) /\
                order_items (w_db (snd (Create eng order w))) =
                  order_items (w_db w) ++ map (stored_item eng) (Items order) /\
                order_addresses (w_db (snd (Create eng order w))) =
                  order_addresses (w_db w) ++
                  map (stored_address eng) (address_rows order) /\
                row_ok eng order = true /\
                Forall (fun item => item_ok eng item = true) (Items order) /\
                Forall (fun a => address_ok eng a = true)
                  (address_rows order)).
  { intros H. apply Create_ok.
    destruct (Create eng order w) as [e w1]. cbn [fst snd] in *. now subst. }
  destruct (Create_outcome eng order w) as [(err & n & E) | (tx & n & E)].
  - rewrite E in *. cbn [fst snd w_db set_calls w_published w_log w_calls].
    repeat split; auto; try discriminate; try lia.
  - rewrite E in *. cbn [fst snd w_db set_db set_calls w_published w_log
      w_calls] in *.
    split; [intros H; now contradiction H |].
    split; [exact Hok |]. split; [| repeat split; lia].
    intros Hdup. destruct (Hok eq_refl) as (Hfree & _). congruence.
Qed.

End RepositoryFacts.

(** *** GetByID *)

Section GetByIDFacts.
Import postgres.

Lemma has_order_find (d : Database) (id : UUID) :
  has_order d id = true <->
  exists r, find (fun r => N.eqb (row_id r) id) (orders d) = Some r.
Proof.
  unfold has_order. induction (orders d) as [|x l IH]; cbn [existsb find].
  - split; [discriminate | intros (r & [=])].
  - destruct (N.eqb (row_id x) id); cbn [orb]; [| exact IH].
    split; eauto.
Qed.

Lemma find_row_id (rows : list OrderRow) (id : UUID) (r : OrderRow) :
  find (fun r => N.eqb (row_id r) id) rows = Some r ->
  In r rows /\ row_id r = id.
Proof.
  intros H. apply find_some in H as [Hin E]. now apply N.eqb_eq in E.
Qed.

(** What [GetByID] returns when it returns an order. *)
Lemma GetByID_inl eng (id : UUID) (w : World) (o : Order) :
  fst (GetByID eng id w) = inl o ->
  exists r,
    find (fun r => N.eqb (row_id r) id) (orders (w_db w)) = Some r /\
    o = attach_addresses
          (rows_read (w_cuts w (2 + w_calls w)%nat)
             (order_addresses_of eng id (w_db w)))
          (mkOrder (row_id r) (row_customer_id r) (row_email r)
             (row_status r) (row_total_amount r) (row_currency r)
             (rows_read (w_cuts w (1 + w_calls w)%nat)
                (order_items_of eng id (w_db w)))
             (row_created_at r) (row_updated_at r) None None ∅) /\
    snd (GetByID eng id w) = set_calls (3 + w_calls w) w /\
    (forall k, (k < 3)%nat -> w_faults w (k + w_calls w)%nat = None).
Proof.
  unfold GetByID, getOrderItems, getOrderAddresses, query_call, remote_call.
  destruct (w_faults w (w_calls w)) eqn:F0; [discriminate |].
  cbn [w_db set_calls].
  destruct (find _ (orders (w_db w))) as [r |]; [| discriminate].
  cbn [w_faults w_calls w_cuts set_calls].
  destruct (w_faults w (S (w_calls w))) eqn:F1; [discriminate |].
  cbn [w_faults w_calls w_cuts set_calls w_db].
  destruct (w_faults w (S (S (w_calls w)))) eqn:F2; [discriminate |].
  cbn [fst snd]. intros [= <-]. exists r. repeat split.
  intros k Hk. destruct k as [|[|[|k]]]; try lia; assumption.
Qed.

Lemma GetByID_world eng (id : UUID) (w : World) :
  exists n, snd (GetByID eng id w) = set_calls (S n + w_calls w) w /\
            (n <= 2)%nat.
Proof.
  unfold GetByID, getOrderItems, getOrderAddresses, query_call, remote_call.
  destruct (w_faults w (w_calls w));
    [exists 0%nat; split; [reflexivity | lia] |].
  cbn [w_db set_calls].
  destruct (find _ (orders (w_db w)));
    [| exists 0%nat; split; [reflexivity | lia]].
  cbn [w_faults w_calls w_cuts set_calls].
  destruct (w_faults w (S (w_calls w)));
    [exists 1%nat; split; [reflexivity | lia] |].
  cbn [w_faults w_calls w_cuts set_calls w_db].
  destruct (w_faults w (S (S (w_calls w))));
    exists 2%nat; (split; [reflexivity | lia]).
Qed.

Lemma GetByID_missing eng (id : UUID) (w : World) :
  w_faults w (w_calls w) = None -> has_order (w_db w) id = false ->
  GetByID eng id w =
  (inr (OrderNotFoundError id), set_calls (S (w_calls w)) w).
Proof.
  intros F0 Hno. unfold GetByID, remote_call. rewrite F0.
  cbn [w_db set_calls].
  destruct (find _ (orders (w_db w))) as [r |] eqn:Ef; [| reflexivity].
  assert (has_order (w_db w) id = true) by (apply has_order_find; eauto).
  congruence.
Qed.

Lemma In_order_items_of eng (id : UUID) (d : Database) (item : OrderItem) :
  In item (order_items_of eng id d) <->
  In item (order_items d) /\ item_OrderID item = id.
Proof.
  unfold order_items_of. split.
  - intros H. apply (Permutation_in _ (order_by_name_perm eng _)) in H.
    apply list_elem_of_In, list_elem_of_filter in H as [Hp H].
    apply list_elem_of_In in H. split; [exact H |].
    apply N.eqb_eq. now destruct (N.eqb (item_OrderID item) id).
  - intros [H E].
    apply (Permutation_in _ (Permutation_sym (order_by_name_perm eng _))).
    apply list_elem_of_In, list_elem_of_filter. split.
    + apply N.eqb_eq in E. now rewrite E.
    + now apply list_elem_of_In.
Qed.

Lemma In_order_addresses_of eng (id : UUID) (d : Database) (a : Address) :
  In a (order_addresses_of eng id d) ->
  In a (order_addresses d) /\ addr_OrderID a = id.
Proof.
  unfold order_addresses_of. intros H.
  apply (Permutation_in _ (unordered_perm eng _)) in H.
  apply list_elem_of_In, list_elem_of_filter in H as [Hp H].
  apply list_elem_of_In in H. split; [exact H |].
  apply N.eqb_eq. now destruct (N.eqb (addr_OrderID a) id).
Qed.

(** X8. [GetByID] only reads, and what it returns belongs to the id. In
    every world the call leaves the database, the published events and the
    log as they are and makes at most three database calls. When the first
    query does not fail and no row has the id, it returns OrderNotFound for
    that id after this one call, and [GetOrder] returns it wrapped in
    "failed to get order". When it returns an order, a row with the id
    exists and the order carries the id and empty metadata. Its items are
    the rows the loop of [getOrderItems] has seen of the stored items that
    reference the id: a first part of them, in the order of the query, all of
    which are stored items of the id; they are exactly the stored items
    that reference the id when the iteration over the rows did not break
    off, which the code, never calling [rows.Err], does not tell from its
    breaking off. Its shipping address, if any, is a stored address row of
    the id of type shipping, and its billing address one of type
    billing. *)
Theorem GetByID_reads_and_reports :
  forall (eng : Engine) (id : UUID) (w : World),
    let r := GetByID eng id w in
    (exists n, snd r = set_calls (S n + w_calls w) w /\ (n <= 2)%nat) /\
    (w_faults w (w_calls w) = None -> has_order (w_db w) id = false ->
     r = (inr (OrderNotFoundError id), set_calls (S (w_calls w)) w) /\
     (id <> uuid_Nil ->
      fst (fst (exec (env eng)
                  (GetOrderUseCase.Execute (mkGetOrderRequest id)) w)) =
      inr (Errorf "failed to get order: %w" (OrderNotFoundError id)))) /\
    (forall o : Order,
        fst r = inl o ->
        has_order (w_db w) id = true /\ ID o = id /\ Metadata o = ∅ /\
        Items o = rows_read (w_cuts w (1 + w_calls w)%nat)
                    (order_items_of eng id (w_db w)) /\
        (exists rest, order_items_of eng id (w_db w) = Items o ++ rest) /\
        (forall item,
            In item (Items o) ->
            In item (order_items (w_db w)) /\ item_OrderID item = id) /\
        (w_cuts w (1 + w_calls w)%nat = None ->
         Items o = order_items_of eng id (w_db w) /\
         forall item,
           In item (Items o) <->
           In item (order_items (w_db w)) /\ item_OrderID item = id) /\
        (forall a,
            ShippingAddress o = Some a ->
            In a (order_addresses (w_db w)) /\ addr_OrderID a = id /\
            addr_Type a = "shipping") /\
        (forall a,
            BillingAddress o = Some a ->
            In a (order_addresses (w_db w)) /\ addr_OrderID a = id /\
            addr_Type a = "billing")).
Proof.
  intros eng id w r. subst r. split; [apply GetByID_world |]. split.
  - intros F0 Hno. pose proof (GetByID_missing eng id w F0 Hno) as E.
    split; [exact E |]. intros Hid.
    unfold GetOrderUseCase.Execute, GetOrderUseCase.validateRequest.
    cbn [gr_OrderID].
    destruct (N.eqb_spec id uuid_Nil) as [E0 | _]; [contradiction |].
    unfold orderRepo_GetByID. cbn [bind exec env on_RepoGetByID].
    rewrite E. reflexivity.
  - intros o Ho. apply GetByID_inl in Ho as (row & Hf & -> & _ & _).
    destruct (attach_addresses_inv
                (rows_read (w_cuts w (2 + w_calls w)%nat)
                   (order_addresses_of eng id (w_db w)))
                (mkOrder (row_id row) (row_customer_id row) (row_email row)
                   (row_status row) (row_total_amount row) (row_currency row)
                   (rows_read (w_cuts w (1 + w_calls w)%nat)
                      (order_items_of eng id (w_db w)))
                   (row_created_at row) (row_updated_at row) None None ∅))
      as ((H1 & _ & _ & _ & _ & _ & H7 & _ & _ & H10) & Hs & Hb).
    cbn [ID Items Metadata ShippingAddress BillingAddress] in *.
    split; [apply has_order_find; eauto |].
    apply find_row_id in Hf as [Hin Hid].
    split; [congruence |]. split; [exact H10 |]. split; [exact H7 |].
    split; [rewrite H7; apply rows_read_prefix |].
    split.
    { intros item. rewrite H7. intros Hi. apply rows_read_incl in Hi.
      apply (proj1 (In_order_items_of eng id (w_db w) item)), Hi. }
    split.
    { intros Hcut. rewrite H7, Hcut. cbn [rows_read].
      split; [reflexivity |]. intros item. apply In_order_items_of. }
    split; intros a Ha.
    + destruct (Hs a Ha) as [[=] | [Hi Ht]]. apply rows_read_incl in Hi.
      apply In_order_addresses_of in Hi as [Hi Ho]. auto.
    + destruct (Hb a Ha) as [[=] | [Hi Ht]]. apply rows_read_incl in Hi.
      apply In_order_addresses_of in Hi as [Hi Ho]. auto.
Qed.

(** A reading of an empty database. *)
Lemma GetByID_reads_and_reports_witness :
  GetByID example_engine 3%N (example_world database_empty) =
  (inr (OrderNotFoundError 3%N),
   set_calls 1 (example_world database_empty)).
Proof.
  exact (proj1 (proj1 (proj2 (GetByID_reads_and_reports example_engine 3%N
                                (example_world database_empty)))
                  eq_refl eq_refl)).
Defined.

End GetByIDFacts.

(** *** Update, UpdateStatus and Delete *)

Section UpdateFacts.
Import postgres.

(** One UPDATE of [orders] computed: the call, the rows it rewrites through
    the trigger, and the number of rows affected. *)
Lemma exec_update_eq (guard : OrderRow -> bool) (change : OrderRow -> OrderRow)
    (w : World) :
  exec_update guard change w =
  let w' := set_calls (S (w_calls w)) w in
  match w_faults w (w_calls w) with
  | Some text => (inr (DriverError text), w')
  | None =>
      (inl (length (filter guard (orders (w_db w)))),
       set_db
         (mkDatabase
            (map (fun r =>
                    if guard r
                    then update_updated_at_column (w_db_clock w (w_calls w))
                           (change r)
                    else r)
               (orders (w_db w)))
            (order_items (w_db w)) (order_addresses (w_db w)))
         w')
  end.
Proof.
  unfold exec_update, remote_call, update_orders.
  destruct (w_faults w (w_calls w)); reflexivity.
Qed.

Lemma rows_affected_zero (id : UUID) (rows : list OrderRow) :
  (length (filter (fun r => N.eqb (row_id r) id) rows) =? 0)%nat =
  negb (existsb (fun r => N.eqb (row_id r) id) rows).
Proof.
  induction rows as [|x l IH]; [reflexivity |].
  rewrite filter_cons. cbn [existsb].
  destruct (N.eqb (row_id x) id); cbn [decide_rel Is_true_dec orb negb];
    [reflexivity | exact IH].
Qed.

Lemma map_saved_row_missing eng (order : Order) (db_now : Time)
    (rows : list OrderRow) :
  existsb (fun r => N.eqb (row_id r) (ID order)) rows = false ->
  map (saved_row eng order db_now) rows = rows.
Proof.
  induction rows as [|x l IH]; [reflexivity |]. cbn [existsb map].
  intros H. apply orb_false_iff in H as [Hx Hl].
  unfold saved_row at 1. rewrite Hx. f_equal. auto.
Qed.

Lemma map_restatused_row_missing (id : UUID) status (db_now : Time)
    (rows : list OrderRow) :
  existsb (fun r => N.eqb (row_id r) id) rows = false ->
  map (restatused_row id status db_now) rows = rows.
Proof.
  induction rows as [|x l IH]; [reflexivity |]. cbn [existsb map].
  intros H. apply orb_false_iff in H as [Hx Hl].
  unfold restatused_row at 1. rewrite Hx. f_equal. auto.
Qed.

(** [Update] computed. *)
Lemma Update_eq eng (order : Order) (w : World) :
  Update eng order w =
  let w' := set_calls (S (w_calls w)) w in
  match w_faults w (w_calls w) with
  | Some text =>
      (Some (Errorf "failed to update order: %w" (DriverError text)), w')
  | None =>
      if row_ok eng order then
        (if has_order (w_db w) (ID order) then None
         else Some (OrderNotFoundError (ID order)),
         set_db
           (mkDatabase
              (map (saved_row eng order (w_db_clock w (w_calls w)))
                 (orders (w_db w)))
              (order_items (w_db w)) (order_addresses (w_db w)))
           w')
      else (Some (Errorf "failed to update order: %w"
                    (refused eng 255 (Email order) [(3%nat, Currency order)])),
            w')
  end.
Proof.
  unfold Update. destruct (row_ok eng order).
  - rewrite exec_update_eq. cbv zeta.
    destruct (w_faults w (w_calls w)); [reflexivity |].
    rewrite rows_affected_zero. fold (has_order (w_db w) (ID order)).
    destruct (has_order (w_db w) (ID order)); reflexivity.
  - unfold exec_refused, remote_call. cbv zeta.
    destruct (w_faults w (w_calls w)); reflexivity.
Qed.

(** A row with the order's id, after the rows were saved. *)
Lemma In_map_saved_row eng (order : Order) (db_now : Time)
    (rows : list OrderRow) (row : OrderRow) :
  In row (map (saved_row eng order db_now) rows) ->
  row_id row = ID order ->
  exists old,
    In old rows /\ row_id old = ID order /\
    row = mkOrderRow (ID order) (CustomerID order)
            (varchar eng 255 (Email order)) (Status order)
            (numeric_10_2 eng (TotalAmount order))
            (varchar eng 3 (Currency order)) (row_created_at old) db_now.
Proof.
  intros Hin Hid. apply in_map_iff in Hin as (old & <- & Hin).
  exists old. unfold saved_row in *.
  destruct (N.eqb_spec (row_id old) (ID order)) as [E | E].
  - rewrite E. auto.
  - contradiction.
Qed.

(** The repository's [UpdateStatus] computed. *)
Lemma UpdateStatus_eq eng (id : UUID) (status : OrderStatus) (w : World) :
  UpdateStatus eng id status w =
  let w' := set_calls (S (w_calls w)) (set_ticks (S (w_ticks w)) w) in
  match w_faults w (w_calls w) with
  | Some text =>
      (Some (Errorf "failed to update order status: %w" (DriverError text)),
       w')
  | None =>
      (if has_order (w_db w) id then None else Some (OrderNotFoundError id),
       set_db
         (mkDatabase
            (map (restatused_row id status (w_db_clock w (w_calls w)))
               (orders (w_db w)))
            (order_items (w_db w)) (order_addresses (w_db w)))
         w')
  end.
Proof.
  unfold UpdateStatus, now. rewrite exec_update_eq. cbv zeta.
  cbn [w_faults w_calls w_db w_db_clock set_ticks].
  destruct (w_faults w (w_calls w)); [reflexivity |].
  rewrite rows_affected_zero. fold (has_order (w_db w) id).
  destruct (has_order (w_db w) id); reflexivity.
Qed.

(** X9. [Update] saves the header of the order and nothing else. When the
    UPDATE itself does not fail, there are two cases. When the
    VARCHAR(255) and VARCHAR(3) columns take the email and the currency of
    the order, every row with the order's id takes the customer id, status
    and total (as DECIMAL(10,2)) of the order, and its email and currency as
    the columns hold them, which is the text itself when it fits (at most
    255 and 3 bytes) and otherwise the text without some trailing spaces;
    the row keeps its creation time, and its update time is the database's
    NOW() written by the trigger, not the UpdatedAt of the order; rows of
    other orders are untouched; the call succeeds exactly when a row has
    the id, and otherwise reports OrderNotFound and changes nothing. When a
    column refuses the email or the currency, the call fails with the
    engine's error wrapped in "failed to update order" and changes nothing.
    In both cases all item and address rows are untouched, so lines,
    addresses and metadata changed in memory are not saved. *)
Theorem Update_saves_the_header_only :
  forall (eng : Engine) (order : Order) (w : World),
    w_faults w (w_calls w) = None ->
    let r := Update eng order w in
    let d := w_db w in
    let d' := w_db (snd r) in
    (row_ok eng order = true ->
     orders d' =
       map (saved_row eng order (w_db_clock w (w_calls w))) (orders d) /\
     (forall row,
         In row (orders d') -> row_id row = ID order ->
         row_customer_id row = CustomerID order /\
         read_back eng 255 (Email order) (row_email row) /\
         row_status row = Status order /\
         row_total_amount row = numeric_10_2 eng (TotalAmount order) /\
         read_back eng 3 (Currency order) (row_currency row) /\
         row_updated_at row = w_db_clock w (w_calls w) /\
         exists old, In old (orders d) /\ row_id old = ID order /\
                     row_created_at row = row_created_at old) /\
     (forall row,
         row_id row <> ID order -> In row (orders d') <-> In row (orders d)) /\
     (fst r = None <-> has_order d (ID order) = true) /\
     (fst r <> None ->
      fst r = Some (OrderNotFoundError (ID order)) /\ d' = d)) /\
    (row_ok eng order = false ->
     (exists n s,
         In (n, s) [(255%nat, Email order); (3%nat, Currency order)] /\
         varchar_ok eng n s = false /\
         fst r = Some (Errorf "failed to update order: %w"
                         (DriverError (varchar_error eng n s)))) /\
     d' = d) /\
    order_items d' = order_items d /\
    order_addresses d' = order_addresses d /\
    snd r = set_db d' (set_calls (S (w_calls w)) w).
Proof.
  intros eng order w F r d d'. subst r d d'. rewrite Update_eq. cbv zeta.
  rewrite F. destruct (row_ok eng order) eqn:Hrow.
  - cbn [fst snd w_db set_db orders order_items order_addresses].
    split; [intros _ | split; [discriminate | repeat split]].
    split; [reflexivity |].
    apply andb_prop in Hrow as [Hemail Hcurrency].
    split.
    { intros row Hin Hid.
      apply In_map_saved_row in Hin as (old & Ho & Ei & ->); [| exact Hid].
      cbn [row_customer_id row_email row_status row_total_amount row_currency
             row_updated_at row_created_at].
      split; [reflexivity |]. split; [now apply read_back_intro |].
      split; [reflexivity |]. split; [reflexivity |].
      split; [now apply read_back_intro |]. split; [reflexivity |].
      exists old. auto. }
    split.
    { intros row Hid. rewrite in_map_iff. split.
      - intros (old & <- & Hin). unfold saved_row in *.
        destruct (N.eqb_spec (row_id old) (ID order)) as [E | E];
          [cbn [row_id] in Hid; contradiction | exact Hin].
      - intros Hin. exists row. split; [| exact Hin]. unfold saved_row.
        destruct (N.eqb_spec (row_id row) (ID order)) as [E | E];
          [contradiction | reflexivity]. }
    destruct (has_order (w_db w) (ID order)) eqn:Eh.
    + split; [split; auto |]. intros H. now contradiction H.
    + split; [split; discriminate |].
      intros _. split; [reflexivity |].
      rewrite map_saved_row_missing by exact Eh. now destruct (w_db w).
  - cbn [fst snd w_db set_calls].
    split; [discriminate |]. split; [| repeat split].
    intros _. split; [| reflexivity].
    unfold row_ok in Hrow. cbn [refused].
    destruct (varchar_ok eng 255 (Email order)) eqn:He.
    + exists 3%nat, (Currency order). cbn [andb] in Hrow.
      split; [right; left; reflexivity | auto].
    + exists 255%nat, (Email order). split; [left; reflexivity | auto].
Qed.

(** The shipped order of the example saved again as delivered: the stored
    update time is the database's, 500, not the order's. *)
Lemma Update_saves_the_header_only_witness :
  orders (w_db (snd (Update example_engine
                       (mkOrder 3%N 1%N "ann@shop.io" "delivered" 21.98%float
                          "USD" [] 10 77 None None ∅)
                       (example_world database_shipped)))) =
  [mkOrderRow 3%N 1%N "ann@shop.io" "delivered" 21.98%float "USD" 10 500].
Proof.
  exact (proj1 (proj1 (Update_saves_the_header_only example_engine
                         (mkOrder 3%N 1%N "ann@shop.io" "delivered"
                            21.98%float "USD" [] 10 77 None None ∅)
                         (example_world database_shipped) eq_refl)
                  eq_refl)).
Defined.

(** An order whose currency is "USD " saved: the row holds "USD"; with the
    currency "USDX" the call fails and the row stays. *)
Lemma Update_cuts_or_refuses_the_currency :
  map row_currency
    (orders (w_db (snd (Update example_engine
                          (mkOrder 3%N 1%N "ann@shop.io" "delivered"
                             21.98%float "USD " [] 10 77 None None ∅)
                          (example_world database_shipped))))) = ["USD"] /\
  Update example_engine
    (mkOrder 3%N 1%N "ann@shop.io" "delivered" 21.98%float "USDX" [] 10 77
       None None ∅)
    (example_world database_shipped) =
  (Some (Errorf "failed to update order: %w"
           (DriverError "pq: value too long for type character varying(3)")),
   set_calls 1 (example_world database_shipped)).
Proof. split; vm_compute; reflexivity. Qed.

(** X10. The repository's [UpdateStatus] does not consult the state machine.
    When the UPDATE itself does not fail, it succeeds exactly when a row has
    the id, whatever the stored status and whatever the new one; every row
    with the id takes the new status and the trigger's update time and
    keeps everything else, and no other row of any table changes. The call
    reads the clock once, for a value the trigger overwrites. *)
Theorem UpdateStatus_of_the_repository_has_no_guard :
  forall (eng : Engine) (id : UUID) (status : OrderStatus) (w : World),
    w_faults w (w_calls w) = None ->
    let r := UpdateStatus eng id status w in
    let d := w_db w in
    let d' := w_db (snd r) in
    orders d' =
      map (restatused_row id status (w_db_clock w (w_calls w))) (orders d) /\
    order_items d' = order_items d /\
    order_addresses d' = order_addresses d /\
    (fst r = None <-> has_order d id = true) /\
    (fst r <> None -> fst r = Some (OrderNotFoundError id) /\ d' = d) /\
    w_ticks (snd r) = S (w_ticks w).
Proof.
  intros eng id status w F r d d'. subst r d d'. rewrite UpdateStatus_eq.
  cbv zeta. rewrite F. cbn [fst snd w_db set_db].
  split; [reflexivity |]. split; [reflexivity |]. split; [reflexivity |].
  destruct (has_order (w_db w) id) eqn:Eh.
  - split; [split; auto |]. split; [| reflexivity].
    intros H. now contradiction H.
  - split; [split; discriminate |]. split; [| reflexivity].
    intros _. split; [reflexivity |].
    rewrite map_restatused_row_missing by exact Eh. now destruct (w_db w).
Qed.

(** A cancelled order set back to pending through the repository, which the
    state machine of the aggregate refuses. *)
Lemma UpdateStatus_of_the_repository_witness :
  fst (UpdateStatus example_engine 3%N "pending"
         (example_world database_cancelled)) = None /\
  map row_status
    (orders (w_db (snd (UpdateStatus example_engine 3%N "pending"
                          (example_world database_cancelled))))) =
  ["pending"] /\
  spec_in_table "cancelled" "pending" = false.
Proof.
  destruct (UpdateStatus_of_the_repository_has_no_guard example_engine 3%N
              "pending" (example_world database_cancelled) eq_refl)
    as (H1 & _ & _ & H4 & _).
  split; [apply H4; reflexivity |]. split; [| reflexivity].
  rewrite H1. reflexivity.
Defined.

End UpdateFacts.

(** *** A status update read back *)

(** [UpdateStatus] of the aggregate against a concrete environment. *)
Lemma exec_UpdateStatus {S} (env : Env S) (o : Order) (newStatus : OrderStatus)
    (s : S) :
  exec env (UpdateStatus o newStatus) s =
  if spec_in_table (Status o) newStatus then
    ((set_UpdatedAt (fst (on_TimeNow env s)) (set_Status newStatus o), None),
     snd (on_TimeNow env s), [CTimeNow (fst (on_TimeNow env s))])
  else
    ((o, Some (InvalidStatusTransitionError (Status o) newStatus)), s, []).
Proof.
  unfold UpdateStatus. rewrite canTransitionTo_table.
  destruct (spec_in_table (Status o) newStatus); cbn; [| reflexivity].
  now destruct (on_TimeNow env s).
Qed.

Section StatusRoundTrip.
Import postgres.

(** A successful [UpdateOrderStatus] against the repository: the order was
    read, its transition was allowed, and the updated order was saved by
    [Update]; what follows only publishes and logs. *)
Lemma exec_UpdateOrderStatus_ok eng (req : UpdateOrderStatusRequest)
    (w w1 : World) resp tr1 :
  exec (env eng) (UpdateOrderStatusUseCase.Execute req) w = (inl resp, w1, tr1) ->
  exists order wa wc,
    let saved := updated_order req order (w_clock wa (w_ticks wa)) in
    us_OrderID req <> uuid_Nil /\
    GetByID eng (us_OrderID req) w = (inl order, wa) /\
    spec_in_table (Status order) (us_NewStatus req) = true /\
    Update eng saved (set_ticks (S (w_ticks wa)) wa) = (None, wc) /\
    usresp_Order resp = saved /\ usresp_OldStatus resp = Status order /\
    w_db w1 = w_db wc /\ w_faults w1 = w_faults wc /\
    w_calls w1 = S (w_calls wc).
Proof.
  unfold UpdateOrderStatusUseCase.Execute.
  destruct (UpdateOrderStatusUseCase.validateRequest req) as [verr |] eqn:Ev.
  { cbn. discriminate. }
  assert (Hid : us_OrderID req <> uuid_Nil).
  { unfold UpdateOrderStatusUseCase.validateRequest in Ev.
    destruct (N.eqb_spec (us_OrderID req) uuid_Nil); [discriminate | auto]. }
  unfold orderRepo_GetByID. cbn [bind exec env on_RepoGetByID].
  destruct (GetByID eng (us_OrderID req) w) as [[order | err] wa] eqn:Eg.
  2: { cbn. discriminate. }
  rewrite exec_bind, exec_UpdateStatus.
  destruct (spec_in_table (Status order) (us_NewStatus req)) eqn:Et.
  2: { cbn. discriminate. }
  cbn [env on_TimeNow fst snd]. unfold now. cbn [fst snd].
  fold (updated_order req order (w_clock wa (w_ticks wa))).
  set (saved := updated_order req order (w_clock wa (w_ticks wa))).
  unfold orderRepo_Update. cbn [bind exec env on_RepoUpdate app].
  destruct (Update eng saved (set_ticks (S (w_ticks wa)) wa))
    as [[uerr |] wc] eqn:Eu.
  { cbn. discriminate. }
  unfold UpdateOrderStatusUseCase.publishAndRespond, ToEvent,
    publisher_PublishOrderEvent.
  cbn [bind exec env on_Log on_UuidNew on_TimeNow on_Publish log uuid_New
         time_Now].
  unfold new_uuid, now, publish, remote_call.
  cbn [w_faults w_calls set_log set_draws set_ticks set_calls].
  destruct (w_faults wc (w_calls wc));
    cbn [bind exec env on_Log log]; intros [= <- <- _];
    exists order, wa, wc; repeat split; auto.
Qed.

Lemma find_saved_row eng (order : Order) (db_now : Time)
    (rows : list OrderRow) (r : OrderRow) :
  find (fun r => N.eqb (row_id r) (ID order)) rows = Some r ->
  find (fun r => N.eqb (row_id r) (ID order))
    (map (saved_row eng order db_now) rows) =
  Some (saved_row eng order db_now r).
Proof.
  induction rows as [|x l IH]; cbn [find map]; [discriminate |].
  unfold saved_row at 1.
  destruct (N.eqb (row_id x) (ID order)) eqn:Ex; cbn [row_id].
  - rewrite Ex. intros [= <-]. unfold saved_row. now rewrite Ex.
  - rewrite Ex. exact IH.
Qed.

(** The addresses the loop attaches depend on the rows and on the addresses
    the order starts with, not on the rest of the order. *)
Lemma attach_addresses_same (l : list Address) :
  forall o1 o2 : Order,
    ShippingAddress o1 = ShippingAddress o2 ->
    BillingAddress o1 = BillingAddress o2 ->
    ShippingAddress (attach_addresses l o1) =
      ShippingAddress (attach_addresses l o2) /\
    BillingAddress (attach_addresses l o1) =
      BillingAddress (attach_addresses l o2).
Proof.
  induction l as [|x l IH]; intros o1 o2 Hs Hb; cbn [attach_addresses].
  - auto.
  - apply IH;
      destruct (String.eqb (addr_Type x) "shipping");
      [| destruct (String.eqb (addr_Type x) "billing") | |
       destruct (String.eqb (addr_Type x) "billing")];
      cbn; auto.
Qed.

(** X11. A status update read back. For every request for which
    [UpdateOrderStatus] succeeds against the repository, [GetOrder] on the
    same id, when its three queries do not fail, returns the order with the
    requested status, reached by a transition of the table from the status
    reported as old. The items of the order the use case returned and the
    items read back are both what a loop over the rows has seen of the same
    stored items of the id, in the same order: each is a first part of
    them, and they are the same list when neither iteration broke off,
    which [getOrderItems] does not report; likewise the addresses read
    back are those of the order the use case returned when neither
    iteration over the address rows broke off. Two things always differ
    from the returned order: the metadata read back is empty, so the
    status_change_reason the use case stored in it is not persisted, and
    the update time read back is the database's NOW() at the UPDATE,
    whereas the returned order carries the reading of the service's
    clock. *)
Theorem UpdateOrderStatus_then_GetOrder :
  forall (eng : Engine) (req : UpdateOrderStatusRequest) (w w1 : World)
         resp tr1,
    exec (env eng) (UpdateOrderStatusUseCase.Execute req) w
      = (inl resp, w1, tr1) ->
    (forall k, (k < 3)%nat -> w_faults w1 (k + w_calls w1)%nat = None) ->
    exists got w2 tr2,
      exec (env eng)
        (GetOrderUseCase.Execute (mkGetOrderRequest (us_OrderID req))) w1
        = (inl (mkGetOrderResponse got), w2, tr2) /\
      ID got = us_OrderID req /\ Status got = us_NewStatus req /\
      spec_in_table (usresp_OldStatus resp) (us_NewStatus req) = true /\
      Items (usresp_Order resp) =
        rows_read (w_cuts w (1 + w_calls w)%nat)
          (order_items_of eng (us_OrderID req) (w_db w)) /\
      Items got =
        rows_read (w_cuts w1 (1 + w_calls w1)%nat)
          (order_items_of eng (us_OrderID req) (w_db w)) /\
      (w_cuts w (1 + w_calls w)%nat = None ->
       w_cuts w1 (1 + w_calls w1)%nat = None ->
       Items got = Items (usresp_Order resp)) /\
      (w_cuts w (2 + w_calls w)%nat = None ->
       w_cuts w1 (2 + w_calls w1)%nat = None ->
       ShippingAddress got = ShippingAddress (usresp_Order resp) /\
       BillingAddress got = BillingAddress (usresp_Order resp)) /\
      Metadata got = ∅ /\
      (us_Reason req <> "" ->
       Metadata (usresp_Order resp) !! "status_change_reason" =
       Some (AString (us_Reason req))) /\
      UpdatedAt (usresp_Order resp) = w_clock w (w_ticks w) /\
      UpdatedAt got = w_db_clock w (3 + w_calls w)%nat.
Proof.
  intros eng req w w1 resp tr1 Hexec Hok.
  apply exec_UpdateOrderStatus_ok in Hexec
    as (order & wa & wc & Hid & Hget & Ht & Hupd & Hresp & Hold & Hdb & Hf & Hc).
  cbv zeta in Hupd, Hresp.
  assert (Hinl : fst (GetByID eng (us_OrderID req) w) = inl order)
    by now rewrite Hget.
  apply GetByID_inl in Hinl as (row & Hfind & Horder & Hwa & _).
  rewrite Hget in Hwa. cbn [snd] in Hwa. subst wa.
  cbn [w_clock w_ticks set_calls] in Hupd, Hresp.
  set (now := w_clock w (w_ticks w)) in *.
  set (id := us_OrderID req) in *.
  set (items := order_items_of eng id (w_db w)) in *.
  set (rows := order_addresses_of eng id (w_db w)) in *.
  set (base := mkOrder (row_id row) (row_customer_id row) (row_email row)
                 (row_status row) (row_total_amount row) (row_currency row)
                 (rows_read (w_cuts w (1 + w_calls w)%nat) items)
                 (row_created_at row) (row_updated_at row) None None ∅) in *.
  destruct (attach_addresses_inv
              (rows_read (w_cuts w (2 + w_calls w)%nat) rows) base)
    as ((O1 & _ & _ & _ & _ & _ & O7 & _ & _ & _) & _ & _).
  rewrite <- Horder in O1, O7. cbn [base ID Items] in O1, O7.
  pose proof (find_row_id _ _ _ Hfind) as [_ Hrow].
  assert (Hoid : ID order = id) by congruence.
  destruct (updated_order_fields req order now) as (U1 & U2 & U3).
  set (saved := updated_order req order now) in *.
  (* the database after the update *)
  rewrite Update_eq in Hupd. cbv zeta in Hupd.
  cbn [w_faults w_calls w_db w_db_clock set_ticks set_calls] in Hupd.
  destruct (w_faults w (3 + w_calls w)%nat) eqn:F3; [discriminate |].
  destruct (row_ok eng saved); [| discriminate].
  destruct (has_order (w_db w) (ID saved)); [| discriminate].
  injection Hupd as <-. cbn [w_db set_db w_faults w_calls set_calls set_ticks]
    in Hdb, Hf, Hc.
  (* the row read back *)
  assert (Hfind' : find (fun r => N.eqb (row_id r) id) (orders (w_db w1)) =
                   Some (saved_row eng saved (w_db_clock w (3 + w_calls w)%nat)
                           row)).
  { rewrite Hdb. cbn [orders]. rewrite <- Hoid, <- U2.
    apply find_saved_row. now rewrite U2, Hoid. }
  pose proof (GetByID_found eng id w1 _ (Hok 0%nat ltac:(lia))
                (Hok 1%nat ltac:(lia)) (Hok 2%nat ltac:(lia)) Hfind') as Hgot.
  assert (Hitems : order_items_of eng id (w_db w1) = items).
  { subst items. unfold order_items_of. now rewrite Hdb. }
  assert (Haddr : order_addresses_of eng id (w_db w1) = rows).
  { subst rows. unfold order_addresses_of. now rewrite Hdb. }
  rewrite Hitems, Haddr in Hgot.
  set (base' := mkOrder _ _ _ _ _ _
                  (rows_read (w_cuts w1 (S (w_calls w1))) items) _ _ None
                  None ∅) in Hgot.
  destruct (attach_addresses_inv
              (rows_read (w_cuts w1 (S (S (w_calls w1)))) rows) base')
    as ((G1 & _ & _ & G4 & _ & _ & G7 & _ & G9 & G10) & _ & _).
  destruct (attach_addresses_same rows base' base eq_refl eq_refl)
    as [Gs Gb].
  assert (Hrowid : N.eqb (row_id row) (ID saved) = true).
  { apply N.eqb_eq. congruence. }
  cbn [base' ID Status Items UpdatedAt Metadata] in G1, G4, G7, G9, G10.
  unfold saved_row in G1, G4, G9. rewrite Hrowid in G1, G4, G9.
  cbn [row_id row_status row_updated_at] in G1, G4, G9.
  eexists _, _, _. split.
  { unfold GetOrderUseCase.Execute, GetOrderUseCase.validateRequest.
    cbn [gr_OrderID].
    destruct (N.eqb_spec id uuid_Nil) as [E | _]; [contradiction |].
    unfold orderRepo_GetByID. cbn [bind exec env on_RepoGetByID].
    rewrite Hgot. cbn [bind exec env on_Log log]. reflexivity. }
  rewrite Hresp, Hold.
  assert (Hsaved : Items saved = Items order /\
                   ShippingAddress saved = ShippingAddress order /\
                   BillingAddress saved = BillingAddress order /\
                   (us_Reason req <> "" ->
                    Metadata saved !! "status_change_reason" =
                    Some (AString (us_Reason req)))).
  { subst saved. unfold updated_order.
    destruct (String.eqb_spec (us_Reason req) "") as [E | E]; cbn [negb].
    - repeat split. intros H. contradiction.
    - repeat split. intros _. cbn [Metadata set_Metadata].
      apply lookup_insert_eq. }
  destruct Hsaved as (S1 & S2 & S3 & S4).
  split; [congruence |]. split; [congruence |]. split; [exact Ht |].
  split; [congruence |]. split; [exact G7 |].
  split.
  { intros C1 C2. change (1 + w_calls w1)%nat with (S (w_calls w1)) in C2.
    rewrite G7, S1, O7, C1, C2. reflexivity. }
  split.
  { intros C1 C2. change (2 + w_calls w1)%nat with (S (S (w_calls w1))) in C2.
    rewrite S2, S3, Horder, C1, C2. cbn [rows_read]. split; assumption. }
  split; [exact G10 |]. split; [exact S4 |]. split; [exact U3 |]. exact G9.
Qed.

(** The confirmed order of the example moved to processing with the reason
    "paid", and read back. *)
Lemma UpdateOrderStatus_then_GetOrder_witness :
  exists got,
    fst (fst (exec (env example_engine)
                (GetOrderUseCase.Execute (mkGetOrderRequest 3%N))
                (snd (fst (exec (env example_engine)
                             (UpdateOrderStatusUseCase.Execute
                                request_to_processing)
                             (example_world database_confirmed)))))) =
      inl (mkGetOrderResponse got) /\
    Status got = "processing" /\ Metadata got = ∅ /\ UpdatedAt got = 503.
Proof.
  destruct (exec (env example_engine)
              (UpdateOrderStatusUseCase.Execute request_to_processing)
              (example_world database_confirmed)) as [[res w1] tr1] eqn:E.
  assert (Hres : exists resp, res = inl resp /\
                              (forall k, (k < 3)%nat ->
                                         w_faults w1 (k + w_calls w1)%nat = None)).
  { vm_compute in E. injection E as <- <- _. eexists. split; [reflexivity |].
    intros k _. reflexivity. }
  destruct Hres as (resp & -> & Hok).
  destruct (UpdateOrderStatus_then_GetOrder example_engine
              request_to_processing (example_world database_confirmed) w1
              resp tr1 E Hok)
    as (got & w2 & tr2 & Hget & _ & Hs & _ & _ & _ & _ & _ & Hm & _ & _ & Hu).
  exists got. cbn [fst snd]. cbn [us_OrderID request_to_processing] in Hget.
  rewrite Hget. repeat split; assumption.
Defined.

End StatusRoundTrip.

(** *** Delete and Exists *)

Section SoftDeleteFacts.
Import postgres.

Lemma has_order_map (f : OrderRow -> OrderRow) (d : Database) (id : UUID)
    (rows : list OrderRow) :
  (forall r, row_id (f r) = row_id r) ->
  existsb (fun r => N.eqb (row_id r) id) (map f rows) =
  existsb (fun r => N.eqb (row_id r) id) rows.
Proof.
  intros Hf. induction rows as [|x l IH]; [reflexivity |].
  cbn [map existsb]. now rewrite Hf, IH.
Qed.

(** After the UPDATE of [Delete], its guard holds for no row. *)
Lemma Delete_guard_after (id : UUID) (db_now : Time) (rows : list OrderRow) :
  filter (Delete_guard id)
    (map (fun r => if Delete_guard id r then cancelled_row db_now r else r)
       rows) = [].
Proof.
  apply filter_nil_iff. intros x Hx. apply in_map_iff in Hx as (r & <- & _).
  destruct (Delete_guard id r) eqn:Eg; [| exact Eg].
  unfold Delete_guard, cancelled_row. cbn [row_id row_status existsb].
  apply andb_false_iff. right. reflexivity.
Qed.

(** X12. [Delete] is a soft delete, and it is not repeatable. When a call of
    [Delete] succeeds, no row is removed from any table: the order's row is
    still there, so [Exists] still answers true for the id, and every row
    with the id is in one of the statuses delivered, refunded, cancelled. A
    second [Delete] of the same id, when its UPDATE does not fail, affects
    no row: it reports OrderNotFound for an order that exists, and changes
    nothing. *)
Theorem Delete_is_soft_and_not_repeatable :
  forall (eng : Engine) (id : UUID) (w : World),
    let w1 := snd (Delete eng id w) in
    fst (Delete eng id w) = None ->
    w_faults w1 (w_calls w1) = None ->
    length (orders (w_db w1)) = length (orders (w_db w)) /\
    order_items (w_db w1) = order_items (w_db w) /\
    order_addresses (w_db w1) = order_addresses (w_db w) /\
    has_order (w_db w1) id = true /\
    fst (OrderRepository.Exists id w1) = inl true /\
    (forall r, In r (orders (w_db w1)) -> row_id r = id ->
               In (row_status r) ["delivered"; "refunded"; "cancelled"]) /\
    fst (Delete eng id w1) = Some (OrderNotFoundError id) /\
    w_db (snd (Delete eng id w1)) = w_db w1.
Proof.
  intros eng id w w1 Hok F1. subst w1. revert Hok F1.
  rewrite (Delete_eq eng id w). cbv zeta.
  destruct (w_faults w (w_calls w)); [discriminate |].
  cbn [fst snd]. set (db_now := w_db_clock w (w_calls w)).
  set (w1 := set_db _ _).
  destruct (length (filter (Delete_guard id) (orders (w_db w))) =? 0)%nat
    eqn:Eaff; [discriminate |]. intros _ F1.
  assert (Hex : exists r, In r (orders (w_db w)) /\ Delete_guard id r = true).
  { destruct (filter (Delete_guard id) (orders (w_db w))) as [|r0 l] eqn:Ef;
      [discriminate |].
    assert (Hr0 : r0 ∈ filter (Delete_guard id) (orders (w_db w)))
      by (rewrite Ef; left).
    apply list_elem_of_filter in Hr0 as [Hg Hin]. exists r0.
    split; [now apply list_elem_of_In |]. now destruct (Delete_guard id r0). }
  assert (Hhas : has_order (w_db w1) id = true).
  { unfold has_order. cbn [w1 w_db set_db orders].
    rewrite (has_order_map _ (w_db w)).
    - destruct Hex as (r & Hin & Hg). apply existsb_exists. exists r.
      split; [exact Hin |]. apply Delete_guard_iff in Hg as (E & _).
      now apply N.eqb_eq.
    - intros r. destruct (Delete_guard id r); reflexivity. }
  pose proof (Delete_guard_after id db_now (orders (w_db w))) as Hnone.
  split; [cbn [w1 w_db set_db orders]; apply length_map |].
  split; [reflexivity |]. split; [reflexivity |]. split; [exact Hhas |].
  split.
  { unfold OrderRepository.Exists, remote_call. rewrite F1.
    cbn [fst w_db set_calls]. now rewrite Hhas. }
  split.
  { intros r Hin Hid. cbn [w1 w_db set_db orders] in Hin.
    apply in_map_iff in Hin as (r0 & <- & Hin0).
    destruct (Delete_guard id r0) eqn:Eg.
    - cbn. auto.
    - apply N.eqb_eq in Hid. unfold Delete_guard in Eg.
      rewrite Hid in Eg. cbn [andb existsb] in Eg.
      apply negb_false_iff in Eg. rewrite orb_false_r in Eg.
      apply orb_true_iff in Eg as [Eg | Eg];
        [| apply orb_true_iff in Eg as [Eg | Eg]];
        apply String.eqb_eq in Eg; rewrite Eg; cbn; auto. }
  rewrite (Delete_eq eng id w1). cbv zeta. rewrite F1. cbn [fst snd w_db set_db].
  cbn [w1 w_db set_db orders order_items order_addresses].
  rewrite Hnone. cbn [length Nat.eqb]. split; [reflexivity |].
  rewrite (map_unguarded _ _ _ Hnone). reflexivity.
Qed.

(** The shipped order of the example deleted twice. *)
Lemma Delete_is_soft_and_not_repeatable_witness :
  fst (Delete example_engine 3%N
         (snd (Delete example_engine 3%N (example_world database_shipped))))
  = Some (OrderNotFoundError 3%N) /\
  fst (OrderRepository.Exists 3%N
         (snd (Delete example_engine 3%N (example_world database_shipped))))
  = inl true.
Proof.
  destruct (Delete_is_soft_and_not_repeatable example_engine 3%N
              (example_world database_shipped) eq_refl eq_refl)
    as (_ & _ & _ & _ & He & _ & Hd & _).
  split; [exact Hd | exact He].
Defined.

End SoftDeleteFacts.

(** ** The queries of List and Count *)

Section QueryFacts.
Import OrderRepository.

(** *** Texts *)

Lemma append_nil_r (s : string) : s +:+ "" = s.
Proof.
  induction s as [|c s IH]; [reflexivity |]. now rewrite append_String, IH.
Qed.

Lemma append_assoc (a b c : string) : (a +:+ b) +:+ c = a +:+ (b +:+ c).
Proof.
  induction a as [|x a IH]; [now rewrite !append_Empty |].
  now rewrite !append_String, IH.
Qed.

Lemma take_digits_app (a b : string) :
  starts_clean b -> take_digits (a +:+ b) = take_digits a.
Proof.
  intros Hb. induction a as [|c a IH].
  - rewrite append_Empty. destruct b as [|c b]; [reflexivity |].
    cbn [take_digits]. cbn in Hb. now rewrite Hb.
  - rewrite append_String. cbn [take_digits]. now rewrite IH.
Qed.

(** The placeholders of two texts put together, when the second does not
    continue a number the first ends with. *)
Lemma placeholders_app (a b : string) :
  starts_clean b ->
  placeholders (a +:+ b) = placeholders a ++ placeholders b.
Proof.
  intros Hb. induction a as [|c a IH].
  - now rewrite append_Empty.
  - rewrite append_String. cbn [placeholders].
    destruct (Ascii.eqb c "$"); rewrite IH, ?take_digits_app by exact Hb;
      reflexivity.
Qed.

Lemma placeholders_app_clean (a b : string) :
  placeholders a = [] -> placeholders (a +:+ b) = placeholders b.
Proof.
  induction a as [|c a IH]; intros Ha.
  - now rewrite append_Empty.
  - rewrite append_String. cbn [placeholders] in *.
    destruct (Ascii.eqb c "$"); [discriminate | auto].
Qed.

Lemma digits_of_uint (d : Decimal.uint) :
  take_digits (NilEmpty.string_of_uint d) = NilEmpty.string_of_uint d /\
  placeholders (NilEmpty.string_of_uint d) = [].
Proof.
  induction d as [|d [IH1 IH2]|d [IH1 IH2]|d [IH1 IH2]|d [IH1 IH2]
                  |d [IH1 IH2]|d [IH1 IH2]|d [IH1 IH2]|d [IH1 IH2]
                  |d [IH1 IH2]|d [IH1 IH2]];
    cbn [NilEmpty.string_of_uint]; [split; reflexivity | ..];
    (split; [change (take_digits (String ?c ?s)) with (String c (take_digits s));
             now rewrite IH1
            | exact IH2]).
Qed.

(** The decimal text of a positive number: digits only. *)
Lemma Itoa_digits (k : Z) :
  0 < k -> take_digits (Itoa k) = Itoa k /\ placeholders (Itoa k) = [].
Proof.
  intros Hk. destruct k as [|p|p]; try lia.
  unfold Itoa. cbn [Z.to_int NilZero.string_of_int].
  unfold NilZero.string_of_uint.
  destruct (Pos.to_uint p) eqn:E; try (rewrite <- E; apply digits_of_uint).
  split; reflexivity.
Qed.

Lemma placeholders_dollar (p x : string) (k : Z) :
  placeholders p = [] -> 0 < k ->
  placeholders (p +:+ "$" +:+ (Itoa k +:+ "")) = [Itoa k].
Proof.
  intros Hp Hk. rewrite append_nil_r, (placeholders_app_clean _ _ Hp).
  rewrite append_String, append_Empty. cbn [placeholders].
  destruct (Itoa_digits k Hk) as [-> ->]. reflexivity.
Qed.

Lemma Join_snoc (l : list string) (c sep : string) :
  Join (l ++ [c]) sep =
  match l with
  | [] => c
  | _ => Join l sep +:+ sep +:+ c
  end.
Proof.
  induction l as [|x l IH]; [reflexivity |]. cbn [app Join].
  destruct l as [|y l]; [reflexivity |]. cbn [app] in *.
  rewrite IH. now rewrite !append_assoc.
Qed.

Lemma numbered_S (n : nat) :
  numbered (S n) = numbered n ++ [Itoa (Z.of_nat (S n))].
Proof. unfold numbered. now rewrite seq_S, map_app. Qed.

(** *** The filters *)

Lemma condition_formats :
  dollar_format "customer_id = $%d" /\ dollar_format "status = $%d" /\
  dollar_format "email ILIKE $%d" /\ dollar_format "total_amount >= $%d" /\
  dollar_format "total_amount <= $%d" /\ dollar_format "currency = $%d" /\
  dollar_format "created_at >= $%d" /\ dollar_format "created_at <= $%d".
Proof.
  repeat split;
    [ exists "customer_id = " | exists "status = " | exists "email ILIKE "
    | exists "total_amount >= " | exists "total_amount <= "
    | exists "currency = " | exists "created_at >= "
    | exists "created_at <= " ]; split; reflexivity.
Qed.

(** One filter keeps the variables in step. *)
Lemma filter_step_ok {A} (field : option A) (format : string)
    (value : A -> SqlArg) (q : QueryVars) :
  dollar_format format -> vars_ok q ->
  vars_ok (filter_step field format value q).
Proof.
  intros (p & Hp & Hf) (Hi & Hl & Hph). destruct field as [v |]; [| now split].
  unfold filter_step, vars_ok.
  cbn [incr append_arg append_condition conditions args argIndex].
  rewrite !length_app. cbn [length]. split; [lia |]. split; [lia |].
  rewrite Join_snoc, Hf. replace (length (args q) + 1)%nat
    with (S (length (args q))) by lia.
  rewrite numbered_S.
  assert (Hc : placeholders (p +:+ "$" +:+ (Itoa (argIndex q) +:+ "")) =
               [Itoa (Z.of_nat (S (length (args q))))]).
  { rewrite <- Hi. apply placeholders_dollar; [exact "" | exact Hp | lia]. }
  destruct (conditions q) as [|c0 l] eqn:Ec.
  - cbn [length] in Hl. rewrite <- Hl in *. rewrite Hc. reflexivity.
  - rewrite placeholders_app.
    + rewrite Hph. f_equal.
      rewrite (placeholders_app_clean " AND " _ eq_refl). exact Hc.
    + rewrite append_String. reflexivity.
Qed.

Lemma filter_vars_ok (filters : OrderFilters) : vars_ok (filter_vars filters).
Proof.
  destruct condition_formats as (F1 & F2 & F3 & F4 & F5 & F6 & F7 & F8).
  unfold filter_vars. repeat (apply filter_step_ok; [assumption |]).
  repeat split.
Qed.

Lemma filter_step_length {A} (field : option A) format value (q : QueryVars)
    (n : nat) :
  (length (args q) <= n)%nat ->
  (length (args (filter_step field format value q)) <= S n)%nat.
Proof.
  intros H. destruct field; cbn; [rewrite length_app; cbn; lia | lia].
Qed.

Lemma filter_vars_length (filters : OrderFilters) :
  (length (args (filter_vars filters)) <= 8)%nat.
Proof.
  unfold filter_vars. repeat apply filter_step_length. cbn. lia.
Qed.

(** *** The builders *)

Lemma Sprintf_order_by (sortBy sortOrder : string) :
  fmt_Sprintf " ORDER BY %s %s" [sortBy; sortOrder] =
  " ORDER BY " +:+ sortBy +:+ " " +:+ sortOrder.
Proof.
  transitivity (" ORDER BY " +:+ sortBy +:+ " " +:+ (sortOrder +:+ ""));
    [reflexivity | now rewrite append_nil_r].
Qed.

Lemma Sprintf_limit (x : string) :
  fmt_Sprintf " LIMIT $%d" [x] = " LIMIT $" +:+ x.
Proof.
  transitivity (" LIMIT $" +:+ (x +:+ ""));
    [reflexivity | now rewrite append_nil_r].
Qed.

Lemma Sprintf_offset (x : string) :
  fmt_Sprintf " OFFSET $%d" [x] = " OFFSET $" +:+ x.
Proof.
  transitivity (" OFFSET $" +:+ (x +:+ ""));
    [reflexivity | now rewrite append_nil_r].
Qed.

(** [buildCountQuery] in terms of the filters. *)
Lemma buildCountQuery_eq (filters : OrderFilters) :
  buildCountQuery filters =
  ("SELECT COUNT(*) FROM orders" +:+
   where_clause (conditions (filter_vars filters)),
   args (filter_vars filters)).
Proof.
  unfold buildCountQuery, filter_vars. cbv zeta.
  fold (filter_step (f_CustomerID filters) "customer_id = $%d" ArgUUID
          (mkQueryVars [] [] 1)).
  set (q1 := filter_step (f_CustomerID filters) _ _ _).
  fold (filter_step (f_Status filters) "status = $%d" ArgStatus q1).
  set (q2 := filter_step (f_Status filters) _ _ _).
  fold (filter_step (f_Email filters) "email ILIKE $%d"
          (fun v => ArgString ("%" +:+ v +:+ "%")) q2).
  set (q3 := filter_step (f_Email filters) _ _ _).
  fold (filter_step (f_MinAmount filters) "total_amount >= $%d" ArgFloat q3).
  set (q4 := filter_step (f_MinAmount filters) _ _ _).
  fold (filter_step (f_MaxAmount filters) "total_amount <= $%d" ArgFloat q4).
  set (q5 := filter_step (f_MaxAmount filters) _ _ _).
  fold (filter_step (f_Currency filters) "currency = $%d" ArgString q5).
  set (q6 := filter_step (f_Currency filters) _ _ _).
  fold (filter_step (f_DateFrom filters) "created_at >= $%d" ArgString q6).
  set (q7 := filter_step (f_DateFrom filters) _ _ _).
  unfold where_clause.
  destruct (f_DateTo filters) as [v |]; cbn [filter_step incr append_arg
    append_condition conditions args];
    match goal with
    | |- context [(0 <? ?n)%nat] => destruct (0 <? n)%nat
    end; reflexivity.
Qed.

(** [buildListQuery] in terms of the filters. *)
Lemma buildListQuery_eq (filters : OrderFilters) :
  buildListQuery filters =
  (list_select +:+ where_clause (conditions (filter_vars filters)) +:+
   " ORDER BY " +:+ sort_field filters +:+ " " +:+ sort_order filters +:+
   paging_text filters (argIndex (filter_vars filters)),
   args (filter_vars filters) ++ paging_args filters).
Proof.
  unfold buildListQuery. cbv zeta.
  unfold filter_vars, filter_step.
  match goal with
  | |- context [(0 <? length (conditions ?q0))%nat] => set (q := q0)
  end.
  fold (sort_field filters). fold (sort_order filters).
  unfold where_clause, paging_text, paging_args.
  destruct (0 <? length (conditions q))%nat;
    destruct (0 <? f_Limit filters)%Z; destruct (0 <? f_Offset filters)%Z;
    cbn [incr append_arg conditions args argIndex];
    rewrite ?Sprintf_order_by, ?Sprintf_limit, ?Sprintf_offset;
    rewrite ?append_Empty, ?append_nil_r, ?append_assoc, ?append_Empty,
      ?append_nil_r, ?app_nil_r, <- ?app_assoc;
    reflexivity.
Qed.

Lemma where_clause_placeholders (q : QueryVars) :
  vars_ok q ->
  placeholders (where_clause (conditions q)) = numbered (length (args q)) /\
  (where_clause (conditions q) = "" <-> args q = []) /\
  starts_clean (where_clause (conditions q)).
Proof.
  intros (_ & Hl & Hph). unfold where_clause.
  destruct (conditions q) as [|c l] eqn:Ec; cbn [length Nat.ltb Nat.leb].
  - cbn [length] in Hl. destruct (args q); [| discriminate].
    repeat split; reflexivity.
  - change (0 <? S (length l))%nat with true. cbn iota.
    rewrite (placeholders_app_clean " WHERE " _ eq_refl), Hph.
    split; [reflexivity |]. split.
    + split; [rewrite append_String; discriminate |].
      intros E. rewrite E in Hl. discriminate.
    + rewrite append_String. reflexivity.
Qed.

(** X13. [buildCountQuery] counts what [buildListQuery] lists. The code of
    the eight filters is written out twice; for every filter value both
    builders produce the same WHERE clause and the same filter arguments,
    at most eight, with no WHERE clause exactly when no filter is set and
    with the placeholders of the clause numbered $1 ... $n in order. The
    count query is SELECT COUNT( * ) FROM orders followed by the clause;
    the list query adds ORDER BY with the sort field and order (created_at
    and desc when empty), a LIMIT when the limit is positive and an OFFSET
    when the offset is positive, with the next indexes, and the limit and
    the offset as last arguments. *)
Theorem buildCountQuery_counts_what_buildListQuery_lists :
  forall filters : OrderFilters,
    exists (where_text : string) (filter_args : list SqlArg),
      buildCountQuery filters =
        ("SELECT COUNT(*) FROM orders" +:+ where_text, filter_args) /\
      buildListQuery filters =
        (list_select +:+ where_text +:+
         " ORDER BY " +:+ sort_field filters +:+ " " +:+ sort_order filters +:+
         paging_text filters (Z.of_nat (S (length filter_args))),
         filter_args ++ paging_args filters) /\
      (length filter_args <= 8)%nat /\
      (where_text = "" <-> filter_args = []) /\
      placeholders where_text = numbered (length filter_args).
Proof.
  intros filters.
  exists (where_clause (conditions (filter_vars filters))),
    (args (filter_vars filters)).
  pose proof (filter_vars_ok filters) as Hok.
  destruct (where_clause_placeholders _ Hok) as (Hph & Hnil & _).
  destruct Hok as (Hi & _ & _).
  split; [apply buildCountQuery_eq |].
  split; [rewrite buildListQuery_eq, Hi; reflexivity |].
  split; [apply filter_vars_length |]. split; [exact Hnil | exact Hph].
Qed.

Lemma paging_placeholders (filters : OrderFilters) (n : nat) :
  placeholders (paging_text filters (Z.of_nat (S n))) ++ [] =
  map (fun k => Itoa (Z.of_nat k))
    (seq (S n) (length (paging_args filters))) /\
  starts_clean (paging_text filters (Z.of_nat (S n))).
Proof.
  assert (Hd : forall p k, placeholders p = [] -> 0 < k ->
                           placeholders (p +:+ "$" +:+ Itoa k) = [Itoa k]).
  { intros p k Hp Hk. rewrite <- (append_nil_r (Itoa k)) at 1.
    now apply placeholders_dollar. }
  unfold paging_text, paging_args.
  destruct (0 <? f_Limit filters)%Z; destruct (0 <? f_Offset filters)%Z;
    cbn [app length seq map]; rewrite ?app_nil_r, ?append_nil_r,
      ?append_Empty.
  - change (" LIMIT $" +:+ ?x) with (" LIMIT " +:+ "$" +:+ x).
    change (" OFFSET $" +:+ ?x) with (" OFFSET " +:+ "$" +:+ x).
    split; [| rewrite append_String; reflexivity].
    rewrite placeholders_app by (rewrite append_String; reflexivity).
    rewrite !Hd by (reflexivity || lia). cbn [app]. do 2 f_equal. f_equal. lia.
  - change (" LIMIT $" +:+ ?x) with (" LIMIT " +:+ "$" +:+ x).
    split; [| rewrite append_String; reflexivity].
    now rewrite Hd by (reflexivity || lia).
  - change (" OFFSET $" +:+ ?x) with (" OFFSET " +:+ "$" +:+ x).
    split; [| rewrite append_String; reflexivity].
    now rewrite Hd by (reflexivity || lia).
  - split; reflexivity.
Qed.

Lemma numbered_app (n m : nat) :
  numbered (n + m) =
  numbered n ++ map (fun k => Itoa (Z.of_nat k)) (seq (S n) m).
Proof. unfold numbered. now rewrite seq_app, map_app. Qed.

(** The placeholders of the list query, for a sort field and a sort order
    that hold none. *)
Lemma buildListQuery_placeholders (filters : OrderFilters) :
  placeholders (f_SortBy filters) = [] ->
  placeholders (f_SortOrder filters) = [] ->
  placeholders (fst (buildListQuery filters)) =
  numbered (length (snd (buildListQuery filters))).
Proof.
  intros Hby Hord. rewrite buildListQuery_eq. cbn [fst snd].
  pose proof (filter_vars_ok filters) as Hok.
  destruct (where_clause_placeholders _ Hok) as (Hph & _ & _).
  destruct Hok as (Hi & _ & _). rewrite Hi.
  set (n := length (args (filter_vars filters))) in *.
  destruct (paging_placeholders filters n) as [Hp _].
  rewrite app_nil_r in Hp.
  assert (Hsb : placeholders (sort_field filters) = []).
  { unfold sort_field. now destruct (String.eqb (f_SortBy filters) ""). }
  assert (Hso : placeholders (sort_order filters) = []).
  { unfold sort_order. now destruct (String.eqb (f_SortOrder filters) ""). }
  rewrite (placeholders_app_clean list_select _ eq_refl).
  rewrite placeholders_app by (rewrite append_String; reflexivity).
  rewrite (placeholders_app_clean " ORDER BY " _ eq_refl).
  rewrite (placeholders_app_clean _ _ Hsb).
  rewrite (placeholders_app_clean " " _ eq_refl).
  rewrite (placeholders_app_clean _ _ Hso).
  rewrite Hph, Hp, length_app. fold n. symmetry. apply numbered_app.
Qed.

(** X14. The placeholders of a query match its arguments. For every filter
    value, reading the text [buildCountQuery] returns from left to right,
    the placeholders are $1, $2, ... $n in this order, where n is the number
    of arguments returned with it; the same holds for [buildListQuery],
    LIMIT and OFFSET included, provided the sort field and the sort order,
    which are copied into the text as they are, hold no "$". *)
Theorem query_placeholders_match_arguments :
  forall filters : OrderFilters,
    placeholders (fst (buildCountQuery filters)) =
      numbered (length (snd (buildCountQuery filters))) /\
    (placeholders (f_SortBy filters) = [] ->
     placeholders (f_SortOrder filters) = [] ->
     placeholders (fst (buildListQuery filters)) =
       numbered (length (snd (buildListQuery filters)))).
Proof.
  intros filters. split; [| apply buildListQuery_placeholders].
  rewrite buildCountQuery_eq. cbn [fst snd].
  destruct (where_clause_placeholders _ (filter_vars_ok filters)) as (Hph & _).
  now rewrite (placeholders_app_clean "SELECT COUNT(*) FROM orders" _ eq_refl).
Qed.

(** The list query of the example filters. *)
Lemma query_placeholders_witness :
  placeholders (fst (buildListQuery filters_example)) = ["1"; "2"; "3"; "4"] /\
  snd (buildListQuery filters_example) =
    [ArgUUID 1%N; ArgString "%shop.io%"; ArgInt 20; ArgInt 40].
Proof.
  split; [| reflexivity].
  exact (proj2 (query_placeholders_match_arguments filters_example)
           eq_refl eq_refl).
Defined.

(** One filter writes the same text whatever the value it filters on. *)
Lemma filter_step_same_text {A} (field field' : option A) (format : string)
    (value value' : A -> SqlArg) (q q' : QueryVars) :
  bool_decide (is_Some field) = bool_decide (is_Some field') ->
  same_text q q' ->
  same_text (filter_step field format value q)
    (filter_step field' format value' q').
Proof.
  intros Hs (Hc & Hi & Hl).
  destruct field, field'; cbn in Hs; try discriminate; [| now split].
  unfold same_text. cbn. rewrite Hc, Hi, !length_app, Hl. auto.
Qed.

Lemma filter_vars_same_text (filters filters' : OrderFilters) :
  filter_shape filters = filter_shape filters' ->
  same_text (filter_vars filters) (filter_vars filters').
Proof.
  unfold filter_shape. intros [= H1 H2 H3 H4 H5 H6 H7 H8 _ _ _ _].
  unfold filter_vars.
  repeat (apply filter_step_same_text; [assumption |]).
  repeat split.
Qed.

(** X15. No filter value is ever written into the text of a query. Two
    filter values that set the same filters, have the same sort field and
    sort order, and agree on whether the limit and the offset are positive,
    give the same text of the list query and the same text of the count
    query, however the customer, status, email pattern, amounts, currency
    and dates they filter on, and the limit and offset, differ: these
    travel as arguments only. (The sort field and the sort order are the
    only parts of a filter value that are copied into a text.) *)
Theorem query_text_is_independent_of_filter_values :
  forall filters filters' : OrderFilters,
    filter_shape filters = filter_shape filters' ->
    fst (buildListQuery filters) = fst (buildListQuery filters') /\
    fst (buildCountQuery filters) = fst (buildCountQuery filters') /\
    length (snd (buildListQuery filters)) =
      length (snd (buildListQuery filters')).
Proof.
  intros filters filters' Hshape.
  destruct (filter_vars_same_text _ _ Hshape) as (Hc & Hi & Hl).
  unfold filter_shape in Hshape.
  injection Hshape as _ _ _ _ _ _ _ _ Hby Hord Hlim Hoff.
  rewrite !buildListQuery_eq, !buildCountQuery_eq. cbn [fst snd].
  unfold sort_field, sort_order, paging_text, paging_args.
  rewrite Hc, Hi, Hby, Hord, Hlim, Hoff, !length_app, Hl.
  repeat split.
  destruct (0 <? f_Limit filters')%Z, (0 <? f_Offset filters')%Z; reflexivity.
Qed.

(** Another customer, another email pattern, another page: the same text. *)
Lemma query_text_witness :
  fst (buildListQuery
         (mkOrderFilters (Some 9%N) None (Some "'; DROP TABLE orders; --")
            None None None None None 5 500 "total_amount" "asc")) =
  fst (buildListQuery filters_example).
Proof.
  exact (proj1 (query_text_is_independent_of_filter_values _ filters_example
                  eq_refl)).
Defined.

End QueryFacts.

(* ===================================================================== *)
(** ** The queries ListOrders sends                                      *)

Section ListOrdersQueries.
Import ListOrdersUseCase OrderRepository.

Lemma valid_sort_field_clean (s : string) :
  In s validSortFields -> placeholders s = [] /\ s <> "".
Proof.
  unfold validSortFields.
  intros [<- | [<- | [<- | [<- | []]]]]; split; (reflexivity || discriminate).
Qed.

(** X16. The list queries of [ListOrders] are well formed. In every run of
    [ListOrdersUseCase.Execute], for every request, the filters of each
    call of the repository's List give, through [buildListQuery], a query
    whose ORDER BY names one of created_at, updated_at, total_amount, status
    followed by asc or desc (the two texts copied into the query are never
    the caller's own), which always has a LIMIT, whose argument is between 1
    and 100, and an OFFSET exactly when the offset is positive; its
    placeholders are $1 ... $n for its n arguments. *)
Theorem ListOrders_sends_well_formed_queries :
  forall (req : ListOrdersRequest) (tr : list Call)
         (res : ListOrdersResponse + error) (filters : OrderFilters)
         (r : list Order + error),
    runs (Execute req) tr res ->
    In (CRepoList filters r) tr ->
    In (f_SortBy filters) ["created_at"; "updated_at"; "total_amount"; "status"] /\
    (f_SortOrder filters = "asc" \/ f_SortOrder filters = "desc") /\
    1 <= f_Limit filters <= 100 /\
    (exists (where_text : string) (filter_args : list SqlArg),
        placeholders where_text = numbered (length filter_args) /\
        buildListQuery filters =
          (list_select +:+ where_text +:+
           " ORDER BY " +:+ f_SortBy filters +:+ " " +:+ f_SortOrder filters +:+
           " LIMIT $" +:+ Itoa (Z.of_nat (length filter_args) + 1) +:+
           (if (0 <? f_Offset filters)%Z
            then " OFFSET $" +:+ Itoa (Z.of_nat (length filter_args) + 2)
            else ""),
           filter_args ++ ArgInt (f_Limit filters) ::
           (if (0 <? f_Offset filters)%Z then [ArgInt (f_Offset filters)]
            else []))) /\
    placeholders (fst (buildListQuery filters)) =
      numbered (length (snd (buildListQuery filters))).
Proof.
  intros req tr res filters r Hrun Hin.
  apply runs_ListOrders in Hrun. cbv zeta in Hrun.
  destruct (validate (setDefaults req)) eqn:Ev.
  { destruct Hrun as [-> _]. destruct Hin as [[=] | []]. }
  assert (Hf : filters =
               mkOrderFilters (lr_CustomerID (setDefaults req))
                 (lr_Status (setDefaults req)) (lr_Email (setDefaults req))
                 (lr_MinAmount (setDefaults req))
                 (lr_MaxAmount (setDefaults req))
                 (lr_DateFrom (setDefaults req)) (lr_DateTo (setDefaults req))
                 (lr_Currency (setDefaults req)) (lr_Limit (setDefaults req))
                 (lr_Offset (setDefaults req)) (lr_SortBy (setDefaults req))
                 (lr_SortOrder (setDefaults req))).
  { destruct Hrun as [(e & -> & _) | [(os & e & -> & _) | (os & n & -> & _)]];
      cbn [In] in Hin;
      repeat match goal with
             | H : _ \/ _ |- _ => destruct H as [H | H]
             | H : False |- _ => destruct H
             | H : _ = _ |- _ => now inversion H
             end. }
  apply validate_None_iff in Ev as (Hby & Hord & _).
  destruct (setDefaults_fields req) as (Hl & _).
  assert (Hlim : 1 <= lr_Limit (setDefaults req) <= 100).
  { rewrite Hl. destruct (Z.leb_spec (lr_Limit req) 0); [lia |].
    destruct (Z.ltb_spec 100 (lr_Limit req)); lia. }
  clear Hl Hrun Hin. subst filters. cbn [f_SortBy f_SortOrder f_Limit f_Offset].
  set (filters := mkOrderFilters _ _ _ _ _ _ _ _ _ _ _ _).
  destruct (valid_sort_field_clean _ Hby) as [Hclean Hne].
  split; [exact Hby |]. split; [exact Hord |]. split; [exact Hlim |].
  split.
  - exists (where_clause (conditions (filter_vars filters))),
      (args (filter_vars filters)).
    pose proof (filter_vars_ok filters) as Hok.
    destruct (where_clause_placeholders _ Hok) as (Hph & _).
    destruct Hok as (Hi & _). split; [exact Hph |].
    rewrite buildListQuery_eq, Hi.
    unfold sort_field, sort_order, paging_text, paging_args.
    subst filters. cbn [f_SortBy f_SortOrder f_Limit f_Offset].
    apply String.eqb_neq in Hne. rewrite Hne.
    assert (Ho : String.eqb (lr_SortOrder (setDefaults req)) "" = false).
    { destruct Hord as [-> | ->]; reflexivity. }
    rewrite Ho.
    assert (Hpos : (0 <? lr_Limit (setDefaults req))%Z = true)
      by (apply Z.ltb_lt; lia).
    rewrite Hpos.
    replace (Z.of_nat (S (length (args (filter_vars
              (mkOrderFilters (lr_CustomerID (setDefaults req))
                 (lr_Status (setDefaults req)) (lr_Email (setDefaults req))
                 (lr_MinAmount (setDefaults req))
                 (lr_MaxAmount (setDefaults req))
                 (lr_DateFrom (setDefaults req)) (lr_DateTo (setDefaults req))
                 (lr_Currency (setDefaults req)) (lr_Limit (setDefaults req))
                 (lr_Offset (setDefaults req)) (lr_SortBy (setDefaults req))
                 (lr_SortOrder (setDefaults req))))))) + 1)
      with (Z.of_nat (length (args (filter_vars
              (mkOrderFilters (lr_CustomerID (setDefaults req))
                 (lr_Status (setDefaults req)) (lr_Email (setDefaults req))
                 (lr_MinAmount (setDefaults req))
                 (lr_MaxAmount (setDefaults req))
                 (lr_DateFrom (setDefaults req)) (lr_DateTo (setDefaults req))
                 (lr_Currency (setDefaults req)) (lr_Limit (setDefaults req))
                 (lr_Offset (setDefaults req)) (lr_SortBy (setDefaults req))
                 (lr_SortOrder (setDefaults req)))))) + 2) by lia.
    replace (Z.of_nat (S (length (args (filter_vars
              (mkOrderFilters (lr_CustomerID (setDefaults req))
                 (lr_Status (setDefaults req)) (lr_Email (setDefaults req))
                 (lr_MinAmount (setDefaults req))
                 (lr_MaxAmount (setDefaults req))
                 (lr_DateFrom (setDefaults req)) (lr_DateTo (setDefaults req))
                 (lr_Currency (setDefaults req)) (lr_Limit (setDefaults req))
                 (lr_Offset (setDefaults req)) (lr_SortBy (setDefaults req))
                 (lr_SortOrder (setDefaults req))))))))
      with (Z.of_nat (length (args (filter_vars
              (mkOrderFilters (lr_CustomerID (setDefaults req))
                 (lr_Status (setDefaults req)) (lr_Email (setDefaults req))
                 (lr_MinAmount (setDefaults req))
                 (lr_MaxAmount (setDefaults req))
                 (lr_DateFrom (setDefaults req)) (lr_DateTo (setDefaults req))
                 (lr_Currency (setDefaults req)) (lr_Limit (setDefaults req))
                 (lr_Offset (setDefaults req)) (lr_SortBy (setDefaults req))
                 (lr_SortOrder (setDefaults req)))))) + 1) by lia.
    rewrite <- !append_assoc. reflexivity.
  - apply buildListQuery_placeholders; [exact Hclean |].
    subst filters. cbn [f_SortOrder]. destruct Hord as [-> | ->]; reflexivity.
Qed.

(** A run of [Execute] on the example request: the one query it sends. *)
Lemma ListOrders_sends_well_formed_queries_witness :
  fst (buildListQuery
         (mkOrderFilters (Some 1%N) None None None None None None None
            20 0 "created_at" "desc")) =
  list_select +:+
    " WHERE customer_id = $1 ORDER BY created_at desc LIMIT $2" /\
  1 <= 20 <= 100.
Proof.
  split; [reflexivity |].
  refine (proj1 (proj2 (proj2
    (ListOrders_sends_well_formed_queries list_request_example
       [CRepoList
          (mkOrderFilters (Some 1%N) None None None None None None None
             20 0 "created_at" "desc") (inr (DriverError "down"));
        CLog LError "Failed to list orders"]
       (inr (Errorf "failed to list orders: %w" (DriverError "down")))
       (mkOrderFilters (Some 1%N) None None None None None None None
          20 0 "created_at" "desc")
       (inr (DriverError "down")) _ _)))).
  - apply runs_ListOrders. cbv zeta. left.
    exists (DriverError "down"). split; reflexivity.
  - left. reflexivity.
Defined.

End ListOrdersQueries.

(* ===================================================================== *)
(** ** The kafka package: headers, dispatch, batches                     *)

Section KafkaFacts.
Import kafka.
Local Open Scope kprog_scope.

Lemma kruns_Ret_iff {A} (a : A) tr r :
  kruns (KRet a) tr r <-> tr = [] /\ r = a.
Proof. split; [inversion 1; auto | intros [-> ->]; constructor]. Qed.

Lemma kruns_Printf_iff {A} format arguments (k : KProg A) tr r :
  kruns (KPrintf format arguments k) tr r <->
  exists tr', tr = EPrintf format arguments :: tr' /\ kruns k tr' r.
Proof.
  split; [inversion 1; subst; eauto | intros (tr' & -> & H); now constructor].
Qed.

Lemma kruns_Ask_iff {A} request (k : option error -> KProg A) tr r :
  kruns (KAsk request k) tr r <->
  exists answer tr', tr = ECall request answer :: tr' /\ kruns (k answer) tr' r.
Proof.
  split; [inversion 1; subst; eauto | intros (a & tr' & -> & H); now constructor].
Qed.

Lemma kruns_ask_iff request tr r :
  kruns (ask request) tr r <-> tr = [ECall request r].
Proof.
  unfold ask. rewrite kruns_Ask_iff. split.
  - intros (a & tr' & -> & H). apply kruns_Ret_iff in H as [-> ->]. reflexivity.
  - intros ->. exists r, []. split; [reflexivity | constructor].
Qed.

Lemma kruns_bind {A B} (p : KProg A) (f : A -> KProg B) tr b :
  kruns (kbind p f) tr b <->
  exists tr1 a tr2, kruns p tr1 a /\ kruns (f a) tr2 b /\ tr = tr1 ++ tr2.
Proof.
  revert tr. induction p as [a | format arguments k IH | request k IH];
    intros tr; cbn [kbind].
  - split.
    + intros H. exists [], a, tr. repeat split; auto. constructor.
    + intros (tr1 & a' & tr2 & H1 & H2 & ->).
      apply kruns_Ret_iff in H1 as [-> ->]. exact H2.
  - rewrite kruns_Printf_iff. split.
    + intros (tr' & -> & H). apply IH in H as (tr1 & a & tr2 & H1 & H2 & ->).
      exists (EPrintf format arguments :: tr1), a, tr2.
      split; [now constructor | auto].
    + intros (tr1 & a & tr2 & H1 & H2 & ->).
      apply kruns_Printf_iff in H1 as (tr' & -> & H1).
      exists (tr' ++ tr2). split; [reflexivity | apply IH; eauto 6].
  - rewrite kruns_Ask_iff. split.
    + intros (x & tr' & -> & H).
      apply IH in H as (tr1 & a & tr2 & H1 & H2 & ->).
      exists (ECall request x :: tr1), a, tr2.
      split; [now constructor | auto].
    + intros (tr1 & a & tr2 & H1 & H2 & ->).
      apply kruns_Ask_iff in H1 as (x & tr' & -> & H1).
      exists x, (tr' ++ tr2). split; [reflexivity | apply IH; eauto 6].
Qed.

Lemma handler_calls_app (tr1 tr2 : list KEvent) :
  handler_calls (tr1 ++ tr2) = handler_calls tr1 ++ handler_calls tr2.
Proof.
  induction tr1 as [| [f a | [ms | ms | call] r] tr1 IH]; cbn; auto.
  now rewrite IH.
Qed.

Lemma commits_app (tr1 tr2 : list KEvent) :
  commits (tr1 ++ tr2) = commits tr1 ++ commits tr2.
Proof.
  induction tr1 as [| [f a | [ms | ms | call] r] tr1 IH]; cbn; auto.
  now rewrite IH.
Qed.

(** *** Headers *)

Lemma extractHeaders_snoc (headers : list Header) (header : Header) :
  OrderEventHandler.extractHeaders (headers ++ [header]) =
  <[h_Key header := h_Value header]> (OrderEventHandler.extractHeaders headers).
Proof. unfold OrderEventHandler.extractHeaders. now rewrite fold_left_app. Qed.

Lemma getHeaderValue_app (headers rest : list Header) (key : string) :
  Consumer.getHeaderValue (headers ++ rest) key =
  if existsb (fun h => String.eqb (h_Key h) key) headers
  then Consumer.getHeaderValue headers key
  else Consumer.getHeaderValue rest key.
Proof.
  induction headers as [| h headers IH]; cbn; [reflexivity |].
  destruct (String.eqb (h_Key h) key); [reflexivity | exact IH].
Qed.

Lemma extractHeaders_lookup_rev (headers : list Header) (key : string) :
  Consumer.getHeaderValue (rev headers) key =
  default "" (OrderEventHandler.extractHeaders headers !! key).
Proof.
  induction headers as [| header headers IH] using rev_ind; [reflexivity |].
  rewrite rev_app_distr, extractHeaders_snoc. cbn [rev app Consumer.getHeaderValue].
  destruct (String.eqb_spec (h_Key header) key) as [<- | Hne].
  - now rewrite lookup_insert_eq.
  - now rewrite lookup_insert_ne.
Qed.

Lemma getHeaderValue_absent (headers : list Header) (key : string) :
  existsb (fun h => String.eqb (h_Key h) key) headers = false ->
  Consumer.getHeaderValue headers key = "".
Proof.
  induction headers as [| h headers IH]; cbn; [reflexivity |].
  destruct (String.eqb (h_Key h) key); [discriminate | exact IH].
Qed.

Lemma existsb_rev_key (headers : list Header) (key : string) :
  existsb (fun h => String.eqb (h_Key h) key) (rev headers) =
  existsb (fun h => String.eqb (h_Key h) key) headers.
Proof.
  induction headers as [| h headers IH]; [reflexivity |].
  cbn [rev existsb]. rewrite existsb_app, IH. cbn [existsb].
  rewrite orb_false_r. apply orb_comm.
Qed.

Lemma getHeaderValue_rev_NoDup (headers : list Header) (key : string) :
  NoDup (map h_Key headers) ->
  Consumer.getHeaderValue (rev headers) key =
  Consumer.getHeaderValue headers key.
Proof.
  induction headers as [| h headers IH]; [reflexivity |].
  cbn [map]. intros Hnd. apply NoDup_cons in Hnd as [Hnot Hnd].
  cbn [rev]. rewrite getHeaderValue_app. cbn [Consumer.getHeaderValue].
  rewrite existsb_rev_key.
  destruct (String.eqb_spec (h_Key h) key) as [E | Hne].
  - assert (Hno : existsb (fun x => String.eqb (h_Key x) key) headers = false).
    { apply not_true_is_false. intros H. apply existsb_exists in H as (x & Hx & Ex).
      apply String.eqb_eq in Ex. apply Hnot. rewrite E, <- Ex.
      apply list_elem_of_fmap. exists x. split; [reflexivity |].
      now apply list_elem_of_In. }
    now rewrite Hno.
  - destruct (existsb _ headers) eqn:Ee.
    + now apply IH.
    + now rewrite getHeaderValue_absent.
Qed.

Lemma BatchConsumer_getHeaderValue_eq (headers : list Header) (key : string) :
  BatchConsumer.getHeaderValue headers key =
  Consumer.getHeaderValue headers key.
Proof.
  induction headers as [| h headers IH]; cbn; [reflexivity |]. now rewrite IH.
Qed.

(** X17. The consumers read the first header of a key, the handler's map
    keeps the last. [getHeaderValue] of both consumers is the same function;
    it returns the value of the first header with the key and the empty
    text when there is none, so an absent header and an empty one cannot be
    told apart. [extractHeaders] keeps, for every key, the value of the
    last header with it: the map holds what [getHeaderValue] finds in the
    reversed headers. Both agree on headers in which no key occurs twice. *)
Theorem getHeaderValue_first_extractHeaders_last :
  forall (headers : list Header) (key : string),
    BatchConsumer.getHeaderValue headers key =
      Consumer.getHeaderValue headers key /\
    (forall (before after : list Header) (header : Header),
        headers = before ++ header :: after ->
        h_Key header = key ->
        Forall (fun h => h_Key h <> key) before ->
        Consumer.getHeaderValue headers key = h_Value header) /\
    (Forall (fun h => h_Key h <> key) headers ->
     Consumer.getHeaderValue headers key = "") /\
    default "" (OrderEventHandler.extractHeaders headers !! key) =
      Consumer.getHeaderValue (rev headers) key /\
    (NoDup (map h_Key headers) ->
     default "" (OrderEventHandler.extractHeaders headers !! key) =
       Consumer.getHeaderValue headers key).
Proof.
  intros headers key.
  assert (Hno : forall l, Forall (fun h => h_Key h <> key) l ->
                          existsb (fun h => String.eqb (h_Key h) key) l = false).
  { induction 1 as [| h l Hh _ IH]; cbn; [reflexivity |].
    apply String.eqb_neq in Hh. now rewrite Hh. }
  split; [| split; [| split; [| split]]].
  - apply BatchConsumer_getHeaderValue_eq.
  - intros before after header -> Hk Hb.
    rewrite getHeaderValue_app, (Hno _ Hb). cbn.
    apply String.eqb_eq in Hk. now rewrite Hk.
  - intros H. apply getHeaderValue_absent. now apply Hno.
  - symmetry. apply extractHeaders_lookup_rev.
  - intros Hnd. rewrite <- extractHeaders_lookup_rev.
    now apply getHeaderValue_rev_NoDup.
Qed.

(** *** Producer *)

Lemma published_as_iff (c : Codec) (event : OrderEvent) (message : Message) :
  published_as c event message <->
  exists eventData,
    json_Marshal c event = inl eventData /\
    message =
      mkMessage "" 0 0 (uuid_String c (ev_OrderID event)) eventData
        [mkHeader "event-type" (ev_EventType event);
         mkHeader "event-id" (uuid_String c (ev_EventID event));
         mkHeader "customer-id" (uuid_String c (ev_CustomerID event));
         mkHeader "content-type" "application/json";
         mkHeader "timestamp" (format_RFC3339 c (ev_Timestamp event))]
        (ev_Timestamp event).
Proof.
  unfold published_as, Producer.PublishOrderEvent. split.
  - intros (answer & result & H).
    destruct (json_Marshal c event) as [eventData | err].
    + exists eventData. split; [reflexivity |].
      apply kruns_bind in H as (tr1 & a & tr2 & H1 & _ & E).
      apply kruns_ask_iff in H1 as ->. cbn in E. now injection E as <- _.
    + apply kruns_Ret_iff in H as [[=] _].
  - intros (eventData & -> & ->).
    exists None, None. cbn. repeat constructor.
Qed.

Lemma PublishOrderEvents_loop_spec (c : Codec) (events : list OrderEvent) :
  forall messages,
    match Producer.PublishOrderEvents_loop c events messages with
    | inl result =>
        exists new, result = messages ++ new /\
                    Forall2 (published_as c) events new
    | inr err =>
        exists before event after cause,
          events = before ++ event :: after /\
          Forall (fun e => exists data, json_Marshal c e = inl data) before /\
          json_Marshal c event = inr cause /\
          err = Errorf ("failed to marshal event " +:+
                        uuid_String c (ev_EventID event) +:+ ": %w") cause
    end.
Proof.
  induction events as [| event events IH]; intros messages;
    cbn [Producer.PublishOrderEvents_loop].
  - exists []. split; [now rewrite app_nil_r | constructor].
  - destruct (json_Marshal c event) as [eventData | cause] eqn:Em.
    + match goal with
      | |- context [Producer.PublishOrderEvents_loop c events ?acc] =>
          specialize (IH acc);
          destruct (Producer.PublishOrderEvents_loop c events acc)
            as [result | err]
      end.
      * destruct IH as (new & -> & Hall). eexists (_ :: new).
        split; [now rewrite <- app_assoc |].
        constructor; [| exact Hall].
        apply published_as_iff. eauto.
      * destruct IH as (before & e & after & cause & -> & Hb & Hc & ->).
        exists (event :: before), e, after, cause.
        repeat split; auto. constructor; eauto.
    + exists [], event, events, cause. repeat split; auto.
Qed.

(** X18. [PublishOrderEvents] sends one batch or nothing. In every run:
    for no event it writes nothing and returns nil; when an event cannot
    be marshalled it returns the error of the first such event, naming its
    id, and writes nothing, also not the events before it; otherwise it makes
    exactly one call of WriteMessages, with one message per event, in the
    order of the events, each the message [PublishOrderEvent] writes for
    that event alone, and it returns nil exactly when the call does. *)
Theorem PublishOrderEvents_sends_one_batch_or_nothing :
  forall (c : Codec) (events : list OrderEvent) (tr : list KEvent)
         (res : option error),
    kruns (Producer.PublishOrderEvents c events) tr res ->
    (events = [] /\ tr = [] /\ res = None) \/
    (exists before event after cause,
        events = before ++ event :: after /\
        Forall (fun e => exists data, json_Marshal c e = inl data) before /\
        json_Marshal c event = inr cause /\
        tr = [] /\
        res = Some (Errorf ("failed to marshal event " +:+
                            uuid_String c (ev_EventID event) +:+ ": %w")
                      cause)) \/
    (events <> [] /\
     exists messages answer,
       Forall2 (published_as c) events messages /\
       tr = [ECall (WriteMessages messages) answer] /\
       (res = None <-> answer = None) /\
       (forall err, answer = Some err ->
                    res = Some (Errorf
                                  "failed to write batch messages to kafka: %w"
                                  err))).
Proof.
  intros c events tr res H. unfold Producer.PublishOrderEvents in H.
  destruct events as [| event events].
  { apply kruns_Ret_iff in H as [-> ->]. auto. }
  cbn [length Nat.eqb] in H.
  pose proof (PublishOrderEvents_loop_spec c (event :: events) []) as Hspec.
  destruct (Producer.PublishOrderEvents_loop c (event :: events) [])
    as [messages | err].
  - destruct Hspec as (new & -> & Hall). cbn [app] in H.
    apply kruns_bind in H as (tr1 & answer & tr2 & H1 & H2 & ->).
    apply kruns_ask_iff in H1 as ->.
    right. right. split; [discriminate |]. exists new, answer.
    destruct answer as [err |]; apply kruns_Ret_iff in H2 as [-> ->];
      (split; [exact Hall |]); (split; [reflexivity |]); split;
      try (split; congruence); congruence.
  - destruct Hspec as (before & e & after & cause & E & Hb & Hc & ->).
    apply kruns_Ret_iff in H as [-> ->].
    right. left. exists before, e, after, cause. auto.
Qed.

(** A batch of two events whose second one cannot be marshalled: nothing
    is written. *)
Lemma PublishOrderEvents_witness :
  exists before event after,
    [example_event;
     mkOrderEvent "" 8%N 3%N 1%N "pending" 21.98%float "USD" 5 ∅] =
      before ++ event :: after /\
    json_Marshal example_codec event = inr (DriverError "json").
Proof.
  destruct (PublishOrderEvents_sends_one_batch_or_nothing example_codec
              [example_event;
               mkOrderEvent "" 8%N 3%N 1%N "pending" 21.98%float "USD" 5 ∅]
              []
              (Some (Errorf "failed to marshal event 8: %w"
                       (DriverError "json")))
              (kruns_Ret _))
    as [(E & _) | [(before & event & after & cause & E & _ & Hc & _ & Hres)
                  | (_ & ms & a & _ & E & _)]].
  - discriminate E.
  - exists before, event, after. split; [exact E |].
    injection Hres as _ <-. exact Hc.
  - discriminate E.
Defined.

(** *** Consumers *)

Ltac event_type_cases :=
  unfold handler_of_type, EventOrderCreated, EventOrderConfirmed,
    EventOrderCancelled, EventOrderShipped, EventOrderDelivered,
    EventOrderRefunded;
  repeat match goal with
         | |- context [String.eqb ?a ?b] => destruct (String.eqb a b)
         end.

(** The runs of [processMessage] of the batch consumer. *)
Lemma BatchConsumer_processMessage_runs (c : Codec) (message : Message) tr res :
  kruns (BatchConsumer.processMessage c message) tr res <->
  let eventType := Consumer.getHeaderValue (m_Headers message) "event-type" in
  if String.eqb eventType "" then
    tr = [ECall (Handler (HandleGenericMessage message)) res]
  else
    match json_Unmarshal c (m_Value message) with
    | inr err =>
        tr = [] /\
        res = Some (Errorf "failed to unmarshal order event: %w" err)
    | inl decoded =>
        tr = [ECall (Handler (handler_of_type eventType decoded message)) res]
    end.
Proof.
  unfold BatchConsumer.processMessage. cbv zeta.
  rewrite BatchConsumer_getHeaderValue_eq.
  destruct (String.eqb (Consumer.getHeaderValue _ _) "");
    [apply kruns_ask_iff |].
  destruct (json_Unmarshal c (m_Value message)) as [decoded | err];
    [| apply kruns_Ret_iff].
  event_type_cases; apply kruns_ask_iff.
Qed.

(** The runs of [processMessage] of the consumer. *)
Lemma Consumer_processMessage_runs (c : Codec) (message : Message) tr res :
  kruns (Consumer.processMessage c message) tr res <->
  let eventType := Consumer.getHeaderValue (m_Headers message) "event-type" in
  exists tr',
    tr = EPrintf ("Processing message: partition=%d, offset=%d, key=%s" +:+ LF)
           [PInt (m_Partition message); PInt (m_Offset message);
            PString (m_Key message)] :: tr' /\
    if String.eqb eventType "" then
      tr' = [ECall (Handler (HandleGenericMessage message)) res]
    else
      match json_Unmarshal c (m_Value message) with
      | inr err =>
          tr' = [] /\
          res = Some (Errorf "failed to unmarshal order event: %w" err)
      | inl decoded =>
          let call :=
            handler_of_type eventType (with_kafka_data message decoded)
              message in
          tr' =
            match call with
            | HandleGenericMessage _ =>
                [EPrintf ("Unknown event type: %s, processing as generic" +:+
                          LF) [PString eventType]]
            | _ => []
            end ++ [ECall (Handler call) res]
      end.
Proof.
  unfold Consumer.processMessage. cbv zeta. cbn [kbind Printf].
  rewrite kruns_Printf_iff.
  apply exist_proper. intros tr'. apply and_iff_compat_l.
  destruct (String.eqb (Consumer.getHeaderValue _ _) "");
    [apply kruns_ask_iff |].
  destruct (json_Unmarshal c (m_Value message)) as [decoded | err];
    [| apply kruns_Ret_iff].
  change (UpdateOrderStatusUseCase.set_Data "kafka_timestamp"
            (AInt (m_Time message))
            (UpdateOrderStatusUseCase.set_Data "kafka_offset"
               (AInt (m_Offset message))
               (UpdateOrderStatusUseCase.set_Data "kafka_partition"
                  (AInt (m_Partition message)) decoded)))
    with (with_kafka_data message decoded).
  event_type_cases; cbn [app kbind]; try apply kruns_ask_iff.
  rewrite kruns_Printf_iff. split.
  - intros (tr'' & -> & H). apply kruns_ask_iff in H as ->. reflexivity.
  - intros ->. eexists. split; [reflexivity |]. now apply kruns_ask_iff.
Qed.

Lemma published_event_type (c : Codec) (event : OrderEvent)
    (message delivered : Message) :
  published_as c event message ->
  m_Headers delivered = m_Headers message ->
  Consumer.getHeaderValue (m_Headers delivered) "event-type" =
  ev_EventType event.
Proof.
  intros Hp ->. apply published_as_iff in Hp as (data & _ & ->). reflexivity.
Qed.

(** X19. A published event reaches the handler of its type. Let a message
    be what [PublishOrderEvent] writes for an event, delivered with its
    headers and payload (topic, partition and offset are the broker's). In
    every run of [processMessage] on it: an event with an empty type goes
    to HandleGenericMessage, with the message, whatever the payload;
    otherwise a payload that cannot be decoded reaches no handler at all and
    the error is returned, also for a type no typed handler exists for;
    otherwise exactly one handler is called, chosen by the type the producer
    put in the header: the typed one for the six order events, with the
    decoded event extended by the partition, offset and time of the
    message, and HandleGenericMessage for every other type. The answer of
    the handler is the result. So the event of a status change to
    processing, which UpdateOrderStatus publishes as order.status_changed,
    reaches no typed handler. *)
Theorem published_events_reach_the_handler_of_their_type :
  forall (c : Codec) (event : OrderEvent) (message delivered : Message)
         (tr : list KEvent) (res : option error),
    published_as c event message ->
    m_Headers delivered = m_Headers message ->
    m_Value delivered = m_Value message ->
    kruns (Consumer.processMessage c delivered) tr res ->
    (ev_EventType event = "" ->
     handler_calls tr = [(HandleGenericMessage delivered, res)]) /\
    (ev_EventType event <> "" ->
     match json_Unmarshal c (m_Value message) with
     | inr err =>
         handler_calls tr = [] /\
         res = Some (Errorf "failed to unmarshal order event: %w" err)
     | inl decoded =>
         handler_calls tr =
           [(handler_of_type (ev_EventType event)
               (with_kafka_data delivered decoded) delivered, res)]
     end) /\
    (forall (newStatus : OrderStatus) (e : OrderEvent),
        ~ In newStatus
            ["confirmed"; "cancelled"; "shipped"; "delivered"; "refunded"] ->
        handler_of_type (UpdateOrderStatusUseCase.eventType newStatus) e
          delivered = HandleGenericMessage delivered).
Proof.
  intros c event message delivered tr res Hp Hh Hv Hrun.
  apply Consumer_processMessage_runs in Hrun. cbv zeta in Hrun.
  rewrite (published_event_type c event message delivered Hp Hh), Hv in Hrun.
  destruct Hrun as (tr' & -> & Hrun).
  split; [| split].
  - intros E. rewrite E in Hrun. cbn in Hrun. now subst tr'.
  - intros Hne. apply String.eqb_neq in Hne. rewrite Hne in Hrun.
    destruct (json_Unmarshal c (m_Value message)) as [decoded | err].
    + subst tr'. cbn [handler_calls].
      rewrite handler_calls_app.
      destruct (handler_of_type _ _ _); reflexivity.
    + destruct Hrun as [-> ->]. auto.
  - intros newStatus e Hnot. cbn [In] in Hnot.
    unfold UpdateOrderStatusUseCase.eventType, OrderStatusConfirmed,
      OrderStatusCancelled, OrderStatusShipped, OrderStatusDelivered,
      OrderStatusRefunded.
    repeat match goal with
           | |- context [String.eqb newStatus ?s] =>
               destruct (String.eqb_spec newStatus s);
               [exfalso; apply Hnot; subst; tauto |]
           end.
    reflexivity.
Qed.

(** The message of the example event, delivered from partition 2. *)
Lemma published_events_witness :
  handler_calls
    [EPrintf ("Processing message: partition=%d, offset=%d, key=%s" +:+ LF)
       [PInt 2; PInt 40; PString "3"];
     ECall (Handler (HandleOrderCreated
                       (with_kafka_data message_created example_event)))
       None] =
  [(HandleOrderCreated (with_kafka_data message_created example_event), None)].
Proof.
  refine (proj1 (proj2
    (published_events_reach_the_handler_of_their_type example_codec
       example_event
       (mkMessage "" 0 0 "3" "order.created"
          [mkHeader "event-type" "order.created";
           mkHeader "event-id" "7"; mkHeader "customer-id" "1";
           mkHeader "content-type" "application/json";
           mkHeader "timestamp" "5"] 5)
       (mkMessage "orders" 2 40 "3" "order.created"
          [mkHeader "event-type" "order.created";
           mkHeader "event-id" "7"; mkHeader "customer-id" "1";
           mkHeader "content-type" "application/json";
           mkHeader "timestamp" "5"] 5)
       _ None _ eq_refl eq_refl _)) _).
  - apply published_as_iff. exists "order.created". split; reflexivity.
  - apply Consumer_processMessage_runs. cbv zeta. eexists. split; reflexivity.
  - discriminate.
Defined.

Lemma add_kafka_data_handler_of_type (message : Message) (eventType : string)
    (event : OrderEvent) (answer : option error) :
  add_kafka_data message (handler_of_type eventType event message, answer) =
  (handler_of_type eventType (with_kafka_data message event) message, answer).
Proof. unfold add_kafka_data. event_type_cases; reflexivity. Qed.

(** X20. The batch consumer hands its handlers the event without the data
    of the message. [processMessage] of the batch consumer and of the
    consumer choose the same handler method and return the same result, for
    every message and every answer of the handler: each run of one is
    matched by a run of the other with the same result. But the consumer
    passes the decoded event with kafka_partition, kafka_offset and
    kafka_timestamp written into its data (and prints its progress), while
    the batch consumer passes the decoded event as it is and prints
    nothing. *)
Theorem BatchConsumer_processMessage_leaves_out_the_kafka_data :
  forall (c : Codec) (message : Message),
    (forall tr res,
        kruns (BatchConsumer.processMessage c message) tr res ->
        Forall (fun e => exists call answer, e = ECall (Handler call) answer)
          tr /\
        exists tr',
          kruns (Consumer.processMessage c message) tr' res /\
          handler_calls tr' =
            map (add_kafka_data message) (handler_calls tr)) /\
    (forall tr' res,
        kruns (Consumer.processMessage c message) tr' res ->
        exists tr,
          kruns (BatchConsumer.processMessage c message) tr res /\
          handler_calls tr' =
            map (add_kafka_data message) (handler_calls tr)) /\
    (forall event : OrderEvent,
        ev_Data (with_kafka_data message event) !! "kafka_partition" =
          Some (AInt (m_Partition message)) /\
        ev_Data (with_kafka_data message event) !! "kafka_offset" =
          Some (AInt (m_Offset message)) /\
        ev_Data (with_kafka_data message event) !! "kafka_timestamp" =
          Some (AInt (m_Time message))).
Proof.
  intros c message. split; [| split].
  - intros tr res H. apply BatchConsumer_processMessage_runs in H.
    cbv zeta in H.
    assert (Hex : forall tr0,
               (let eventType :=
                  Consumer.getHeaderValue (m_Headers message) "event-type" in
                if String.eqb eventType "" then
                  tr0 = [ECall (Handler (HandleGenericMessage message)) res]
                else
                  match json_Unmarshal c (m_Value message) with
                  | inr err =>
                      tr0 = [] /\
                      res = Some (Errorf "failed to unmarshal order event: %w"
                                    err)
                  | inl decoded =>
                      let call :=
                        handler_of_type eventType
                          (with_kafka_data message decoded) message in
                      tr0 =
                        match call with
                        | HandleGenericMessage _ =>
                            [EPrintf
                               ("Unknown event type: %s, processing as generic"
                                +:+ LF) [PString eventType]]
                        | _ => []
                        end ++ [ECall (Handler call) res]
                  end) ->
               kruns (Consumer.processMessage c message)
                 (EPrintf
                    ("Processing message: partition=%d, offset=%d, key=%s" +:+
                     LF)
                    [PInt (m_Partition message); PInt (m_Offset message);
                     PString (m_Key message)] :: tr0) res).
    { intros tr0 H0. apply Consumer_processMessage_runs. cbv zeta.
      exists tr0. split; [reflexivity | exact H0]. }
    cbv zeta in Hex.
    destruct (String.eqb (Consumer.getHeaderValue _ _) "").
    + subst tr. split; [repeat constructor; eauto |].
      eexists. split; [apply Hex; reflexivity | reflexivity].
    + destruct (json_Unmarshal c (m_Value message)) as [decoded | err].
      * subst tr. split; [repeat constructor; eauto |].
        eexists. split; [apply Hex; reflexivity |].
        cbn [handler_calls map]. rewrite handler_calls_app.
        rewrite add_kafka_data_handler_of_type.
        destruct (handler_of_type _ (with_kafka_data message decoded) _);
          reflexivity.
      * destruct H as [-> ->]. split; [constructor |].
        eexists. split; [apply Hex; split; reflexivity | reflexivity].
  - intros tr' res H. apply Consumer_processMessage_runs in H. cbv zeta in H.
    destruct H as (tr0 & -> & H).
    assert (Hex : forall tr,
               (let eventType :=
                  Consumer.getHeaderValue (m_Headers message) "event-type" in
                if String.eqb eventType "" then
                  tr = [ECall (Handler (HandleGenericMessage message)) res]
                else
                  match json_Unmarshal c (m_Value message) with
                  | inr err =>
                      tr = [] /\
                      res = Some (Errorf "failed to unmarshal order event: %w"
                                    err)
                  | inl decoded =>
                      tr = [ECall (Handler (handler_of_type eventType decoded
                                              message)) res]
                  end) ->
               kruns (BatchConsumer.processMessage c message) tr res).
    { intros tr Ht. now apply BatchConsumer_processMessage_runs. }
    cbv zeta in Hex.
    destruct (String.eqb (Consumer.getHeaderValue _ _) "").
    + subst tr0. eexists. split; [apply Hex; reflexivity | reflexivity].
    + destruct (json_Unmarshal c (m_Value message)) as [decoded | err].
      * subst tr0. eexists. split; [apply Hex; reflexivity |].
        cbn [handler_calls map]. rewrite handler_calls_app.
        rewrite add_kafka_data_handler_of_type.
        destruct (handler_of_type _ (with_kafka_data message decoded) _);
          reflexivity.
      * destruct H as [-> ->].
        eexists. split; [apply Hex; split; reflexivity | reflexivity].
  - intros event. unfold with_kafka_data. cbn [ev_Data].
    repeat split.
    + rewrite lookup_insert_ne by discriminate.
      rewrite lookup_insert_ne by discriminate.
      apply lookup_insert_eq.
    + rewrite lookup_insert_ne by discriminate. apply lookup_insert_eq.
    + apply lookup_insert_eq.
Qed.

(** *** Batches *)

Lemma kexec_kruns {A S} (answer : Request -> S -> option error * S)
    (p : KProg A) :
  forall s tr a s', kexec answer p s = (tr, a, s') -> kruns p tr a.
Proof.
  induction p as [a0 | format arguments k IH | request k IH];
    intros s tr a s'; cbn [kexec].
  - intros [= <- <- _]. constructor.
  - destruct (kexec answer k s) as [[tr0 a1] s1] eqn:E.
    intros [= <- <- _]. constructor. eapply IH. exact E.
  - destruct (answer request s) as [r s0].
    destruct (kexec answer (k r) s0) as [[tr0 a1] s1] eqn:E.
    intros [= <- <- _]. constructor. eapply IH. exact E.
Qed.

Lemma BatchConsumer_processMessage_no_commit (c : Codec) (message : Message)
    tr res :
  kruns (BatchConsumer.processMessage c message) tr res -> commits tr = [].
Proof.
  intros H. apply BatchConsumer_processMessage_runs in H. cbv zeta in H.
  destruct (String.eqb _ ""); [now subst |].
  destruct (json_Unmarshal c (m_Value message)); [now subst |].
  now destruct H as [-> _].
Qed.

Lemma processBatch_loop_spec (c : Codec) (messages : list Message) :
  forall successfulMessages tr out,
    kruns (BatchConsumer.processBatch_loop c messages successfulMessages) tr
      out ->
    exists outcomes : list (list KEvent * option error),
      Forall2 (fun message outcome =>
                 kruns (BatchConsumer.processMessage c message) (fst outcome)
                   (snd outcome)) messages outcomes /\
      out = successfulMessages ++ successes messages outcomes /\
      handler_calls tr =
        concat (map (fun outcome => handler_calls (fst outcome)) outcomes) /\
      commits tr = [].
Proof.
  induction messages as [| message rest IH]; intros acc tr out H;
    cbn [BatchConsumer.processBatch_loop] in H.
  - apply kruns_Ret_iff in H as [-> ->]. exists [].
    repeat split; [constructor | now rewrite app_nil_r].
  - apply kruns_bind in H as (tr1 & r & tr2 & H1 & H2 & ->).
    pose proof (BatchConsumer_processMessage_no_commit _ _ _ _ H1) as Hc1.
    destruct r as [err |].
    + cbn [kbind Printf] in H2.
      apply kruns_Printf_iff in H2 as (tr3 & -> & H2).
      apply IH in H2 as (outcomes & HF & -> & Hh & Hc).
      exists ((tr1, Some err) :: outcomes).
      split; [constructor; [exact H1 | exact HF] |].
      split; [reflexivity |].
      rewrite handler_calls_app, commits_app, Hc1. cbn. rewrite Hh, Hc. auto.
    + apply IH in H2 as (outcomes & HF & -> & Hh & Hc).
      exists ((tr1, None) :: outcomes).
      split; [constructor; [exact H1 | exact HF] |].
      split; [cbn [successes]; now rewrite <- app_assoc |].
      rewrite handler_calls_app, commits_app, Hc1. cbn. rewrite Hh, Hc. auto.
Qed.

(** X21. [processBatch] commits exactly the messages it processed without
    error. In every run, every message of the batch is processed once, in
    order, whatever happened to the messages before it (an error is printed
    and the loop goes on); the handler calls of the run are those of the
    messages, in order; and CommitMessages is called at most once, after the
    loop, with the messages whose processing returned nil, in the order of
    the batch, and is not called when there is none. *)
Theorem processBatch_commits_exactly_the_successes :
  forall (c : Codec) (messages : list Message) (tr : list KEvent)
         (res : unit),
    kruns (BatchConsumer.processBatch c messages) tr res ->
    exists outcomes : list (list KEvent * option error),
      Forall2 (fun message outcome =>
                 kruns (BatchConsumer.processMessage c message) (fst outcome)
                   (snd outcome)) messages outcomes /\
      handler_calls tr =
        concat (map (fun outcome => handler_calls (fst outcome)) outcomes) /\
      commits tr =
        match successes messages outcomes with
        | [] => []
        | _ :: _ => [successes messages outcomes]
        end.
Proof.
  intros c messages tr res H. unfold BatchConsumer.processBatch in H.
  cbn [kbind Printf] in H.
  apply kruns_Printf_iff in H as (tr0 & -> & H).
  apply kruns_bind in H as (tr1 & out & tr2 & H1 & H2 & ->).
  apply processBatch_loop_spec in H1 as (outcomes & HF & -> & Hh & Hc).
  cbn [app] in H2. exists outcomes. split; [exact HF |].
  cbn [handler_calls commits]. rewrite handler_calls_app, commits_app, Hh, Hc.
  destruct (successes messages outcomes) as [| m ms].
  - apply kruns_Ret_iff in H2 as [-> _]. cbn. now rewrite app_nil_r.
  - cbn [length Nat.ltb Nat.leb] in H2.
    apply kruns_bind in H2 as (tr3 & r & tr4 & H3 & H4 & ->).
    apply kruns_ask_iff in H3 as ->.
    destruct r as [err |]; cbn [Printf] in H4;
      apply kruns_Printf_iff in H4 as (tr5 & -> & H4);
      apply kruns_Ret_iff in H4 as [-> _]; cbn; now rewrite app_nil_r.
Qed.

(** A batch of two messages, the second with a payload that does not
    decode: only the first is committed. *)
Lemma processBatch_witness :
  exists outcomes : list (list KEvent * option error),
    Forall2 (fun message outcome =>
               kruns (BatchConsumer.processMessage example_codec message)
                 (fst outcome) (snd outcome))
      [message_created; message_broken] outcomes /\
    [(HandleOrderCreated example_event, @None error)] =
      concat (map (fun outcome => handler_calls (fst outcome)) outcomes) /\
    [[message_created]] =
      match successes [message_created; message_broken] outcomes with
      | [] => []
      | _ :: _ => [successes [message_created; message_broken] outcomes]
      end.
Proof.
  refine (processBatch_commits_exactly_the_successes example_codec
           [message_created; message_broken]
           [EPrintf ("Processing batch of %d messages" +:+ LF) [PInt 2];
            ECall (Handler (HandleOrderCreated example_event)) None;
            EPrintf ("Error processing message in batch: %v, key: %s" +:+ LF)
              [PError (Errorf "failed to unmarshal order event: %w"
                         (DriverError "json"));
               PString "4"];
            ECall (CommitMessages [message_created]) None;
            EPrintf ("Committed %d messages from batch" +:+ LF) [PInt 1]]
           tt _).
  apply (kexec_kruns (fun _ s => (None, s)) _ tt _ _ tt). reflexivity.
Defined.

End KafkaFacts.

(* ===================================================================== *)
(** ** Chain of middleware                                               *)

Section ChainFacts.
Context {Handler : Type}.
Implicit Types (mw : list (Handler -> Handler)) (final : Handler).

Lemma Chain_loop_take mw (n : nat) final :
  (n <= length mw)%nat ->
  middleware.Chain_loop mw n final =
  fold_right (fun m next => m next) final (take n mw).
Proof.
  revert final. induction n as [| i IH]; intros final Hn;
    cbn [middleware.Chain_loop].
  - now rewrite take_0.
  - destruct (lookup_lt_is_Some_2 mw i) as [m Hm]; [lia |].
    rewrite Hm, IH by lia. rewrite (take_S_r _ _ _ Hm), fold_right_app.
    reflexivity.
Qed.

Lemma Chain_fold mw final :
  middleware.Chain mw final = fold_right (fun m next => m next) final mw.
Proof.
  unfold middleware.Chain. rewrite Chain_loop_take by lia.
  now rewrite firstn_all.
Qed.

End ChainFacts.

(** X22. [Chain] runs the first middleware outermost. For every list of
    middleware and every final handler, the loop from the last index down
    builds mw[0](mw[1](... mw[n-1](final))): the first middleware of the list
    wraps all the others, so it sees a request first and a response last;
    an empty chain is the final handler itself, and chaining a list that is
    split in two is chaining the second part and then the first. *)
Theorem Chain_runs_the_first_middleware_outermost :
  forall (Handler : Type) (mw : list (Handler -> Handler)) (final : Handler),
    middleware.Chain mw final = fold_right (fun m next => m next) final mw /\
    middleware.Chain [] final = final /\
    (forall first rest,
        mw = first :: rest ->
        middleware.Chain mw final = first (middleware.Chain rest final)) /\
    (forall a b,
        mw = a ++ b ->
        middleware.Chain mw final =
        middleware.Chain a (middleware.Chain b final)).
Proof.
  intros Handler mw final. split; [apply Chain_fold |].
  split; [reflexivity |]. split.
  - intros first rest ->. now rewrite !Chain_fold.
  - intros a b ->. now rewrite !Chain_fold, fold_right_app.
Qed.

(* ===================================================================== *)
(** ** The email check of the database and the one of the service        *)

Section EmailFacts.
Import migrations.

Lemma nullable_iff (r : regex) : nullable r = true <-> lang r [].
Proof.
  induction r as [| | p | r1 IH1 r2 IH2 | r1 IH1 r2 IH2 | r IH];
    cbn [nullable].
  - split; [discriminate | inversion 1].
  - split; [constructor | reflexivity].
  - split; [discriminate | inversion 1].
  - rewrite andb_true_iff, IH1, IH2. split.
    + intros [H1 H2].
      exact (lang_Cat _ _ [] [] H1 H2).
    + inversion 1 as [| | ? ? s1 s2 H1 H2 E1 E2 | | | |]; subst.
      apply app_eq_nil in E2 as [-> ->]. auto.
  - rewrite orb_true_iff, IH1, IH2. split.
    + intros [H | H]; [now apply lang_Alt_l | now apply lang_Alt_r].
    + inversion 1; subst; auto.
  - split; [constructor | reflexivity].
Qed.

Lemma lang_Star_cons_inv (r : regex) (c : ascii) (s : list ascii) :
  lang (Star r) (c :: s) ->
  exists s1 s2, s = s1 ++ s2 /\ lang r (c :: s1) /\ lang (Star r) s2.
Proof.
  intros H. remember (Star r) as r' eqn:Er. remember (c :: s) as t eqn:Et.
  revert s Et Er.
  induction H as [| | | | | | r0 s1 s2 H1 _ H2 IH2]; intros t Et Er;
    try discriminate.
  injection Er as ->. destruct s1 as [| c1 s1].
  - cbn in Et. now apply IH2.
  - cbn in Et. injection Et as -> <-. eauto.
Qed.

Lemma deriv_iff (c : ascii) (r : regex) :
  forall s, lang (deriv c r) s <-> lang r (c :: s).
Proof.
  induction r as [| | p | r1 IH1 r2 IH2 | r1 IH1 r2 IH2 | r IH]; intros s;
    cbn [deriv].
  - split; inversion 1.
  - split; inversion 1.
  - destruct (p c) eqn:Ep; split.
    + inversion 1; subst. now constructor.
    + inversion 1; subst. constructor.
    + inversion 1.
    + inversion 1; subst. congruence.
  - assert (Hcat : lang (Cat (deriv c r1) r2) s ->
                   lang (Cat r1 r2) (c :: s)).
    { inversion 1 as [| | ? ? s1 s2 H1 H2 | | | |]; subst.
      apply IH1 in H1. exact (lang_Cat _ _ (c :: s1) s2 H1 H2). }
    assert (Hinv : lang (Cat r1 r2) (c :: s) ->
                   lang (Cat (deriv c r1) r2) s \/
                   (lang r1 [] /\ lang r2 (c :: s))).
    { inversion 1 as [| | ? ? s1 s2 H1 H2 E1 E2 | | | |]; subst.
      destruct s1 as [| c1 s1]; cbn in E2.
      - subst s2. right. auto.
      - injection E2 as -> <-. left. constructor; [now apply IH1 | exact H2]. }
    destruct (nullable r1) eqn:En.
    + split.
      * inversion 1; subst; [now apply Hcat |].
        apply (lang_Cat _ _ [] (c :: s)); [now apply nullable_iff |].
        now apply IH2.
      * intros H. apply Hinv in H as [H | [_ H]];
          [now apply lang_Alt_l | apply lang_Alt_r; now apply IH2].
    + split; [exact Hcat |].
      intros H. apply Hinv in H as [H | [H _]]; [exact H |].
      apply nullable_iff in H. congruence.
  - split.
    + inversion 1; subst;
        [apply lang_Alt_l; now apply IH1 | apply lang_Alt_r; now apply IH2].
    + inversion 1; subst;
        [apply lang_Alt_l; now apply IH1 | apply lang_Alt_r; now apply IH2].
  - split.
    + inversion 1 as [| | ? ? s1 s2 H1 H2 | | | |]; subst.
      apply IH in H1. exact (lang_Star_cons _ (c :: s1) s2 H1 H2).
    + intros H. apply lang_Star_cons_inv in H as (s1 & s2 & -> & H1 & H2).
      constructor; [now apply IH | exact H2].
Qed.

(** The matcher decides the texts of the expression. *)
Lemma regex_match_iff (s : list ascii) :
  forall r, regex_match r s = true <-> lang r s.
Proof.
  induction s as [| c s IH]; intros r; cbn [regex_match].
  - apply nullable_iff.
  - rewrite IH. apply deriv_iff.
Qed.

Lemma lang_Class_iff (p : ascii -> bool) (s : list ascii) :
  lang (Class p) s <-> exists c, s = [c] /\ p c = true.
Proof.
  split; [inversion 1; eauto | intros (c & -> & H); now constructor].
Qed.

Lemma lang_Cat_iff (r1 r2 : regex) (s : list ascii) :
  lang (Cat r1 r2) s <->
  exists s1 s2, s = s1 ++ s2 /\ lang r1 s1 /\ lang r2 s2.
Proof.
  split; [inversion 1; eauto | intros (s1 & s2 & -> & H1 & H2); now constructor].
Qed.

Lemma lang_Star_Class_iff (p : ascii -> bool) (s : list ascii) :
  lang (Star (Class p)) s <-> Forall (fun c => p c = true) s.
Proof.
  split.
  - intros H. remember (Star (Class p)) as r eqn:Er.
    induction H as [| | | | | | r0 s1 s2 H1 _ H2 IH2]; try discriminate.
    + constructor.
    + injection Er as ->. apply lang_Class_iff in H1 as (c & -> & Hc).
      constructor; auto.
  - induction 1 as [| c s Hc _ IH]; [constructor |].
    apply (lang_Star_cons _ [c] s); [now constructor | exact IH].
Qed.

Lemma lang_Plus_Class_iff (p : ascii -> bool) (s : list ascii) :
  lang (Plus (Class p)) s <-> s <> [] /\ Forall (fun c => p c = true) s.
Proof.
  unfold Plus. rewrite lang_Cat_iff. split.
  - intros (s1 & s2 & -> & H1 & H2).
    apply lang_Class_iff in H1 as (c & -> & Hc).
    apply lang_Star_Class_iff in H2. split; [discriminate |].
    constructor; auto.
  - intros [Hne H]. destruct H as [| c s Hc H]; [contradiction |].
    exists [c], s. split; [reflexivity |].
    split; [now constructor | now apply lang_Star_Class_iff].
Qed.

(** The texts of the email pattern, as lists of bytes. *)
Lemma lang_email_pattern (s : list ascii) :
  lang email_pattern s <->
  exists loc dom tld : list ascii,
    s = loc ++ "@"%char :: dom ++ "."%char :: tld /\
    loc <> [] /\ Forall (fun c => local_class c = true) loc /\
    dom <> [] /\ Forall (fun c => domain_class c = true) dom /\
    (2 <= length tld)%nat /\ Forall (fun c => letter_class c = true) tld.
Proof.
  unfold email_pattern. split.
  - intros H.
    apply lang_Cat_iff in H as (loc & s1 & -> & Hloc & H).
    apply lang_Cat_iff in H as (at_ & s2 & -> & Hat & H).
    apply lang_Cat_iff in H as (dom & s3 & -> & Hdom & H).
    apply lang_Cat_iff in H as (dot & s4 & -> & Hdot & H).
    apply lang_Cat_iff in H as (l1 & s5 & -> & Hl1 & H).
    apply lang_Cat_iff in H as (l2 & tl & -> & Hl2 & H).
    apply lang_Plus_Class_iff in Hloc as [Hloc1 Hloc2].
    apply lang_Plus_Class_iff in Hdom as [Hdom1 Hdom2].
    apply lang_Class_iff in Hat as (c & -> & Hc).
    apply Ascii.eqb_eq in Hc as <-.
    apply lang_Class_iff in Hdot as (c & -> & Hc).
    apply Ascii.eqb_eq in Hc as <-.
    apply lang_Class_iff in Hl1 as (c1 & -> & Hc1).
    apply lang_Class_iff in Hl2 as (c2 & -> & Hc2).
    apply lang_Star_Class_iff in H.
    exists loc, dom, (c1 :: c2 :: tl). cbn [app length].
    repeat split; auto; lia.
  - intros (loc & dom & tld & -> & Hloc1 & Hloc2 & Hdom1 & Hdom2 & Hlen & Htld).
    destruct tld as [| c1 [| c2 tl]]; cbn [length] in Hlen; try lia.
    apply Forall_cons in Htld as [Hc1 Htld].
    apply Forall_cons in Htld as [Hc2 Htld].
    apply (lang_Cat _ _ loc); [now apply lang_Plus_Class_iff |].
    apply (lang_Cat _ _ ["@"%char]); [now constructor |].
    apply (lang_Cat _ _ dom); [now apply lang_Plus_Class_iff |].
    apply (lang_Cat _ _ ["."%char]); [now constructor |].
    apply (lang_Cat _ _ [c1]); [now constructor |].
    apply (lang_Cat _ _ [c2]); [now constructor |].
    now apply lang_Star_Class_iff.
Qed.

Lemma list_ascii_of_string_app (a b : string) :
  list_ascii_of_string (a +:+ b) =
  list_ascii_of_string a ++ list_ascii_of_string b.
Proof.
  induction a as [| c a IH]; [reflexivity |].
  rewrite append_String. cbn. now rewrite IH.
Qed.

Lemma string_of_list_ascii_app (a b : list ascii) :
  string_of_list_ascii (a ++ b) =
  string_of_list_ascii a +:+ string_of_list_ascii b.
Proof.
  induction a as [| c a IH]; [reflexivity |].
  cbn. now rewrite append_String, IH.
Qed.

Lemma length_list_ascii_of_string (s : string) :
  length (list_ascii_of_string s) = String.length s.
Proof. induction s as [| c s IH]; cbn; auto. Qed.

(** What [is_valid_email] accepts. *)
Lemma is_valid_email_iff (email : string) :
  is_valid_email email = true <->
  exists loc dom tld : string,
    email = loc +:+ "@" +:+ dom +:+ "." +:+ tld /\
    loc <> "" /\ all_in local_class loc /\
    dom <> "" /\ all_in domain_class dom /\
    (2 <= String.length tld)%nat /\ all_in letter_class tld.
Proof.
  unfold is_valid_email, all_in. rewrite regex_match_iff, lang_email_pattern.
  split.
  - intros (loc & dom & tld & E & Hl1 & Hl2 & Hd1 & Hd2 & Hlen & Ht).
    exists (string_of_list_ascii loc), (string_of_list_ascii dom),
      (string_of_list_ascii tld).
    rewrite !list_ascii_of_string_of_list_ascii.
    rewrite <- (string_of_list_ascii_of_string email), E.
    rewrite string_of_list_ascii_app. cbn [string_of_list_ascii].
    rewrite string_of_list_ascii_app. cbn [string_of_list_ascii].
    rewrite <- (length_list_ascii_of_string (string_of_list_ascii tld)),
      list_ascii_of_string_of_list_ascii.
    repeat split; auto.
    + destruct loc; [contradiction | discriminate].
    + destruct dom; [contradiction | discriminate].
  - intros (loc & dom & tld & -> & Hl1 & Hl2 & Hd1 & Hd2 & Hlen & Ht).
    exists (list_ascii_of_string loc), (list_ascii_of_string dom),
      (list_ascii_of_string tld).
    rewrite !list_ascii_of_string_app. cbn [list_ascii_of_string app].
    rewrite length_list_ascii_of_string.
    repeat split; auto.
    + destruct loc; [contradiction | discriminate].
    + destruct dom; [contradiction | discriminate].
Qed.

Lemma Contains_byte_false (x : ascii) (s : string) :
  Forall (fun c => Ascii.eqb c x = false) (list_ascii_of_string s) ->
  Contains s (String x "") = false.
Proof.
  induction s as [| c s IH]; cbn [list_ascii_of_string]; intros H.
  - reflexivity.
  - apply Forall_cons in H as [Hc H].
    now rewrite Contains_byte_cons, Hc, IH.
Qed.

Lemma class_not_at (c : ascii) :
  (local_class c = true -> Ascii.eqb c "@" = false) /\
  (domain_class c = true -> Ascii.eqb c "@" = false) /\
  (letter_class c = true -> Ascii.eqb c "@" = false).
Proof.
  destruct (Ascii.eqb_spec c "@") as [-> | _]; [| auto].
  repeat split; vm_compute; discriminate.
Qed.

Lemma length_append (a b : string) :
  String.length (a +:+ b) = (String.length a + String.length b)%nat.
Proof.
  induction a as [| c a IH]; [reflexivity |].
  rewrite append_String. cbn. now rewrite IH.
Qed.

(** X23. The email check of the database is stricter than the one of the
    service. The CHECK constraint of table orders, [is_valid_email],
    accepts exactly the texts local@domain.tld with a non-empty local part
    of letters, digits and . _ % + -, a non-empty domain of letters, digits,
    . and -, and a last part of two or more letters. Every such email
    passes [validateEmail] of the create-order use case, but not the other
    way round: a@b.c and @abc.d pass the service and are refused by the
    constraint. *)
Theorem is_valid_email_is_stricter_than_validateEmail :
  (forall email : string,
      is_valid_email email = true <->
      exists loc dom tld : string,
        email = loc +:+ "@" +:+ dom +:+ "." +:+ tld /\
        loc <> "" /\ all_in local_class loc /\
        dom <> "" /\ all_in domain_class dom /\
        (2 <= String.length tld)%nat /\ all_in letter_class tld) /\
  (forall email : string,
      is_valid_email email = true -> validateEmail email = true) /\
  (validateEmail "a@b.c" = true /\ is_valid_email "a@b.c" = false) /\
  (validateEmail "@abc.d" = true /\ is_valid_email "@abc.d" = false) /\
  (validateEmail "ann@shop.io" = true /\ is_valid_email "ann@shop.io" = true).
Proof.
  split; [exact is_valid_email_iff |].
  split; [| repeat split; reflexivity].
  intros email H.
  apply is_valid_email_iff in H
    as (loc & dom & tld & -> & Hl1 & Hl2 & Hd1 & Hd2 & Hlen & Ht).
  apply validateEmail_iff. split.
  - rewrite !length_append. cbn [String.length].
    destruct loc; [contradiction |]. destruct dom; [contradiction |].
    cbn [String.length]. lia.
  - exists loc, (dom +:+ "." +:+ tld). split; [reflexivity |].
    split.
    { apply Contains_byte_false. unfold all_in in Hl2.
      eapply Forall_impl; [exact Hl2 |]. intros c. apply class_not_at. }
    split.
    { apply Contains_byte_false. rewrite !list_ascii_of_string_app.
      cbn [list_ascii_of_string app].
      apply Forall_app. split.
      - eapply Forall_impl; [exact Hd2 |]. intros c. apply class_not_at.
      - constructor; [reflexivity |].
        eapply Forall_impl; [exact Ht |]. intros c. apply class_not_at. }
    split.
    { rewrite !length_append. cbn [String.length].
      destruct dom; [contradiction |]. cbn [String.length]. lia. }
    apply Contains_iff. exists dom, tld. reflexivity.
Qed.

End EmailFacts.

(* ===================================================================== *)
(** ** The fields of a log line                                          *)

Section LoggerFacts.
Import logger.

Lemma mod2_SS (n : nat) : (S (S n) mod 2 = n mod 2)%nat.
Proof.
  replace (S (S n)) with (n + 1 * 2)%nat by lia. apply Nat.Div0.mod_add.
Qed.

Lemma length_key_values (pairs : list (string * Value)) :
  length (key_values pairs) = (2 * length pairs)%nat.
Proof.
  unfold key_values. induction pairs as [| p pairs IH]; cbn in *; lia.
Qed.

Lemma key_values_even (pairs : list (string * Value)) :
  (length (key_values pairs) mod 2 = 0)%nat.
Proof.
  rewrite length_key_values, Nat.mul_comm. apply Nat.Div0.mod_mul.
Qed.

Lemma parseFields_loop_key_values (pairs : list (string * Value))
    (rest : list Value) :
  parseFields_loop (key_values pairs ++ rest) =
  map (fun pair => parseField (fst pair) (snd pair)) pairs ++
  parseFields_loop rest.
Proof.
  unfold key_values. induction pairs as [| [k v] pairs IH]; [reflexivity |].
  cbn [map concat app fst snd parseFields_loop]. now rewrite IH.
Qed.

Lemma parseFields_loop_length (n : nat) :
  forall fields, (length fields <= n)%nat ->
                 (2 * length (parseFields_loop fields) <= length fields)%nat.
Proof.
  induction n as [| n IH]; intros fields Hn.
  - destruct fields; cbn in *; lia.
  - destruct fields as [| k [| v rest]].
    + cbn. lia.
    + destruct k; cbn; lia.
    + assert (Hr : (2 * length (parseFields_loop rest) <= length rest)%nat).
      { apply IH. cbn [length] in Hn. lia. }
      destruct k; cbn [parseFields_loop length]; lia.
Qed.

(** X24. [parseFields] pairs keys with values. For arguments written as
    key, value, key, value with string keys it returns one field per pair,
    in order, built by [parseField]; a last key without a value gets the
    empty text as value; a pair whose key is not a string is dropped
    together with its value; there are never more fields than half the
    arguments, rounded up. The field of an error value is named error
    whatever key was given for it; every other field has the key given. *)
Theorem parseFields_pairs_keys_with_values :
  (forall pairs : list (string * Value),
      parseFields (key_values pairs) =
      map (fun pair => parseField (fst pair) (snd pair)) pairs) /\
  (forall (pairs : list (string * Value)) (key : string),
      parseFields (key_values pairs ++ [VString key]) =
      map (fun pair => parseField (fst pair) (snd pair)) pairs ++
      [zap_String key ""]) /\
  (forall (key value : Value) (rest : list Value),
      (forall s, key <> VString s) ->
      parseFields (key :: value :: rest) = parseFields rest) /\
  (forall fields : list Value,
      (length (parseFields fields) <= (length fields + 1) / 2)%nat) /\
  (forall (key : string) (value : Value),
      Field_Key (parseField key value) =
      match value with
      | VError _ => "error"
      | _ => key
      end).
Proof.
  split; [| split; [| split; [| split]]].
  - intros pairs. unfold parseFields. rewrite key_values_even. cbn [Nat.eqb negb].
    rewrite <- (app_nil_r (key_values pairs)) at 1.
    rewrite parseFields_loop_key_values. cbn. now rewrite app_nil_r.
  - intros pairs key. unfold parseFields.
    assert (E : (length (key_values pairs ++ [VString key]) mod 2 = 1)%nat).
    { rewrite length_app, length_key_values. cbn [length].
      replace (2 * length pairs + 1)%nat with (1 + length pairs * 2)%nat by lia.
      now rewrite Nat.Div0.mod_add. }
    rewrite E. cbn [Nat.eqb negb]. rewrite <- app_assoc.
    now rewrite parseFields_loop_key_values.
  - intros key value rest Hkey. unfold parseFields. cbn [length].
    rewrite mod2_SS.
    destruct (negb (length rest mod 2 =? 0)%nat); cbn [app parseFields_loop];
      destruct key; try reflexivity; now contradiction (Hkey s).
  - intros fields. unfold parseFields.
    assert (Hhalf : forall l : list Value,
               (2 * length (parseFields_loop l) <= length l)%nat).
    { intros l. now apply (parseFields_loop_length (length l)). }
    destruct (length fields mod 2 =? 0)%nat eqn:Em; cbn [negb].
    + specialize (Hhalf fields).
      apply Nat.div_le_lower_bound; lia.
    + specialize (Hhalf (fields ++ [VString ""])).
      rewrite length_app in Hhalf. cbn [length] in Hhalf.
      apply Nat.div_le_lower_bound; lia.
  - intros key value. now destruct value.
Qed.

End LoggerFacts.

(* ===================================================================== *)
(** ** The helper contains                                               *)

Section ContainsFacts.

Lemma substring_0_app (a b : string) :
  substring 0 (String.length a) (a +:+ b) = a.
Proof.
  induction a as [| c a IH]; cbn [String.length].
  - rewrite append_Empty. now destruct b.
  - rewrite append_String. cbn [substring]. now rewrite IH.
Qed.

Lemma substring_skip_app (a b : string) (n : nat) :
  substring (String.length a) n (a +:+ b) = substring 0 n b.
Proof.
  induction a as [| c a IH]; cbn [String.length].
  - now rewrite append_Empty.
  - rewrite append_String. cbn [substring]. exact IH.
Qed.

Lemma substring_0_all (s : string) : substring 0 (String.length s) s = s.
Proof. induction s as [| c s IH]; cbn; [reflexivity | now rewrite IH]. Qed.

Lemma split_at (s : string) :
  forall n, (n <= String.length s)%nat ->
            s = substring 0 n s +:+ substring n (String.length s - n) s.
Proof.
  induction s as [| c s IH]; intros n Hn.
  - destruct n; reflexivity.
  - destruct n as [| n].
    + cbn [substring String.length Nat.sub]. rewrite append_Empty.
      now rewrite substring_0_all.
    + cbn [String.length] in *. cbn [substring Nat.sub].
      rewrite append_String. f_equal. apply IH. lia.
Qed.

(** What [contains] computes: whether the text starts or ends with the
    other. *)
Lemma contains_iff (s substr : string) :
  contains s substr = true <->
  (exists rest, s = substr +:+ rest) \/ (exists rest, s = rest +:+ substr).
Proof.
  unfold contains, slice_to, slice_from.
  destruct (Nat.leb_spec (String.length substr) (String.length s)) as [Hle | Hgt];
    cbn [andb].
  - rewrite <- (split_at s (String.length substr) Hle), String.eqb_refl.
    cbn [negb]. rewrite orb_false_r, !orb_true_iff.
    rewrite Nat.eqb_eq, !String.eqb_eq.
    replace (String.length s - (String.length s - String.length substr))%nat
      with (String.length substr) by lia.
    split.
    + intros [[H0 | Hs] | Hp].
      * left. exists s. destruct substr; [now rewrite append_Empty | discriminate].
      * right. exists (substring 0 (String.length s - String.length substr) s).
        pose proof (split_at s (String.length s - String.length substr)) as E.
        replace (String.length s - (String.length s - String.length substr))%nat
          with (String.length substr) in E by lia.
        rewrite Hs in E. apply E. lia.
      * left. exists (substring (String.length substr)
                        (String.length s - String.length substr) s).
        pose proof (split_at s (String.length substr) Hle) as E.
        now rewrite Hp in E.
    + intros [(rest & ->) | (rest & ->)].
      * right. apply substring_0_app.
      * left. right. rewrite length_append.
        replace (String.length rest + String.length substr -
                 String.length substr)%nat
          with (String.length rest) by lia.
        rewrite substring_skip_app. apply substring_0_all.
  - split; [discriminate |].
    intros [(rest & ->) | (rest & ->)]; rewrite length_append in Hgt; lia.
Qed.

(** X25. The helper [contains] does not test containment. It answers
    true exactly when the text starts or ends with the other text (its
    last comparison never holds), so whenever it answers true the text does
    contain the other, but not the other way round: for a text that neither
    starts nor ends with "@", such as a@b.c, it answers false although
    strings.Contains, which [validateEmail] uses, answers true. *)
Theorem contains_tests_prefix_or_suffix_only :
  (forall s substr : string,
      contains s substr = true <->
      (exists rest, s = substr +:+ rest) \/
      (exists rest, s = rest +:+ substr)) /\
  (forall s substr : string,
      contains s substr = true -> Contains s substr = true) /\
  (forall (first last : ascii) (middle : string),
      first <> "@"%char -> last <> "@"%char ->
      contains (String first (middle +:+ String last "")) "@" = false) /\
  (contains "a@b.c" "@" = false /\ Contains "a@b.c" "@" = true).
Proof.
  split; [exact contains_iff |]. split; [| split; [| split; reflexivity]].
  - intros s substr H. apply contains_iff in H as [(rest & ->) | (rest & ->)];
      apply Contains_iff.
    + exists "", rest. now rewrite append_Empty.
    + exists rest, "". now rewrite append_nil_r.
  - intros first last middle Hf Hl. apply not_true_is_false. intros H.
    apply contains_iff in H as [(rest & E) | (rest & E)].
    + rewrite append_String, append_Empty in E. now injection E.
    + assert (El : list_ascii_of_string
                     (String first (middle +:+ String last "")) =
                   list_ascii_of_string (rest +:+ "@")) by now rewrite E.
      rewrite !list_ascii_of_string_app in El.
      cbn [list_ascii_of_string] in El. rewrite list_ascii_of_string_app in El.
      cbn [list_ascii_of_string] in El.
      change (first :: list_ascii_of_string middle ++ [last])
        with ((first :: list_ascii_of_string middle) ++ [last]) in El.
      apply app_inj_tail in El as [_ El]. contradiction.
Qed.

End ContainsFacts.
